(* ===== verification/_CoqProject ===== *)
-Q . S2P
Prelude.v
UsbHost.v
MockHost.v
Tables.v
Registry.v
Extract.v
Walker.v
Driver.v
Lifecycle.v
Scenarios.v
