(* ===== verification/Prelude.v ===== *)
(** * A verification development of the HIDComposite driver

    Program: [src/hidcomposite.cpp] of the USB Host Shield 2.0 library,
    the composite-device HID class driver ([class HIDComposite]).  The
    driver enumerates a USB HID device with one or more interfaces
    ([Init]), records its interfaces and interrupt endpoints while the
    configuration descriptor is walked ([EndpointXtract]), polls the
    interrupt-IN endpoints on a timer and routes the reports to registered
    parsers ([Poll], [SetReportParser], [GetReportParser]), writes reports
    ([SndRpt]) and gives the device's address back ([Release]).

    ** Files, and the part of the code each models

    - [Prelude.v] (this file): the state monad [ST] of the development
      with its notations in [hid_scope], a weakest-precondition calculus
      [wp] over it, machine-width integers ([wrap8], [wrap16], [wrap32],
      [signed32], the C truth test [nz]), byte buffers ([store_bytes],
      [byte_at], [word_at]), and the hint databases [hid] and [hid_rw].
    - [UsbHost.v]: the collaborators the driver calls but that are not in
      src/: the pool entry [UsbDevice] and the address pool of address.h
      as the type class [AddressPool] with its laws [AddressPoolLaws]; the
      transport of Usb.cpp as the type class [UsbTransport]; the events
      the driver issues to them ([Event]); the USB core's table of drivers
      [DevConfig] and [RegisterDeviceClass] (Usb.h); the header constants.
    - [MockHost.v]: an executable pool ([gmap]) and a scripted device
      that implement both classes; the pool satisfies the laws.
    - [Tables.v]: the object [HIDComposite] as a [Record] whose fixed
      arrays are lists updated by index; the constructor
      [HIDComposite_new] (hidcomposite.cpp:20-26), the whole constructor
      with its registration [HIDComposite_ctor] (20-30), [Initialize]
      (43-70), and the well-formedness invariant [wf] of the tables.
    - [Registry.v]: [SetReportParser] (72-81), [GetReportParser] (83-92),
      [GetHidClassDescrLen] (32-41), each loop a [Fixpoint] with a lemma
      relating it to a list recursion; [Module RegistrySpec], the abstract
      registry of the spec, and the refinement theorems.
    - [Extract.v]: [FindInterface] (289-295) and [EndpointXtract]
      (297-356) in [Section Extractor] over the hook [SelectInterface];
      [XtractAll] applies the calls the descriptor walker makes.
    - [Walker.v]: the descriptor walker [ConfigDescParser<USB_CLASS_HID,
      0, 0, CP_MASK_COMPARE_CLASS>] the driver hands to [getConfDescr]
      (hidcomposite.cpp:203-207; confdescparser.h is not in src/, so it
      is modelled from the spec and the library): [split_descrs] frames
      the bytes by [bLength], [parse_descr] is [ParseDescriptor] on one
      descriptor over the parser state [WalkState], [walk] the whole
      walk; [encode_config] encodes a structured [ConfigDescr], and
      [hid_calls] is the reference list of calls.
    - [Driver.v]: [Release] (358-366), [Init] (94-287, split at line 182
      into [Init] and [Init_configure], its two loops [conf_loop] and
      [idle_loop], the [goto] labels as [Fail]), [Poll] (373-428, the loop
      [poll_loop] over [poll_iface], the scratch buffer cleared by
      [ZeroMemory], 368-371) and [SndRpt] (431-433), as
      computations over a [World]: the pool, the bus, the object and the
      trace of calls issued.  [Init] and [Poll] take the initial contents [buf0]
      of their stack buffers as an argument: C leaves them indeterminate.
    - [Lifecycle.v]: the public calls as [Op], a step relation [step]
      (one call, or any change of the bus between calls), [reachable]
      worlds from a constructed object, and their invariant.
    - [Scenarios.v]: the executable host with a scripted keyboard; the
      witnesses of the theorems that have hypotheses.

    ** The theorems

    - Enumeration: [Driver.Init_outcome] classifies every run of [Init]
      over any lawful pool and any transport: success with a new address
      and polling on, [DEVICE_NOT_SUPPORTED] with the address kept (no
      rollback, unlike every other failure), or a rollback leaving the
      pool's allocation as it was.  [Driver.conf_loop_scan]: on a device
      whose descriptors are fixed data, the configuration loop is the
      search for the first configuration whose request fails or after
      which more than one endpoint is known, over at most [num_of_conf]
      consecutive configurations.
    - Invariants (by rule induction over [Lifecycle.reachable]):
      [reachable_session_inv] (tables well formed, unique interface keys,
      no polling without an address, the held address allocated),
      [Poll_reads_held_address], [Poll_reads_bounded] (at most
      [maxHidInterfaces] reads per tick); [Extract.XtractAll_invariant]
      over any sequence of walker calls (with every endpoint index below
      [bNumEP] kept when it held before); [Tables.Initialize_spec].
    - What survives [Release]: [Lifecycle.bindings_survive] (the parser
      bindings, over any sequence of calls but [SetReportParser]) and
      [Lifecycle.Release_Init_keeps_interfaces] (every live interface
      entry, through [Release] and the next [Init] of any device: the
      stale interfaces the spec's open question asks about).
    - Refinement: [Registry.SetReportParser_refines],
      [Registry.GetReportParser_refines] relate the slot table to the
      abstract registry [RegistrySpec] through [abs_reg], and
      [Lifecycle.reachable_registry_refines] lifts them to every reachable
      object; [Registry.SetReportParser_GetReportParser] is the round trip.
    - Equivalence of the loops with reference definitions:
      [SetReportParser_first_free], [GetHidClassDescrLen_nth],
      [FindInterface_first_match]; [Driver.Poll_scratch_irrelevant]:
      [Poll] does the same whatever its stack buffer held, since
      [ZeroMemory] clears it before every transfer.
    - Timing: [Poll_idle], [Poll_due_reads], [Poll_rate_limit] (no read
      before [pollInterval] ms have passed), all across the wrap of the
      32-bit clock ([deadline_wraparound]).
    - The descriptor walker: [Walker.walk_encode] (decode after encode:
      the walk of an encoded configuration makes exactly [hid_calls]) and
      [walk_records_hid_only] (walker then extractor: only HID-class
      interfaces with an endpoint are recorded).
    - Functional behaviour: [Release_spec], [EndpointXtract_binds],
      [EndpointXtract_drops], [Poll_zero_length_no_dispatch], and the
      resolution properties of section 8 of the spec
      ([resolve_no_report_id]).

    ** Modelling conventions, bounds and fuel

    - Every [uint8_t], [uint16_t] and [uint32_t] datum is a [Z]; casts are
      written out with [wrap8], [wrap16], [wrap32]; [(int32_t)] is
      [signed32].  Counters and indices ([bNumEP], [bNumIface],
      [epIndex[]]) are [nat]: [wf] proves they stay within
      [totalEndpoints] = 7 and [maxHidInterfaces] = 3, so their [uint8_t]
      increments never wrap.
    - A C function that mutates [this] and calls collaborators is a
      computation of [ST (World P B)]: one event appended to the trace per
      external call.  Early [return]s and the [goto] chain are branches;
      without [DEBUG_USB_HOST] every label falls through to
      [Release(); return rcode;], which is [Fail].
    - Loops are [Fixpoint]s over the number of iterations left, given the
      code's own bound ([MAX_REPORT_PARSERS], [bNumIface],
      [num_of_conf] ...): every definition is structural, total and
      executable, and no fuel is needed (the walker apart, below).

    ** What is not modelled

    - Diagnostic output ([Notify], [USBTRACE]) and the [DEBUG_USB_HOST]
      paths: no effect on state.  [POLLING_OVERRIDE] is not defined in
      the default build.
    - The chunked reading of the descriptor walker: [ConfigDescParser]
      receives the transfer in pieces and resumes its state machine
      between them; [Walker.v] walks the whole stream at once, which the
      spec's contract (one [EndpointXtract] per endpoint descriptor of a
      selected interface) does not distinguish.  The transport's
      [getConfDescr] returns the [EndpointXtract] calls of a walk.
    - Malformed descriptor streams: on a [bLength] below 2 the library
      computes [dscrLen - 2] in unsigned arithmetic and reads on; neither
      the spec nor src/ says what follows, and [split_descrs] stops the
      walk there.  The walker's theorems are about well-framed streams.
    - The walk's fuel: [walk] gives [split_descrs] the stream's length
      as fuel, enough since every descriptor it accepts has at least
      two bytes.
    - The transfer of [Poll] writes at most the 64 bytes of [buf]
      ([store_bytes] truncates): the overflow of a read longer than
      [constBuffLen] (line 394, before the clamp of line 398) is a finding
      of the manifest, not a behaviour of the model.
    - The data toggles and NAK power the transport writes into [epInfo].
    - The bit-field widths of [HIDInterface] (header, not in src/): the
      interface, alternate setting and protocol are full integers.
    - How the USB core offers a new device to the registered drivers
      (Usb.cpp): library code the driver does not contain; only the
      registration call of the constructor ([HIDComposite_ctor]) and the
      core's slot search ([RegisterDeviceClass]) are modelled.
    - The hooks' bodies ([OnInitSuccessful], [ParseHIDData], both empty
      by default) and the report parsers' own code: each call is an
      event of the trace; [SelectInterface] is a parameter of the
      extractor and the driver.
    - Header values (capacities, error codes, hooks' defaults) come from
      the spec and the library's headers, marked spec-modelled. *)

From stdpp Require Export base list decidable.
From Stdlib Require Export ZArith Lia.

(** ** The state monad of the development *)

Declare Scope hid_scope.
Delimit Scope hid_scope with hid.

(** A computation over a state [S]: the state passed explicitly. *)
Definition ST (S A : Type) : Type := S -> A * S.

Definition st_ret {S A} (a : A) : ST S A := fun s => (a, s).
Definition st_bind {S A B} (c : ST S A) (k : A -> ST S B) : ST S B :=
  fun s => let '(a, s') := c s in k a s'.
Definition st_get {S} : ST S S := fun s => (s, s).
Definition st_put {S} (s : S) : ST S unit := fun _ => (tt, s).
Definition st_modify {S} (f : S -> S) : ST S unit := fun s => (tt, f s).

Notation "x <- c ;; k" := (st_bind c (fun x => k))
  (at level 100, c at next level, right associativity) : hid_scope.
Notation "c ;; k" := (st_bind c (fun _ => k))
  (at level 100, right associativity) : hid_scope.

Open Scope hid_scope.

Lemma st_bind_ret_l {S A B} (a : A) (k : A -> ST S B) : st_bind (st_ret a) k = k a.
Proof. reflexivity. Qed.

Lemma st_bind_assoc {S A B C} (c : ST S A) (f : A -> ST S B) (g : B -> ST S C) s :
  st_bind (st_bind c f) g s = st_bind c (fun a => st_bind (f a) g) s.
Proof. unfold st_bind. by destruct (c s). Qed.

Lemma st_bind_run {S A B} (c : ST S A) (k : A -> ST S B) s a s' :
  c s = (a, s') -> st_bind c k s = k a s'.
Proof. unfold st_bind. by intros ->. Qed.

(** The weakest precondition of a computation: [Q] holds of its result
    and final state. *)
Definition wp {S A} (c : ST S A) (Q : A -> S -> Prop) (s : S) : Prop :=
  let '(a, s') := c s in Q a s'.

Lemma wp_ret {S A} (a : A) (Q : A -> S -> Prop) s : Q a s -> wp (st_ret a) Q s.
Proof. done. Qed.

Lemma wp_bind {S A B} (c : ST S A) (k : A -> ST S B) Q s :
  wp c (fun a s' => wp (k a) Q s') s -> wp (st_bind c k) Q s.
Proof. unfold wp, st_bind. by destruct (c s). Qed.

Lemma wp_mono {S A} (c : ST S A) (Q Q' : A -> S -> Prop) s :
  (forall a s', Q a s' -> Q' a s') -> wp c Q s -> wp c Q' s.
Proof. unfold wp. destruct (c s). auto. Qed.

Lemma wp_run {S A} (c : ST S A) Q s a s' : c s = (a, s') -> wp c Q s -> Q a s'.
Proof. unfold wp. by intros ->. Qed.

(** ** Machine-width integers *)

Open Scope Z_scope.

Definition wrap8 (z : Z) : Z := z mod 2 ^ 8.
Definition wrap16 (z : Z) : Z := z mod 2 ^ 16.
Definition wrap32 (z : Z) : Z := z mod 2 ^ 32.
(** [(int32_t)] applied to a [uint32_t]: two's complement reading. *)
Definition signed32 (z : Z) : Z := if z <? 2 ^ 31 then z else z - 2 ^ 32.

(** A C truth test on an integer: [if (x)]. *)
Definition nz (z : Z) : bool := negb (z =? 0).

Lemma wrap8_range z : 0 <= wrap8 z < 2 ^ 8.
Proof. apply Z.mod_pos_bound. lia. Qed.

Lemma wrap32_range z : 0 <= wrap32 z < 2 ^ 32.
Proof. apply Z.mod_pos_bound. lia. Qed.

Lemma wrap8_small z : 0 <= z < 2 ^ 8 -> wrap8 z = z.
Proof. apply Z.mod_small. Qed.

Lemma wrap32_small z : 0 <= z < 2 ^ 32 -> wrap32 z = z.
Proof. apply Z.mod_small. Qed.

Lemma nz_false z : nz z = false <-> z = 0.
Proof. unfold nz. rewrite negb_false_iff. apply Z.eqb_eq. Qed.

Lemma nz_true z : nz z = true <-> z <> 0.
Proof. unfold nz. rewrite negb_true_iff. apply Z.eqb_neq. Qed.

(** ** Byte buffers *)

(** A transfer that writes [data] at the start of the buffer [buf]: the
    bytes past the written prefix keep their old contents, and nothing is
    written past the end of the buffer. *)
Definition store_bytes (buf data : list Z) : list Z :=
  firstn (length buf) (data ++ skipn (length data) buf).

(** [buf[i]] on a byte buffer. *)
Definition byte_at (buf : list Z) (i : nat) : Z := nth i buf 0.

(** A little-endian [uint16_t] field at offset [i]. *)
Definition word_at (buf : list Z) (i : nat) : Z :=
  byte_at buf i + 256 * byte_at buf (S i).

Lemma store_bytes_length buf data : length (store_bytes buf data) = length buf.
Proof.
  unfold store_bytes. rewrite length_firstn, length_app, length_skipn. lia.
Qed.

Lemma store_bytes_written buf data i :
  (i < length data)%nat -> (i < length buf)%nat ->
  byte_at (store_bytes buf data) i = byte_at data i.
Proof.
  intros Hd Hb. unfold byte_at, store_bytes.
  rewrite nth_firstn. destruct (Nat.ltb_spec i (length buf)); [|lia].
  by rewrite app_nth1.
Qed.

Lemma store_bytes_kept buf data i :
  (length data <= i)%nat ->
  byte_at (store_bytes buf data) i = byte_at buf i.
Proof.
  intros Hd. unfold byte_at, store_bytes.
  rewrite nth_firstn. rewrite app_nth2 by lia. rewrite nth_skipn.
  replace (length data + (i - length data))%nat with i by lia.
  destruct (Nat.ltb_spec i (length buf)); [done|].
  by rewrite nth_overflow by lia.
Qed.

(** ** Lists *)

(** One step of [list_find], for the loops that search a table. *)
Lemma list_find_cons_eq {A} (P : A -> Prop) `{!forall x, Decision (P x)} x l :
  list_find P (x :: l) =
  if decide (P x) then Some (0%nat, x) else prod_map S id <$> list_find P l.
Proof. reflexivity. Qed.

(** ** Proof automation *)

Create HintDb hid discriminated.
Create Rewrite HintDb hid_rw.

#[export] Hint Resolve wrap8_range wrap32_range store_bytes_length : hid.
#[export] Hint Rewrite @st_bind_ret_l store_bytes_length : hid_rw.

(** Case analysis on the C truth tests left in the goal. *)
Ltac case_nz :=
  match goal with
  | |- context [nz ?z] =>
      let E := fresh "Hnz" in destruct (nz z) eqn:E;
      [apply nz_true in E | apply nz_false in E]
  end.

(** Reduce one bind whose first computation has been run to a known result. *)
Ltac run_bind H :=
  rewrite (st_bind_run _ _ _ _ _ H).
