(* ===== verification/UsbHost.v ===== *)
(** * The collaborators of the driver: address pool and USB transport

    The driver calls code that is not in src/: the address pool
    ([AddressPool] of address.h), the transport ([USB] of Usb.cpp) and the
    constants of UsbCore.h, usbhid.h and max3421e.h.  This file fixes the
    data they exchange with the driver ([EpInfo], [UsbDevice], the
    endpoint descriptor, the calls of the descriptor walker), the
    constants, and the two interfaces: [AddressPool] with the laws
    [AddressPoolLaws] the driver's theorems rely on, and [UsbTransport],
    which has no law (the device and the bus may answer anything).
    The events of [Event] are the calls the driver issues; the driver
    model records them, in order, in its trace.  The USB core's table of
    class drivers ([DevConfig], [RegisterDeviceClass] of Usb.h) is the
    one piece of the core's own state the driver writes, from its
    constructor. *)

From S2P Require Import Prelude.

Open Scope Z_scope.

(** ** Constants of the headers (UsbCore.h, max3421e.h, usbhid.h) *)

Definition USB_NAK_MAX_POWER : Z := 15.
Definition USB_NAK_NOWAIT : Z := 1.

Definition hrNAK : Z := 4.
Definition hrSTALL : Z := 5.

Definition USB_DEV_CONFIG_ERROR_DEVICE_NOT_SUPPORTED : Z := 209.
Definition USB_ERROR_OUT_OF_ADDRESS_SPACE_IN_POOL : Z := 212.
Definition USB_ERROR_ADDRESS_NOT_FOUND_IN_POOL : Z := 214.
Definition USB_ERROR_EPINFO_IS_NULL : Z := 215.
Definition USB_ERROR_CLASS_INSTANCE_ALREADY_IN_USE : Z := 217.

Definition bmUSB_TRANSFER_TYPE : Z := 3.
Definition USB_TRANSFER_TYPE_INTERRUPT : Z := 3.

(** ** Data exchanged with the collaborators *)

(** [struct EpInfo] (address.h): one endpoint record of an endpoint
    table; the three bit fields are kept as separate integers. *)
Record EpInfo := mkEpInfo {
  epAddr : Z;
  maxPktSize : Z;
  bmSndToggle : Z;
  bmRcvToggle : Z;
  bmNakPower : Z
}.

#[export] Instance EpInfo_inhabited : Inhabited EpInfo :=
  populate (mkEpInfo 0 0 0 0 0).

(** The endpoint table a device record of the pool points to: this
    driver's [epInfo] array, or the table of someone else (the pool's own
    [dev0ep], another driver's array), told apart by an identity. *)
Inductive EpTable := OwnEpInfo | OtherEpInfo (id : nat).

#[export] Instance EpTable_eq_dec : EqDecision EpTable.
Proof. solve_decision. Defined.

(** [struct UsbDevice] (address.h): an entry of the address pool. *)
Record UsbDevice := mkUsbDevice {
  epinfo : option EpTable;   (* [None] is a NULL [epinfo] *)
  devAddress : Z;
  epcount : nat;
  lowspeed : bool
}.

Definition set_epinfo (e : option EpTable) (p : UsbDevice) : UsbDevice :=
  mkUsbDevice e (devAddress p) (epcount p) (lowspeed p).
Definition set_lowspeed (b : bool) (p : UsbDevice) : UsbDevice :=
  mkUsbDevice (epinfo p) (devAddress p) (epcount p) b.

(** [USB_ENDPOINT_DESCRIPTOR] (usb_ch9.h), already parsed by the walker. *)
Record USB_ENDPOINT_DESCRIPTOR := mkEpDescr {
  bEndpointAddress : Z;
  bmAttributes : Z;
  wMaxPacketSize : Z;
  bInterval : Z
}.

(** One call [EndpointXtract(conf, iface, alt, proto, pep)] made by the
    configuration descriptor walker. *)
Record XtractCall := mkXtract {
  xc_conf : Z;
  xc_iface : Z;
  xc_alt : Z;
  xc_proto : Z;
  xc_ep : USB_ENDPOINT_DESCRIPTOR
}.

(** Offsets of the fields of [USB_DEVICE_DESCRIPTOR] (usb_ch9.h) in the
    18-byte buffer [Init] reads it into. *)
Definition constBufSize : Z := 18.
Definition udd_bLength : nat := 0.
Definition udd_bMaxPacketSize0 : nat := 7.
Definition udd_idVendor : nat := 8.
Definition udd_idProduct : nat := 10.
Definition udd_bNumConfigurations : nat := 17.

(** A parser strategy ([HIDReportParser *]) is known by its identity;
    the registry holds an [option ParserRef], [None] being NULL. *)
Definition ParserRef := nat.

(** ** The address pool *)

Class AddressPool (P : Type) := {
  GetUsbDevicePtr : P -> Z -> option UsbDevice;
  (** a write through the pointer [GetUsbDevicePtr] returned *)
  SetUsbDevice : Z -> UsbDevice -> P -> P;
  AllocAddress : Z -> bool -> Z -> P -> Z * P;
  FreeAddress : Z -> P -> P;
  (** the abstract view of the pool: which addresses are handed out *)
  addr_in_use : P -> Z -> bool
}.

Class AddressPoolLaws (P : Type) `{AddressPool P} := {
  alloc_fail : forall parent hub port p p',
    AllocAddress parent hub port p = (0, p') -> p' = p;
  alloc_fresh : forall parent hub port p a p',
    AllocAddress parent hub port p = (a, p') -> a <> 0 ->
    addr_in_use p a = false /\
    (forall b, addr_in_use p' b = (b =? a) || addr_in_use p b);
  alloc_get : forall parent hub port p a p',
    AllocAddress parent hub port p = (a, p') -> a <> 0 ->
    GetUsbDevicePtr p' a <> None;
  free_in_use : forall a p b,
    addr_in_use (FreeAddress a p) b = addr_in_use p b && negb (b =? a);
  set_in_use : forall a d p b,
    addr_in_use (SetUsbDevice a d p) b = addr_in_use p b;
  get_set_same : forall a d p,
    GetUsbDevicePtr p a <> None -> GetUsbDevicePtr (SetUsbDevice a d p) a = Some d;
  get_set_other : forall a b d p,
    a <> b -> GetUsbDevicePtr (SetUsbDevice a d p) b = GetUsbDevicePtr p b;
  in_use_0 : forall p, addr_in_use p 0 = false
}.

(** ** The USB transport

    Each operation returns the transport's result code ([0] is success)
    with what it read, and the new state of the bus.  [getConfDescr]
    returns the [EndpointXtract] calls its descriptor walker made before
    it finished or failed. *)
Class UsbTransport (B : Type) := {
  getDevDescr : Z -> Z -> Z -> B -> (Z * list Z) * B;
  setAddr : Z -> Z -> Z -> B -> Z * B;
  getConfDescr : Z -> Z -> Z -> B -> (Z * list XtractCall) * B;
  setConf : Z -> Z -> Z -> B -> Z * B;
  (** [USBHID::SetIdle], a class control request on the device *)
  SetIdleReq : Z -> Z -> Z -> Z -> B -> Z * B;
  (** result code, the new value of the in/out length, the bytes read *)
  inTransfer : Z -> Z -> Z -> B -> (Z * Z * list Z) * B;
  outTransfer : Z -> Z -> Z -> list Z -> B -> Z * B;
  millis : B -> Z * B
}.

(** ** The USB core's table of drivers (Usb.h, UsbCore.h)

    The constructor of every class driver registers the object with the
    USB core, which offers each new device to the registered drivers in
    turn. *)

Definition USB_NUMDEVICES : nat := 16.
Definition USB_ERROR_UNABLE_TO_REGISTER_DEVICE_CLASS : Z := 211.

(** [USBDeviceConfig *devConfig[USB_NUMDEVICES]]: each slot NULL or the
    address of a registered driver object. *)
Definition DevConfig := list (option Z).

(** [USB::RegisterDeviceClass(pdev)], its loop from slot [i] with [k]
    iterations left: the first NULL slot receives [pdev]. *)
Fixpoint RegisterDeviceClass_loop (k i : nat) (pdev : Z) (t : DevConfig) : Z * DevConfig :=
  match k with
  | O => (USB_ERROR_UNABLE_TO_REGISTER_DEVICE_CLASS, t)
  | S k' =>
      if bool_decide (t !!! i = None) then (0, <[i := Some pdev]> t)
      else RegisterDeviceClass_loop k' (S i) pdev t
  end.

Definition RegisterDeviceClass (pdev : Z) (t : DevConfig) : Z * DevConfig :=
  RegisterDeviceClass_loop USB_NUMDEVICES 0 pdev t.

(** ** The calls the driver issues, in the order it issues them *)
Inductive Event :=
| EvGetDevDescr (addr ep nbytes : Z)
| EvSetAddr (oldaddr ep newaddr : Z)
| EvGetConfDescr (addr ep conf : Z)
| EvSetConf (addr ep conf : Z)
| EvSetIdle (addr iface reportID duration : Z)
| EvInTransfer (addr ep nbytes : Z)
| EvOutTransfer (addr ep nbytes : Z)
| EvMillis
| EvParseHIDData (ep : Z) (is_rpt_id : bool) (len : Z) (buf : list Z)
| EvParse (prs : ParserRef) (is_rpt_id : bool) (len : Z) (buf : list Z)
| EvOnInitSuccessful.

(** The read requests of a trace. *)
Definition is_in_transfer (e : Event) : bool :=
  match e with EvInTransfer _ _ _ => true | _ => false end.

Definition is_parse (e : Event) : bool :=
  match e with EvParse _ _ _ _ => true | _ => false end.

(** ** Registration: the loop is a search for the first free slot *)

Lemma RegisterDeviceClass_loop_ref k i pdev t :
  (i + k = length t)%nat ->
  RegisterDeviceClass_loop k i pdev t =
  match list_find (fun e => e = None) (drop i t) with
  | Some (j, _) => (0, <[(i + j)%nat := Some pdev]> t)
  | None => (USB_ERROR_UNABLE_TO_REGISTER_DEVICE_CLASS, t)
  end.
Proof.
  revert i. induction k as [|k IH]; intros i Hk; simpl.
  - by rewrite drop_ge by lia.
  - assert (Hl : t !! i = Some (t !!! i)) by (apply list_lookup_lookup_total_lt; lia).
    rewrite (drop_S _ _ _ Hl), list_find_cons_eq.
    case_bool_decide as Hf.
    + rewrite decide_True by done. by rewrite Nat.add_0_r.
    + rewrite decide_False by done. rewrite IH by lia.
      destruct (list_find _ _) as [[j x]|]; simpl; [by rewrite Nat.add_succ_r|done].
Qed.

Lemma RegisterDeviceClass_ref pdev t :
  length t = USB_NUMDEVICES ->
  RegisterDeviceClass pdev t =
  match list_find (fun e => e = None) t with
  | Some (j, _) => (0, <[j := Some pdev]> t)
  | None => (USB_ERROR_UNABLE_TO_REGISTER_DEVICE_CLASS, t)
  end.
Proof.
  intros Hl. unfold RegisterDeviceClass. by rewrite RegisterDeviceClass_loop_ref, drop_0 by lia.
Qed.
