(* ===== verification/MockHost.v ===== *)
(** * A concrete host: an address pool and a scripted device

    An executable implementation of the two collaborator interfaces of
    [UsbHost.v], used to run the driver model on concrete devices.

    - [MockPool]: the pool entries as a [gmap] from addresses to
      [UsbDevice] records; the entry of address 0 (the pseudo-device of
      a device being enumerated) is never freed; [AllocAddress] hands out
      the lowest free address among 1..127 (address.h's pool also hands
      out the first free entry); it satisfies [AddressPoolLaws].
    - [MockBus]: a device described by its descriptors and a script of
      answers: the result code of each kind of request, the endpoint
      calls its configuration descriptors make the walker issue, the
      queue of answers to interrupt-IN reads, and the clock. *)

From stdpp Require Import gmap.
From S2P Require Import Prelude UsbHost.

Open Scope Z_scope.

(** ** The pool *)

Record MockPool := mkMockPool { mp_devs : gmap Z UsbDevice }.

Definition mp_first_free (p : MockPool) : Z :=
  default 0 (List.find (fun a => bool_decide (mp_devs p !! a = None))
                       (map Z.of_nat (seq 1 127))).

#[export] Instance MockPool_AddressPool : AddressPool MockPool := {
  GetUsbDevicePtr p a := mp_devs p !! a;
  SetUsbDevice a dev p :=
    match mp_devs p !! a with
    | Some _ => mkMockPool (<[a := dev]> (mp_devs p))
    | None => p
    end;
  AllocAddress parent hub port p :=
    let a := mp_first_free p in
    if a =? 0 then (0, p)
    else (a, mkMockPool (<[a := mkUsbDevice None a 0 false]> (mp_devs p)));
  FreeAddress a p := if a =? 0 then p else mkMockPool (delete a (mp_devs p));
  addr_in_use p a := negb (a =? 0) && bool_decide (is_Some (mp_devs p !! a))
}.

Lemma mp_first_free_spec p :
  mp_first_free p = 0 \/ (mp_first_free p <> 0 /\ mp_devs p !! mp_first_free p = None).
Proof.
  unfold mp_first_free.
  destruct (List.find _ _) as [a|] eqn:Hf; simpl; [|by left].
  apply find_some in Hf as [Hin Hnone]. apply bool_decide_eq_true in Hnone.
  apply in_map_iff in Hin as (n & <- & Hn). apply in_seq in Hn.
  right. split; [lia|done].
Qed.

#[export] Instance MockPool_laws : AddressPoolLaws MockPool.
Proof.
  constructor; simpl.
  - intros parent hub port p p'. destruct (Z.eqb_spec (mp_first_free p) 0); [by intros [= <-]|].
    intros [= Ha _]. done.
  - intros parent hub port p a p'.
    destruct (Z.eqb_spec (mp_first_free p) 0) as [He|He]; [by intros [= <- _]|].
    intros [= <- <-] _. destruct (mp_first_free_spec p) as [|[_ Hn]]; [done|].
    split.
    + rewrite Hn. destruct (_ =? 0); reflexivity.
    + intros b. simpl. destruct (Z.eqb_spec b (mp_first_free p)) as [->|Hb].
      * rewrite lookup_insert_eq. apply Z.eqb_neq in He. by rewrite He.
      * rewrite lookup_insert_ne by congruence. done.
  - intros parent hub port p a p'.
    destruct (Z.eqb_spec (mp_first_free p) 0); [by intros [= <- _]|].
    intros [= <- <-] _. simpl. by rewrite lookup_insert_eq.
  - intros a p b. destruct (Z.eqb_spec a 0) as [->|Ha]; simpl.
    + destruct (Z.eqb_spec b 0); simpl; [done|by rewrite andb_true_r].
    + destruct (Z.eqb_spec b a) as [->|Hb]; simpl.
      * rewrite lookup_delete_eq, !andb_false_r. done.
      * rewrite lookup_delete_ne by congruence. by rewrite andb_true_r.
  - intros a dev p b. destruct (mp_devs p !! a) eqn:Ha; [|done]. simpl.
    destruct (decide (a = b)) as [->|Hab].
    + by rewrite lookup_insert_eq, Ha.
    + by rewrite lookup_insert_ne.
  - intros a dev p Hp. destruct (mp_devs p !! a) eqn:Ha; [|done]. simpl.
    by rewrite lookup_insert_eq.
  - intros a b dev p Hab. destruct (mp_devs p !! a); [|done]. simpl.
    by rewrite lookup_insert_ne.
  - intros p. done.
Qed.

(** A pool with only the pseudo-device of address 0, as [AddressPool]'s
    constructor leaves it; its endpoint table is the pool's own. *)
Definition mock_pool_init : MockPool :=
  mkMockPool {[0 := mkUsbDevice (Some (OtherEpInfo 0)) 0 1 false]}.

(** ** The bus *)

Record MockBus := mkMockBus {
  mb_descr : list Z;                    (* the 18-byte device descriptor *)
  mb_rc_descr : Z;                      (* result of descriptor requests *)
  mb_rc_setAddr : Z;
  mb_configs : list (list XtractCall);  (* walker calls, per configuration *)
  mb_rc_conf : Z;
  mb_rc_setConf : Z;
  mb_rc_idle : Z;
  mb_reports : list (Z * list Z);       (* answers to interrupt-IN reads *)
  mb_clock : Z
}.

Definition mb_pop (b : MockBus) : MockBus :=
  mkMockBus (mb_descr b) (mb_rc_descr b) (mb_rc_setAddr b) (mb_configs b) (mb_rc_conf b)
            (mb_rc_setConf b) (mb_rc_idle b) (tail (mb_reports b)) (mb_clock b).

(** The device's clock moved to [t]. *)
Definition mb_at (t : Z) (b : MockBus) : MockBus :=
  mkMockBus (mb_descr b) (mb_rc_descr b) (mb_rc_setAddr b) (mb_configs b) (mb_rc_conf b)
            (mb_rc_setConf b) (mb_rc_idle b) (mb_reports b) t.

#[export] Instance MockBus_UsbTransport : UsbTransport MockBus := {
  getDevDescr a ep n b := ((mb_rc_descr b, take (Z.to_nat n) (mb_descr b)), b);
  setAddr a ep newa b := (mb_rc_setAddr b, b);
  getConfDescr a ep i b := ((mb_rc_conf b, nth (Z.to_nat i) (mb_configs b) []), b);
  setConf a ep c b := (mb_rc_setConf b, b);
  SetIdleReq a iface rid dur b := (mb_rc_idle b, b);
  inTransfer a ep n b :=
    match mb_reports b with
    | (rc, data) :: _ => ((rc, Z.of_nat (length data), data), mb_pop b)
    | [] => ((hrNAK, n, []), b)
    end;
  outTransfer a ep n data b := (0, b);
  millis b := (mb_clock b, b)
}.
