(* ===== verification/Tables.v ===== *)
(** * The capacity tables: the state of a [HIDComposite] object

    The driver object of hidcomposite.h, its constructor
    (hidcomposite.cpp:20-30, with its registration in the USB core's
    table of drivers) and [Initialize] (hidcomposite.cpp:43-70),
    and the well-formedness invariant [wf] of its tables: every table has
    its declared size, the counters stay within the capacities, slot 0 of
    [epInfo] is the control endpoint and every endpoint index an
    interface holds designates a slot of [epInfo]. *)

From S2P Require Import Prelude UsbHost.

Open Scope Z_scope.

(** ** Capacities (usbhid.h, usbhid.h's [HID_MAX_HID_CLASS_DESCRIPTORS]) *)

Definition MAX_REPORT_PARSERS : nat := 2.
Definition HID_MAX_HID_CLASS_DESCRIPTORS : nat := 5.
Definition maxHidInterfaces : nat := 3.
Definition maxEpPerInterface : nat := 2.
Definition totalEndpoints : nat := maxHidInterfaces * maxEpPerInterface + 1.
Definition epInterruptInIndex : nat := 1.
Definition epInterruptOutIndex : nat := 2.
(** [constBuffLen], the size of [Poll]'s scratch buffer *)
Definition constBuffLen : Z := 64.

(** ** The tables' entries *)

(** [struct ReportParser] of hidcomposite.h *)
Record ReportParser := mkReportParser {
  rptId : Z;
  rptParser : option ParserRef
}.

(** [HID_CLASS_DESCRIPTOR_LEN_AND_TYPE] of usbhid.h *)
Record DescrInfo := mkDescrInfo {
  bDescrType : Z;
  wDescriptorLength : Z
}.

(** [struct HIDInterface] of hidcomposite.h: [epIndex] has
    [maxEpPerInterface + 1] entries, indexed by the roles
    [epInterruptInIndex] and [epInterruptOutIndex]. *)
Record HIDInterface := mkHIDInterface {
  bmInterface : Z;
  bmAltSet : Z;
  bmProtocol : Z;
  epIndex : list nat
}.

#[export] Instance ReportParser_inhabited : Inhabited ReportParser :=
  populate (mkReportParser 0 None).
#[export] Instance DescrInfo_inhabited : Inhabited DescrInfo :=
  populate (mkDescrInfo 0 0).
#[export] Instance HIDInterface_inhabited : Inhabited HIDInterface :=
  populate (mkHIDInterface 0 0 0 []).

(** ** The driver object *)

Record HIDComposite := mkHID {
  rptParsers : list ReportParser;
  descrInfo : list DescrInfo;
  hidInterfaces : list HIDInterface;
  epInfo : list EpInfo;
  bConfNum : Z;
  bNumIface : nat;
  bNumEP : nat;
  qNextPollTime : Z;
  pollInterval : Z;
  bPollEnable : bool;
  bHasReportId : bool;
  bAddress : Z;
  VID : Z;
  PID : Z
}.

(** Field assignments [this->f = v]. *)
Definition set_rptParsers v d := mkHID v (descrInfo d) (hidInterfaces d) (epInfo d)
  (bConfNum d) (bNumIface d) (bNumEP d) (qNextPollTime d) (pollInterval d)
  (bPollEnable d) (bHasReportId d) (bAddress d) (VID d) (PID d).
Definition set_hidInterfaces v d := mkHID (rptParsers d) (descrInfo d) v (epInfo d)
  (bConfNum d) (bNumIface d) (bNumEP d) (qNextPollTime d) (pollInterval d)
  (bPollEnable d) (bHasReportId d) (bAddress d) (VID d) (PID d).
Definition set_epInfo v d := mkHID (rptParsers d) (descrInfo d) (hidInterfaces d) v
  (bConfNum d) (bNumIface d) (bNumEP d) (qNextPollTime d) (pollInterval d)
  (bPollEnable d) (bHasReportId d) (bAddress d) (VID d) (PID d).
Definition set_bConfNum v d := mkHID (rptParsers d) (descrInfo d) (hidInterfaces d)
  (epInfo d) v (bNumIface d) (bNumEP d) (qNextPollTime d) (pollInterval d)
  (bPollEnable d) (bHasReportId d) (bAddress d) (VID d) (PID d).
Definition set_bNumIface v d := mkHID (rptParsers d) (descrInfo d) (hidInterfaces d)
  (epInfo d) (bConfNum d) v (bNumEP d) (qNextPollTime d) (pollInterval d)
  (bPollEnable d) (bHasReportId d) (bAddress d) (VID d) (PID d).
Definition set_bNumEP v d := mkHID (rptParsers d) (descrInfo d) (hidInterfaces d)
  (epInfo d) (bConfNum d) (bNumIface d) v (qNextPollTime d) (pollInterval d)
  (bPollEnable d) (bHasReportId d) (bAddress d) (VID d) (PID d).
Definition set_qNextPollTime v d := mkHID (rptParsers d) (descrInfo d) (hidInterfaces d)
  (epInfo d) (bConfNum d) (bNumIface d) (bNumEP d) v (pollInterval d)
  (bPollEnable d) (bHasReportId d) (bAddress d) (VID d) (PID d).
Definition set_pollInterval v d := mkHID (rptParsers d) (descrInfo d) (hidInterfaces d)
  (epInfo d) (bConfNum d) (bNumIface d) (bNumEP d) (qNextPollTime d) v
  (bPollEnable d) (bHasReportId d) (bAddress d) (VID d) (PID d).
Definition set_bPollEnable v d := mkHID (rptParsers d) (descrInfo d) (hidInterfaces d)
  (epInfo d) (bConfNum d) (bNumIface d) (bNumEP d) (qNextPollTime d) (pollInterval d)
  v (bHasReportId d) (bAddress d) (VID d) (PID d).
Definition set_bAddress v d := mkHID (rptParsers d) (descrInfo d) (hidInterfaces d)
  (epInfo d) (bConfNum d) (bNumIface d) (bNumEP d) (qNextPollTime d) (pollInterval d)
  (bPollEnable d) (bHasReportId d) v (VID d) (PID d).
Definition set_bHasReportId v d := mkHID (rptParsers d) (descrInfo d) (hidInterfaces d)
  (epInfo d) (bConfNum d) (bNumIface d) (bNumEP d) (qNextPollTime d) (pollInterval d)
  (bPollEnable d) v (bAddress d) (VID d) (PID d).
Definition set_VID_PID vid pid d := mkHID (rptParsers d) (descrInfo d) (hidInterfaces d)
  (epInfo d) (bConfNum d) (bNumIface d) (bNumEP d) (qNextPollTime d) (pollInterval d)
  (bPollEnable d) (bHasReportId d) (bAddress d) vid pid.

(** ** [Initialize()] (hidcomposite.cpp:43-70)

    Each loop sets every slot of one array, so it is a map over the
    array.  The loop over [epIndex] stops at [maxEpPerInterface]: the
    last entry (the interrupt-OUT role) is not cleared, and [bmAltSet]
    is not cleared either. *)

Definition clear_iface (hi : HIDInterface) : HIDInterface :=
  mkHIDInterface 0 (bmAltSet hi) 0
    (imap (fun j x => if bool_decide (j < maxEpPerInterface)%nat then 0%nat else x)
          (epIndex hi)).

Definition init_epinfo (i : nat) (_ : EpInfo) : EpInfo :=
  mkEpInfo 0 (if bool_decide (i = 0%nat) then 8 else 0) 0 0
    (if bool_decide (i = 0%nat) then USB_NAK_MAX_POWER else USB_NAK_NOWAIT).

Definition Initialize (d : HIDComposite) : HIDComposite :=
  mkHID (map (fun _ => mkReportParser 0 None) (rptParsers d))
        (map (fun _ => mkDescrInfo 0 0) (descrInfo d))
        (map clear_iface (hidInterfaces d))
        (imap init_epinfo (epInfo d))
        0 0 1 (qNextPollTime d) 0 (bPollEnable d) (bHasReportId d)
        (bAddress d) (VID d) (PID d).

(** The object before its constructor body runs: arrays of the declared
    sizes, zero-filled as the storage of a global object is. *)
Definition zero_object : HIDComposite :=
  mkHID (replicate MAX_REPORT_PARSERS (mkReportParser 0 None))
        (replicate HID_MAX_HID_CLASS_DESCRIPTORS (mkDescrInfo 0 0))
        (replicate maxHidInterfaces
           (mkHIDInterface 0 0 0 (replicate (S maxEpPerInterface) 0%nat)))
        (replicate totalEndpoints (mkEpInfo 0 0 0 0 0))
        0 0 0 0 0 false false 0 0 0.

(** The constructor [HIDComposite(USB *p)]: the member initialisers
    [qNextPollTime(0), pollInterval(0), bPollEnable(false),
    bHasReportId(false)], then [Initialize()] (lines 20-26): the state
    of the new object. *)
Definition HIDComposite_new : HIDComposite :=
  Initialize (set_bPollEnable false (set_pollInterval 0
    (set_qNextPollTime 0 zero_object))).

(** The whole constructor, with [if(pUsb) pUsb->RegisterDeviceClass(this);]
    (lines 27-28): [this] is the object's address, [pUsb] the USB core's
    driver table or NULL; the result of the registration is dropped. *)
Definition HIDComposite_ctor (this : Z) (pUsb : option DevConfig)
    : HIDComposite * option DevConfig :=
  (HIDComposite_new,
   match pUsb with
   | Some t => Some (snd (RegisterDeviceClass this t))
   | None => None
   end).

(** ** The well-formedness invariant of the tables *)

Definition iface_wf (hi : HIDInterface) : Prop :=
  length (epIndex hi) = S maxEpPerInterface /\
  Forall (fun k => k < totalEndpoints)%nat (epIndex hi).

Record wf (d : HIDComposite) : Prop := {
  wf_rptParsers : length (rptParsers d) = MAX_REPORT_PARSERS;
  wf_descrInfo : length (descrInfo d) = HID_MAX_HID_CLASS_DESCRIPTORS;
  wf_ifaces_len : length (hidInterfaces d) = maxHidInterfaces;
  wf_ifaces : Forall iface_wf (hidInterfaces d);
  wf_epInfo_len : length (epInfo d) = totalEndpoints;
  wf_control : epAddr (epInfo d !!! 0%nat) = 0;
  wf_bNumEP : (1 <= bNumEP d <= totalEndpoints)%nat;
  wf_bNumIface : (bNumIface d <= maxHidInterfaces)%nat
}.

#[export] Hint Constructors wf : hid.

(** ** Lemmas on the tables *)

Lemma clear_iface_wf hi : iface_wf hi -> iface_wf (clear_iface hi).
Proof.
  intros [Hlen Hall]. split; simpl; [by rewrite length_imap|].
  apply Forall_lookup. intros j k Hj.
  rewrite list_lookup_imap in Hj.
  destruct (epIndex hi !! j) as [x|] eqn:Ex; simpl in Hj; [|done].
  injection Hj as <-. destruct (bool_decide _); [unfold totalEndpoints; simpl; lia|].
  exact (proj1 (Forall_lookup _ _) Hall _ _ Ex).
Qed.

Lemma init_epinfo_control (l : list EpInfo) :
  (0 < length l)%nat -> epAddr (imap init_epinfo l !!! 0%nat) = 0.
Proof. destruct l; simpl; [lia|done]. Qed.

(** Initialize keeps the sizes of the tables and the invariant. *)
Lemma Initialize_wf d : wf d -> wf (Initialize d).
Proof.
  intros [Hr Hd Hl Hi He Hc Hep Hif]. constructor; simpl.
  - by rewrite length_map.
  - by rewrite length_map.
  - by rewrite length_map.
  - apply Forall_fmap. eapply Forall_impl; [|exact Hi]. intros ??. by apply clear_iface_wf.
  - by rewrite length_imap.
  - apply init_epinfo_control. rewrite He. unfold totalEndpoints. simpl. lia.
  - unfold totalEndpoints. simpl. lia.
  - lia.
Qed.

(** The constructed object is well formed: its tables have their
    declared sizes, one endpoint (the control endpoint) is counted and no
    interface is. *)
Lemma HIDComposite_new_wf : wf HIDComposite_new.
Proof.
  split; vm_compute; try reflexivity; unfold iface_wf, totalEndpoints; cbn;
    repeat (lia || constructor).
Qed.

(** An update that leaves the tables and the counters alone keeps [wf]. *)
Lemma wf_same_tables d d' :
  wf d ->
  rptParsers d' = rptParsers d -> descrInfo d' = descrInfo d ->
  hidInterfaces d' = hidInterfaces d -> epInfo d' = epInfo d ->
  bNumEP d' = bNumEP d -> bNumIface d' = bNumIface d -> wf d'.
Proof.
  intros [] H1 H2 H3 H4 H5 H6. constructor; by rewrite ?H1, ?H2, ?H3, ?H4, ?H5, ?H6.
Qed.

Ltac wf_scalar := eapply wf_same_tables; [eassumption|reflexivity..].

Lemma wf_iface_at d i :
  wf d -> (i < maxHidInterfaces)%nat -> iface_wf (hidInterfaces d !!! i).
Proof.
  intros Hwf Hi. eapply Forall_lookup_1; [apply (wf_ifaces _ Hwf)|].
  apply list_lookup_lookup_total_lt. rewrite (wf_ifaces_len _ Hwf). done.
Qed.

Lemma wf_set_bNumEP d n :
  wf d -> (1 <= n <= totalEndpoints)%nat -> wf (set_bNumEP n d).
Proof. intros [] Hn. by constructor. Qed.

Lemma lookup_total_map {A C} `{Inhabited A, Inhabited C} (f : A -> C) l i :
  (i < length l)%nat -> map f l !!! i = f (l !!! i).
Proof.
  revert i. induction l as [|x l IH]; intros [|i] Hi; simpl in *; [lia|lia|done|].
  apply IH. lia.
Qed.

Lemma lookup_total_imap {A C} `{Inhabited A, Inhabited C} (f : nat -> A -> C) l i :
  (i < length l)%nat -> imap f l !!! i = f i (l !!! i).
Proof.
  revert f i. induction l as [|x l IH]; intros f [|i] Hi; simpl in *; [lia|lia|done|].
  rewrite IH by lia. done.
Qed.

(** C19: [Initialize] turns an object with tables of the declared sizes into
    a well-formed object with every parser slot free, one endpoint (the
    control endpoint) and no interface counted, and the interrupt-IN role
    of every interface unbound; it leaves [bmAltSet] and the
    interrupt-OUT role entry [epIndex[epInterruptOutIndex]] of every
    interface as they were, since its loop over [epIndex] stops at
    [maxEpPerInterface] (lines 52-58). *)
Theorem Initialize_spec d :
  wf d ->
  let d' := Initialize d in
  wf d' /\ Forall (fun e => e = mkReportParser 0 None) (rptParsers d') /\
  bNumEP d' = 1%nat /\ bNumIface d' = 0%nat /\
  (forall i, (i < maxHidInterfaces)%nat ->
     epIndex (hidInterfaces d' !!! i) !!! epInterruptInIndex = 0%nat /\
     bmAltSet (hidInterfaces d' !!! i) = bmAltSet (hidInterfaces d !!! i) /\
     epIndex (hidInterfaces d' !!! i) !!! epInterruptOutIndex =
       epIndex (hidInterfaces d !!! i) !!! epInterruptOutIndex).
Proof.
  intros Hwf. simpl. split_and!; [by apply Initialize_wf| |done|done|].
  - apply Forall_forall. intros e. rewrite in_map_iff. by intros (? & <- & _).
  - intros i Hi. pose proof (wf_iface_at d i Hwf Hi) as [Hlen _].
    rewrite lookup_total_map by (rewrite (wf_ifaces_len _ Hwf); done). simpl.
    rewrite !lookup_total_imap by (rewrite Hlen; unfold maxEpPerInterface, epInterruptInIndex, epInterruptOutIndex; lia).
    by split_and!.
Qed.

(** An object whose interface 0 carries an alternate setting and a bound
    interrupt-OUT role. *)
Definition used_object : HIDComposite :=
  set_hidInterfaces (<[0%nat := mkHIDInterface 1 2 1 [0; 1; 2]%nat]> (hidInterfaces HIDComposite_new))
    HIDComposite_new.

Lemma Initialize_spec_witness :
  wf used_object /\
  (let d' := Initialize used_object in
   wf d' /\ Forall (fun e => e = mkReportParser 0 None) (rptParsers d') /\
   bNumEP d' = 1%nat /\ bNumIface d' = 0%nat /\
   (forall i, (i < maxHidInterfaces)%nat ->
      epIndex (hidInterfaces d' !!! i) !!! epInterruptInIndex = 0%nat /\
      bmAltSet (hidInterfaces d' !!! i) = bmAltSet (hidInterfaces used_object !!! i) /\
      epIndex (hidInterfaces d' !!! i) !!! epInterruptOutIndex =
        epIndex (hidInterfaces used_object !!! i) !!! epInterruptOutIndex)).
Proof.
  assert (Hwf : wf used_object).
  { split; vm_compute; try reflexivity; unfold iface_wf, totalEndpoints; cbn;
      repeat (lia || constructor). }
  split; [exact Hwf|]. apply (Initialize_spec used_object Hwf).
Defined.
