(* ===== verification/Registry.v ===== *)
(** * The report parser registry

    [SetReportParser], [GetReportParser] and [GetHidClassDescrLen]
    (hidcomposite.cpp:32-41 and 72-92): linear scans of the fixed tables
    [rptParsers] and [descrInfo].  Each loop is a [Fixpoint] over the
    iterations left, carrying the index [i] of the C loop; a reference
    definition by recursion on the list ([set_first_empty],
    [find_parser]) states what the scan computes.

    [Module RegistrySpec] is the abstract registry the spec describes: a
    list of at most [MAX_REPORT_PARSERS] bindings, in registration order.
    The refinement theorems show that the slot table, under the invariant
    [prefix_filled] (the registered slots come before the empty ones),
    implements it. *)

From S2P Require Import Prelude UsbHost Tables.

Open Scope Z_scope.

(** ** The code *)

(** [rptParsers[i].rptId == 0 && rptParsers[i].rptParser == NULL] *)
Definition slot_empty (e : ReportParser) : bool :=
  (rptId e =? 0) && bool_decide (rptParser e = None).

(** The loop of [SetReportParser] (lines 73-79), from index [i] with
    [k] iterations left. *)
Fixpoint SetReportParser_loop (k i : nat) (id : Z) (prs : option ParserRef)
    (rp : list ReportParser) : bool * list ReportParser :=
  match k with
  | O => (false, rp)
  | S k' =>
      if slot_empty (rp !!! i)
      then (true, <[i := mkReportParser id prs]> rp)
      else SetReportParser_loop k' (S i) id prs rp
  end.

(** [bool SetReportParser(uint8_t id, HIDReportParser *prs)] *)
Definition SetReportParser (id : Z) (prs : option ParserRef) (d : HIDComposite)
    : bool * HIDComposite :=
  let '(r, rp) := SetReportParser_loop MAX_REPORT_PARSERS 0 id prs (rptParsers d) in
  (r, set_rptParsers rp d).

(** The loop of [GetReportParser] (lines 87-90). *)
Fixpoint GetReportParser_loop (k i : nat) (id : Z) (rp : list ReportParser)
    : option ParserRef :=
  match k with
  | O => None
  | S k' =>
      if rptId (rp !!! i) =? id then rptParser (rp !!! i)
      else GetReportParser_loop k' (S i) id rp
  end.

(** [HIDReportParser* GetReportParser(uint8_t id)] *)
Definition GetReportParser (id : Z) (d : HIDComposite) : option ParserRef :=
  if negb (bHasReportId d) then rptParser (rptParsers d !!! 0%nat)
  else GetReportParser_loop MAX_REPORT_PARSERS 0 id (rptParsers d).

(** The loop of [GetHidClassDescrLen] (lines 33-39); [n] counts the
    entries of the requested type seen so far. *)
Fixpoint GetHidClassDescrLen_loop (k i : nat) (n : Z) (type num : Z)
    (di : list DescrInfo) : Z :=
  match k with
  | O => 0
  | S k' =>
      if bDescrType (di !!! i) =? type then
        if n =? num then wDescriptorLength (di !!! i)
        else GetHidClassDescrLen_loop k' (S i) (n + 1) type num di
      else GetHidClassDescrLen_loop k' (S i) n type num di
  end.

(** [uint16_t GetHidClassDescrLen(uint8_t type, uint8_t num)] *)
Definition GetHidClassDescrLen (type num : Z) (d : HIDComposite) : Z :=
  GetHidClassDescrLen_loop HID_MAX_HID_CLASS_DESCRIPTORS 0 0 type num (descrInfo d).

(** ** Reference definitions by recursion on the table *)

Fixpoint set_first_empty (b : ReportParser) (l : list ReportParser)
    : bool * list ReportParser :=
  match l with
  | [] => (false, [])
  | e :: l' =>
      if slot_empty e then (true, b :: l')
      else let '(r, l'') := set_first_empty b l' in (r, e :: l'')
  end.

Fixpoint find_parser (id : Z) (l : list ReportParser) : option ParserRef :=
  match l with
  | [] => None
  | e :: l' => if rptId e =? id then rptParser e else find_parser id l'
  end.

(** The lengths of the entries of type [type], in table order. *)
Definition lengths_of_type (type : Z) (l : list DescrInfo) : list Z :=
  map wDescriptorLength (filter (fun e => bDescrType e = type) l).

(** ** Loop lemmas: each scan computes its reference definition *)

Lemma SetReportParser_loop_ref k i id prs rp :
  (i + k = length rp)%nat ->
  SetReportParser_loop k i id prs rp =
  let '(r, l) := set_first_empty (mkReportParser id prs) (drop i rp) in
  (r, take i rp ++ l).
Proof.
  revert i. induction k as [|k IH]; intros i Hlen; simpl.
  - rewrite drop_ge by lia. simpl. by rewrite app_nil_r, take_ge by lia.
  - destruct (rp !! i) as [e|] eqn:He; [|apply lookup_ge_None in He; lia].
    rewrite (drop_S _ _ _ He). simpl.
    rewrite list_lookup_total_alt, He. simpl.
    destruct (slot_empty e) eqn:Hse.
    + rewrite insert_take_drop by (apply lookup_lt_Some in He; lia). done.
    + rewrite IH by lia. destruct (set_first_empty _ (drop (S i) rp)).
      by rewrite (take_S_r _ _ _ He), <-app_assoc.
Qed.

Lemma GetReportParser_loop_ref k i id rp :
  (i + k = length rp)%nat ->
  GetReportParser_loop k i id rp = find_parser id (drop i rp).
Proof.
  revert i. induction k as [|k IH]; intros i Hlen; simpl.
  - by rewrite drop_ge by lia.
  - destruct (rp !! i) as [e|] eqn:He; [|apply lookup_ge_None in He; lia].
    rewrite (drop_S _ _ _ He). simpl.
    rewrite list_lookup_total_alt, He. simpl.
    destruct (rptId e =? id); [done|]. apply IH. lia.
Qed.

Lemma GetHidClassDescrLen_loop_ref k i n type num di :
  (i + k = length di)%nat -> n <= num ->
  GetHidClassDescrLen_loop k i n type num di =
  default 0 (lengths_of_type type (drop i di) !! Z.to_nat (num - n)).
Proof.
  revert i n. induction k as [|k IH]; intros i n Hlen Hn; simpl.
  - by rewrite drop_ge by lia.
  - destruct (di !! i) as [e|] eqn:He; [|apply lookup_ge_None in He; lia].
    rewrite (drop_S _ _ _ He). unfold lengths_of_type. rewrite filter_cons.
    rewrite list_lookup_total_alt, He. simpl.
    destruct (Z.eqb_spec (bDescrType e) type) as [Ht|Ht].
    + rewrite decide_True by done. simpl.
      destruct (Z.eqb_spec n num) as [->|Hne].
      * by rewrite Z.sub_diag.
      * rewrite IH by lia. unfold lengths_of_type.
        replace (Z.to_nat (num - n)) with (S (Z.to_nat (num - (n + 1)))) by lia.
        done.
    + rewrite decide_False by done. apply IH; lia.
Qed.

Lemma set_first_empty_find b l :
  set_first_empty b l =
  match list_find (fun e => slot_empty e = true) l with
  | Some (i, _) => (true, <[i := b]> l)
  | None => (false, l)
  end.
Proof.
  induction l as [|e l IH]; simpl; [done|].
  destruct (slot_empty e) eqn:He.
  - by rewrite decide_True.
  - rewrite decide_False by congruence. rewrite IH.
    by destruct (list_find _ l) as [[i x]|].
Qed.

Lemma set_rptParsers_id d : set_rptParsers (rptParsers d) d = d.
Proof. by destruct d. Qed.

(** ** The abstract registry of the spec (section 4.1) *)

Module RegistrySpec.

(** A binding: a report identifier and a parser reference. *)
Definition binding : Type := Z * option ParserRef.

(** A binding that is indistinguishable from a free slot. *)
Definition is_free (b : binding) : bool :=
  (b.1 =? 0) && bool_decide (b.2 = None).

(** [Register(id, parser)]: succeeds while fewer than
    [MAX_REPORT_PARSERS] bindings are live, never replaces a binding. *)
Definition reg_add (b : binding) (r : list binding) : bool * list binding :=
  if (length r <? MAX_REPORT_PARSERS)%nat
  then (true, if is_free b then r else r ++ [b])
  else (false, r).

(** [Resolve(id)]: without report-ID framing the first binding answers
    every identifier; with it, the first binding of that identifier. *)
Definition reg_resolve (has_id : bool) (id : Z) (r : list binding) : option ParserRef :=
  if negb has_id then match r with b :: _ => b.2 | [] => None end
  else match find (fun b => b.1 =? id) r with Some b => b.2 | None => None end.

End RegistrySpec.

Import RegistrySpec.

(** The abstraction of the slot table: its registered slots, in order. *)
Definition abs_reg (l : list ReportParser) : list binding :=
  map (fun e => (rptId e, rptParser e)) (filter (fun e => slot_empty e = false) l).

(** The representation invariant: the registered slots form a prefix of
    the table, the free slots its suffix. *)
Definition prefix_filled (l : list ReportParser) : Prop :=
  exists l1 l2, l = l1 ++ l2 /\
    Forall (fun e => slot_empty e = false) l1 /\
    Forall (fun e => slot_empty e = true) l2.

Lemma abs_reg_filled l :
  Forall (fun e => slot_empty e = false) l ->
  abs_reg l = map (fun e => (rptId e, rptParser e)) l.
Proof.
  induction 1 as [|e l He _ IH]; [done|]. unfold abs_reg in *.
  rewrite filter_cons, decide_True by done. simpl. by rewrite IH.
Qed.

Lemma abs_reg_free l :
  Forall (fun e => slot_empty e = true) l -> abs_reg l = [].
Proof.
  induction 1 as [|e l He _ IH]; [done|]. unfold abs_reg in *.
  by rewrite filter_cons, decide_False by congruence.
Qed.

Lemma set_first_empty_split b l1 l2 :
  Forall (fun e => slot_empty e = false) l1 ->
  set_first_empty b (l1 ++ l2) =
  let '(r, l2') := set_first_empty b l2 in (r, l1 ++ l2').
Proof.
  induction 1 as [|e l1 He _ IH]; simpl; [by destruct (set_first_empty b l2)|].
  rewrite He, IH. by destruct (set_first_empty b l2).
Qed.

Lemma find_parser_free id l :
  Forall (fun e => slot_empty e = true) l -> find_parser id l = None.
Proof.
  induction 1 as [|e l He _ IH]; simpl; [done|].
  unfold slot_empty in He. apply andb_true_iff in He as [_ Hp].
  apply bool_decide_eq_true in Hp. by destruct (rptId e =? id).
Qed.

Lemma find_parser_split id l1 l2 :
  Forall (fun e => slot_empty e = true) l2 ->
  find_parser id (l1 ++ l2) =
  match find (fun b => b.1 =? id) (map (fun e => (rptId e, rptParser e)) l1) with
  | Some b => b.2 | None => None end.
Proof.
  intros H2. induction l1 as [|e l1 IH]; simpl; [by apply find_parser_free|].
  by destruct (rptId e =? id).
Qed.

Lemma abs_reg_app l1 l2 : abs_reg (l1 ++ l2) = abs_reg l1 ++ abs_reg l2.
Proof. unfold abs_reg. by rewrite list.filter_app, map_app. Qed.

Lemma abs_reg_cons e l :
  abs_reg (e :: l) =
  (if slot_empty e then [] else [(rptId e, rptParser e)]) ++ abs_reg l.
Proof.
  unfold abs_reg. rewrite filter_cons.
  destruct (slot_empty e) eqn:He; [by rewrite decide_False|by rewrite decide_True].
Qed.

Lemma slot_empty_binding id prs :
  slot_empty (mkReportParser id prs) = is_free (id, prs).
Proof. reflexivity. Qed.

Lemma Initialize_prefix_filled d : prefix_filled (rptParsers (Initialize d)).
Proof.
  exists [], (rptParsers (Initialize d)). split; [done|]. split; [done|].
  simpl. apply Forall_fmap, Forall_true. done.
Qed.

Lemma SetReportParser_ref id prs d :
  length (rptParsers d) = MAX_REPORT_PARSERS ->
  SetReportParser id prs d =
  let '(r, l) := set_first_empty (mkReportParser id prs) (rptParsers d) in
  (r, set_rptParsers l d).
Proof.
  intros Hlen. unfold SetReportParser.
  rewrite SetReportParser_loop_ref by (simpl; lia). simpl.
  by destruct (set_first_empty _ _).
Qed.

(** [SetReportParser] changes nothing but the slots, and keeps their
    number. *)
Lemma SetReportParser_frame id prs d :
  length (rptParsers d) = MAX_REPORT_PARSERS ->
  exists rp, snd (SetReportParser id prs d) = set_rptParsers rp d /\
             length rp = MAX_REPORT_PARSERS.
Proof.
  intros Hlen. rewrite SetReportParser_ref, set_first_empty_find by done.
  destruct (list_find _ _) as [[i e]|]; simpl; eexists; split; try done.
  by rewrite length_insert.
Qed.

(** ** Properties of the registry *)

(** C26: [SetReportParser] writes the binding into the first free slot
    (identifier 0 and a NULL parser) and returns true; when no slot is
    free it returns false and leaves the object unchanged. *)
Theorem SetReportParser_first_free id prs d :
  length (rptParsers d) = MAX_REPORT_PARSERS ->
  SetReportParser id prs d =
  match list_find (fun e => slot_empty e = true) (rptParsers d) with
  | Some (i, _) => (true, set_rptParsers (<[i := mkReportParser id prs]> (rptParsers d)) d)
  | None => (false, d)
  end.
Proof.
  intros Hlen. rewrite SetReportParser_ref, set_first_empty_find by done.
  destruct (list_find _ _) as [[i e]|]; [done|]. by rewrite set_rptParsers_id.
Qed.

(** The simulation step of [SetReportParser] against [reg_add]. *)
Lemma SetReportParser_sim id prs d r d' :
  length (rptParsers d) = MAX_REPORT_PARSERS ->
  prefix_filled (rptParsers d) ->
  SetReportParser id prs d = (r, d') ->
  prefix_filled (rptParsers d') /\
  (r, abs_reg (rptParsers d')) = reg_add (id, prs) (abs_reg (rptParsers d)).
Proof.
  intros Hlen (l1 & l2 & Hl & H1 & H2).
  rewrite SetReportParser_ref by done. rewrite Hl, set_first_empty_split by done.
  rewrite Hl, length_app in Hlen.
  rewrite abs_reg_app, (abs_reg_free l2), (abs_reg_filled l1), app_nil_r by done.
  unfold reg_add. rewrite length_map.
  destruct H2 as [|e l2 He H2]; simpl.
  - intros [= <- <-]. simpl. rewrite app_nil_r in *.
    rewrite abs_reg_filled by done. split; [exists l1, []; by rewrite app_nil_r|].
    destruct (Nat.ltb_spec (length l1) MAX_REPORT_PARSERS); [simpl in Hlen; lia|done].
  - rewrite He. intros [= <- <-]. simpl.
    destruct (Nat.ltb_spec (length l1) MAX_REPORT_PARSERS); [|simpl in Hlen; lia].
    rewrite abs_reg_app, abs_reg_cons, (abs_reg_free l2), (abs_reg_filled l1) by done.
    rewrite slot_empty_binding. destruct (is_free (id, prs)) eqn:Hf; simpl.
    + split; [|by rewrite app_nil_r].
      exists l1, (mkReportParser id prs :: l2). split; [done|]. by split; [|constructor].
    + split; [|done].
      exists (l1 ++ [mkReportParser id prs]), l2. rewrite <-app_assoc.
      split; [done|]. split; [|done]. apply Forall_app. by split; [|constructor].
Qed.

(** C7: refinement of the abstract registry by [SetReportParser]: on a
    table whose registered slots form a prefix, registering keeps that
    shape, returns what the abstract [reg_add] returns, and the
    registered slots afterwards are the abstract registry afterwards. *)
Theorem SetReportParser_refines id prs d r d' :
  length (rptParsers d) = MAX_REPORT_PARSERS ->
  prefix_filled (rptParsers d) ->
  SetReportParser id prs d = (r, d') ->
  prefix_filled (rptParsers d') /\
  (r, abs_reg (rptParsers d')) = reg_add (id, prs) (abs_reg (rptParsers d)).
Proof. apply SetReportParser_sim. Qed.

(** The lookup of [GetReportParser] against [reg_resolve]. *)
Lemma GetReportParser_sim id d :
  length (rptParsers d) = MAX_REPORT_PARSERS ->
  prefix_filled (rptParsers d) ->
  GetReportParser id d = reg_resolve (bHasReportId d) id (abs_reg (rptParsers d)).
Proof.
  intros Hlen (l1 & l2 & Hl & H1 & H2).
  unfold GetReportParser, reg_resolve.
  rewrite Hl, abs_reg_app, (abs_reg_free l2), abs_reg_filled, app_nil_r by done.
  destruct (bHasReportId d); cbn [negb].
  - rewrite GetReportParser_loop_ref by (rewrite <-Hl; simpl; lia).
    by rewrite drop_0, find_parser_split.
  - destruct H1 as [|e l1 He H1]; [|done]. simpl.
    destruct H2 as [|e l2 He H2]; [done|]. simpl.
    unfold slot_empty in He. apply andb_true_iff in He as [_ Hp].
    by apply bool_decide_eq_true in Hp.
Qed.

(** C8: refinement of the abstract registry by [GetReportParser]: on a
    table whose registered slots form a prefix, the lookup answers what
    the abstract [reg_resolve] answers on the registered bindings, with
    and without report-ID framing. *)
Theorem GetReportParser_refines id d :
  length (rptParsers d) = MAX_REPORT_PARSERS ->
  prefix_filled (rptParsers d) ->
  GetReportParser id d = reg_resolve (bHasReportId d) id (abs_reg (rptParsers d)).
Proof. apply GetReportParser_sim. Qed.

Lemma find_app_none {A} (f : A -> bool) l1 l2 :
  find f l1 = None -> find f (l1 ++ l2) = find f l2.
Proof.
  induction l1 as [|x l1 IH]; simpl; [done|].
  destruct (f x); [discriminate|exact IH].
Qed.

(** The abstract registry: a binding added to a registry that has none of
    its identifier is what that identifier resolves to. *)
Lemma reg_add_resolve id prs r r' :
  find (fun b => b.1 =? id) r = None -> is_free (id, prs) = false ->
  reg_add (id, prs) r = (true, r') -> reg_resolve true id r' = prs.
Proof.
  intros Hf Hfree. unfold reg_add, reg_resolve. rewrite Hfree.
  destruct (Nat.ltb _ _); [|by intros [=]].
  intros [= <-]. simpl. rewrite find_app_none by done. simpl.
  by rewrite Z.eqb_refl.
Qed.

Lemma abs_reg_no_id id l :
  Forall (fun e => slot_empty e = true \/ rptId e <> id) l ->
  find (fun b => b.1 =? id) (abs_reg l) = None.
Proof.
  induction 1 as [|e l He _ IH]; [done|].
  rewrite abs_reg_cons. destruct (slot_empty e) eqn:Hs; simpl; [done|].
  destruct He as [He|He]; [congruence|]. apply Z.eqb_neq in He. by rewrite He.
Qed.

Lemma slot_empty_iff e : slot_empty e = true <-> e = mkReportParser 0 None.
Proof.
  destruct e as [i p]. unfold slot_empty; simpl.
  rewrite andb_true_iff, Z.eqb_eq, bool_decide_eq_true.
  split; [intros [-> ->]|intros [= -> ->]]; done.
Qed.

(** A table of free slots, as [Initialize] leaves it. *)
Lemma free_table (l : list ReportParser) :
  length l = MAX_REPORT_PARSERS -> Forall (fun e => slot_empty e = true) l ->
  l = [mkReportParser 0 None; mkReportParser 0 None].
Proof.
  intros Hlen Hall. unfold MAX_REPORT_PARSERS in Hlen.
  destruct l as [|e1 [|e2 [|]]]; simpl in Hlen; try lia.
  rewrite !list.Forall_cons in Hall. destruct Hall as (H1 & H2 & _).
  apply slot_empty_iff in H1, H2. by subst.
Qed.

(** C18: registering then resolving is a round trip: with report-ID
    framing, on a well-shaped table where no registered slot carries the
    identifier [id], a [SetReportParser id prs] that succeeds with a
    binding distinguishable from a free slot makes [GetReportParser id]
    return [prs]. *)
Theorem SetReportParser_GetReportParser id prs d d' :
  length (rptParsers d) = MAX_REPORT_PARSERS -> prefix_filled (rptParsers d) ->
  bHasReportId d = true ->
  Forall (fun e => slot_empty e = true \/ rptId e <> id) (rptParsers d) ->
  (id <> 0 \/ prs <> None) ->
  SetReportParser id prs d = (true, d') ->
  GetReportParser id d' = prs.
Proof.
  intros Hlen Hp Hid Hno Hnf Hs.
  destruct (SetReportParser_frame id prs d Hlen) as (rp & Hd' & Hl).
  rewrite Hs in Hd'. simpl in Hd'. subst d'.
  destruct (SetReportParser_sim id prs d _ _ Hlen Hp Hs) as [Hp' Hadd].
  rewrite GetReportParser_sim by done. simpl. rewrite Hid.
  eapply reg_add_resolve; [by apply abs_reg_no_id| |exact (eq_sym Hadd)].
  unfold is_free; simpl. destruct Hnf as [Hnf|Hnf].
  - apply Z.eqb_neq in Hnf. by rewrite Hnf.
  - rewrite andb_false_iff. right. by apply bool_decide_eq_false.
Qed.

(** With report-ID framing, after registering parsers for ids 1 and
    2 in a free table, [GetReportParser 1] and [GetReportParser 2] return
    them, [GetReportParser 3] returns NULL, and a third registration fails
    (both slots are taken). *)
Theorem register_resolve_ids p1 p2 d :
  length (rptParsers d) = MAX_REPORT_PARSERS ->
  Forall (fun e => slot_empty e = true) (rptParsers d) ->
  bHasReportId d = true ->
  let '(r1, d1) := SetReportParser 1 (Some p1) d in
  let '(r2, d2) := SetReportParser 2 (Some p2) d1 in
  r1 = true /\ r2 = true /\
  GetReportParser 1 d2 = Some p1 /\ GetReportParser 2 d2 = Some p2 /\
  GetReportParser 3 d2 = None /\ fst (SetReportParser 3 (Some p1) d2) = false.
Proof.
  intros Hlen Hall Hid. destruct d as [rp ? ? ? ? ? ? ? ? ? hid ? ? ?]; simpl in *.
  rewrite (free_table rp Hlen Hall). subst hid. vm_compute. done.
Qed.

(** C27: without report-ID framing, a parser registered in a free table
    answers [GetReportParser id] for every identifier [id], whatever
    identifier it was registered under. *)
Theorem resolve_no_report_id id0 p d :
  length (rptParsers d) = MAX_REPORT_PARSERS ->
  Forall (fun e => slot_empty e = true) (rptParsers d) ->
  bHasReportId d = false ->
  let '(r, d1) := SetReportParser id0 (Some p) d in
  r = true /\ forall id, GetReportParser id d1 = Some p.
Proof.
  intros Hlen Hall Hid. destruct d as [rp ? ? ? ? ? ? ? ? ? hid ? ? ?]; simpl in *.
  rewrite (free_table rp Hlen Hall). subst hid. vm_compute. by split.
Qed.

(** C28: [GetHidClassDescrLen type num] returns the length recorded in the
    [num]-th entry (counting from 0) of type [type] of [descrInfo], and 0
    when there are not that many entries of that type. *)
Theorem GetHidClassDescrLen_nth type num d :
  length (descrInfo d) = HID_MAX_HID_CLASS_DESCRIPTORS -> 0 <= num ->
  GetHidClassDescrLen type num d =
  default 0 (lengths_of_type type (descrInfo d) !! Z.to_nat num).
Proof.
  intros Hlen Hnum. unfold GetHidClassDescrLen.
  rewrite GetHidClassDescrLen_loop_ref by lia. by rewrite drop_0, Z.sub_0_r.
Qed.

(** ** Witnesses: the theorems applied to the constructed object *)

Lemma SetReportParser_first_free_witness :
  length (rptParsers HIDComposite_new) = MAX_REPORT_PARSERS /\
  SetReportParser 7 (Some 1%nat) HIDComposite_new =
  (true, set_rptParsers (<[0%nat := mkReportParser 7 (Some 1%nat)]>
                           (rptParsers HIDComposite_new)) HIDComposite_new).
Proof.
  split; [reflexivity|].
  rewrite (SetReportParser_first_free 7 (Some 1%nat) HIDComposite_new) by reflexivity.
  reflexivity.
Defined.

Lemma SetReportParser_refines_witness :
  prefix_filled (rptParsers HIDComposite_new) /\
  (true, abs_reg [mkReportParser 7 (Some 1%nat); mkReportParser 0 None]) =
  reg_add (7, Some 1%nat) (abs_reg (rptParsers HIDComposite_new)).
Proof.
  split; [apply Initialize_prefix_filled|].
  refine (proj2 (SetReportParser_refines 7 (Some 1%nat) HIDComposite_new true
    (set_rptParsers [mkReportParser 7 (Some 1%nat); mkReportParser 0 None]
       HIDComposite_new) eq_refl (Initialize_prefix_filled _) eq_refl)).
Defined.

Lemma GetReportParser_refines_witness :
  prefix_filled (rptParsers HIDComposite_new) /\
  GetReportParser 5 HIDComposite_new =
  reg_resolve false 5 (abs_reg (rptParsers HIDComposite_new)).
Proof.
  split; [apply Initialize_prefix_filled|].
  exact (GetReportParser_refines 5 HIDComposite_new eq_refl (Initialize_prefix_filled _)).
Defined.

Lemma register_resolve_ids_witness :
  Forall (fun e => slot_empty e = true) (rptParsers HIDComposite_new) /\
  (let '(r1, d1) := SetReportParser 1 (Some 10%nat) (set_bHasReportId true HIDComposite_new) in
   let '(r2, d2) := SetReportParser 2 (Some 20%nat) d1 in
   r1 = true /\ r2 = true /\
   GetReportParser 1 d2 = Some 10%nat /\ GetReportParser 2 d2 = Some 20%nat /\
   GetReportParser 3 d2 = None /\ fst (SetReportParser 3 (Some 10%nat) d2) = false).
Proof.
  split; [repeat constructor|].
  apply (register_resolve_ids 10%nat 20%nat (set_bHasReportId true HIDComposite_new));
    [reflexivity|repeat constructor|reflexivity].
Defined.

Lemma resolve_no_report_id_witness :
  Forall (fun e => slot_empty e = true) (rptParsers HIDComposite_new) /\
  (let '(r, d1) := SetReportParser 4 (Some 10%nat) HIDComposite_new in
   r = true /\ forall id, GetReportParser id d1 = Some 10%nat).
Proof.
  split; [repeat constructor|].
  apply (resolve_no_report_id 4 10%nat HIDComposite_new);
    [reflexivity|repeat constructor|reflexivity].
Defined.

Lemma GetHidClassDescrLen_nth_witness :
  (0 <= 1) /\
  GetHidClassDescrLen 34 1 HIDComposite_new =
  default 0 (lengths_of_type 34 (descrInfo HIDComposite_new) !! Z.to_nat 1).
Proof.
  split; [lia|]. apply (GetHidClassDescrLen_nth 34 1 HIDComposite_new); [reflexivity|lia].
Defined.

(** The constructed object with report-ID framing on. *)
Definition framed_object : HIDComposite := set_bHasReportId true HIDComposite_new.

Lemma SetReportParser_GetReportParser_witness :
  prefix_filled (rptParsers framed_object) /\
  SetReportParser 1 (Some 3%nat) framed_object = (true, snd (SetReportParser 1 (Some 3%nat) framed_object)) /\
  GetReportParser 1 (snd (SetReportParser 1 (Some 3%nat) framed_object)) = Some 3%nat.
Proof.
  assert (Hp : prefix_filled (rptParsers framed_object)) by apply Initialize_prefix_filled.
  assert (Hs : SetReportParser 1 (Some 3%nat) framed_object =
               (true, snd (SetReportParser 1 (Some 3%nat) framed_object))) by reflexivity.
  split; [exact Hp|]. split; [exact Hs|].
  apply (SetReportParser_GetReportParser 1 (Some 3%nat) framed_object _);
    [reflexivity|exact Hp|reflexivity| |left; lia|exact Hs].
  vm_compute. repeat (constructor; [left; reflexivity|]). constructor.
Defined.
