(* ===== verification/Extract.v ===== *)
(** * The interface/endpoint extractor

    [FindInterface] and [EndpointXtract] (hidcomposite.cpp:289-356): the
    callback the configuration descriptor walker calls once per endpoint
    descriptor.  It records the configuration number, finds or creates the
    [HIDInterface] entry of the key (interface, alternate setting,
    protocol), classifies the endpoint, and, for an interrupt endpoint of
    an interface the subclass selects, fills the next [epInfo] slot and
    binds it to the role.  Both tables are guarded against overflow.

    The subclass hook [SelectInterface] is a [Variable] of the section;
    the base class's hook accepts every interface
    ([SelectInterface_default]).  [POLLING_OVERRIDE] is not defined in the
    default build and is not modelled. *)

From S2P Require Import Prelude UsbHost Tables.

Open Scope Z_scope.

(** The default [virtual bool SelectInterface(iface, proto)] of
    hidcomposite.h. *)
Definition SelectInterface_default (iface proto : Z) : bool := true.

(** [HIDComposite::FindInterface], the loop from index [i] with [k]
    iterations left; the result is the index of the entry. *)
Fixpoint FindInterface_loop (k i : nat) (iface alt proto : Z) (d : HIDComposite)
    : option nat :=
  match k with
  | O => None
  | S k' =>
      if bool_decide (i < bNumIface d /\ i < maxHidInterfaces)%nat then
        let hi := hidInterfaces d !!! i in
        if (bmInterface hi =? iface) && (bmAltSet hi =? alt) && (bmProtocol hi =? proto)
        then Some i
        else FindInterface_loop k' (S i) iface alt proto d
      else None
  end.

Definition FindInterface (iface alt proto : Z) (d : HIDComposite) : option nat :=
  FindInterface_loop maxHidInterfaces 0 iface alt proto d.

(** The role of an endpoint (lines 323-324): [epInterruptInIndex] or
    [epInterruptOutIndex] for an interrupt endpoint by its direction bit,
    0 for any other transfer type. *)
Definition ep_role (pep : USB_ENDPOINT_DESCRIPTOR) : nat :=
  if Z.land (bmAttributes pep) bmUSB_TRANSFER_TYPE =? USB_TRANSFER_TYPE_INTERRUPT
  then if Z.land (bEndpointAddress pep) 128 =? 128
       then epInterruptInIndex else epInterruptOutIndex
  else 0%nat.

(** [hidInterfaces[i].epIndex[role] = v] *)
Definition set_epIndex (i role v : nat) (d : HIDComposite) : HIDComposite :=
  let hi := hidInterfaces d !!! i in
  set_hidInterfaces
    (<[i := mkHIDInterface (bmInterface hi) (bmAltSet hi) (bmProtocol hi)
                            (<[role := v]> (epIndex hi))]> (hidInterfaces d)) d.

(** [hidInterfaces[bNumIface]] filled with a new key; its [epIndex] is
    left as it is (lines 316-320). *)
Definition new_interface (iface alt proto : Z) (d : HIDComposite) : HIDComposite :=
  let i := bNumIface d in
  let hi := hidInterfaces d !!! i in
  set_bNumIface (S i)
    (set_hidInterfaces (<[i := mkHIDInterface iface alt proto (epIndex hi)]>
                          (hidInterfaces d)) d).

(** The endpoint record of lines 338-342. *)
Definition new_epinfo (pep : USB_ENDPOINT_DESCRIPTOR) : EpInfo :=
  mkEpInfo (Z.land (bEndpointAddress pep) 15) (wrap8 (wMaxPacketSize pep)) 0 0
           USB_NAK_NOWAIT.

(** Lines 305-321: the entry of the key, created when it is new and the
    table has room; [None] is the early [return] of a full table. *)
Definition lookup_or_add (iface alt proto : Z) (d : HIDComposite)
    : option (nat * HIDComposite) :=
  match FindInterface iface alt proto d with
  | Some pi => Some (pi, d)
  | None =>
      if bool_decide (maxHidInterfaces <= bNumIface d)%nat then None
      else Some (bNumIface d, new_interface iface alt proto d)
  end.

Section Extractor.

Variable SelectInterface : Z -> Z -> bool.

(** Lines 329-355, once the interface entry [pi] is known. *)
Definition bind_endpoint (pi role : nat) (pep : USB_ENDPOINT_DESCRIPTOR)
    (d : HIDComposite) : HIDComposite :=
  if bool_decide (totalEndpoints <= bNumEP d)%nat then d
  else
    let n := bNumEP d in
    let d := set_epInfo (<[n := new_epinfo pep]> (epInfo d)) d in
    let d := set_epIndex pi role n d in
    let d := if pollInterval d <? bInterval pep
             then set_pollInterval (bInterval pep) d else d in
    set_bNumEP (S n) d.

(** [void EndpointXtract(conf, iface, alt, proto, pep)] *)
Definition EndpointXtract (conf iface alt proto : Z) (pep : USB_ENDPOINT_DESCRIPTOR)
    (d : HIDComposite) : HIDComposite :=
  let d := set_bConfNum conf d in
  match lookup_or_add iface alt proto d with
  | None => d
  | Some (pi, d) =>
      let index := ep_role pep in
      let index := if SelectInterface iface proto then index else 0%nat in
      if bool_decide (index = 0%nat) then d else bind_endpoint pi index pep d
  end.

(** The calls a walk makes, in order. *)
Definition XtractAll (calls : list XtractCall) (d : HIDComposite) : HIDComposite :=
  fold_left (fun d c => EndpointXtract (xc_conf c) (xc_iface c) (xc_alt c)
                                       (xc_proto c) (xc_ep c) d) calls d.

End Extractor.

(** ** Lemmas: the interface table *)

(** The identity key of an entry (section 3 of the spec). *)
Definition iface_key (hi : HIDInterface) : Z * Z * Z :=
  (bmInterface hi, bmAltSet hi, bmProtocol hi).

(** The keys of the live entries, in discovery order. *)
Definition live_keys (d : HIDComposite) : list (Z * Z * Z) :=
  iface_key <$> take (bNumIface d) (hidInterfaces d).

Lemma key_test_spec hi iface alt proto :
  (bmInterface hi =? iface) && (bmAltSet hi =? alt) && (bmProtocol hi =? proto) =
  bool_decide (iface_key hi = (iface, alt, proto)).
Proof.
  unfold iface_key. destruct hi as [a b c e]; simpl.
  case_bool_decide as Hk.
  - injection Hk as -> -> ->. by rewrite !Z.eqb_refl.
  - destruct (Z.eqb_spec a iface), (Z.eqb_spec b alt), (Z.eqb_spec c proto);
      simpl; subst; congruence.
Qed.

Lemma FindInterface_loop_ref k i iface alt proto d :
  (i + k = maxHidInterfaces)%nat -> (bNumIface d <= maxHidInterfaces)%nat ->
  length (hidInterfaces d) = maxHidInterfaces ->
  FindInterface_loop k i iface alt proto d =
  (fun p => i + p.1)%nat <$>
    list_find (fun hi => iface_key hi = (iface, alt, proto))
              (drop i (take (bNumIface d) (hidInterfaces d))).
Proof.
  intros Hk Hn Hlen. revert i Hk. induction k as [|k IH]; intros i Hk; simpl.
  - by rewrite drop_ge by (rewrite length_take; lia).
  - case_bool_decide as Hi.
    + assert (take (bNumIface d) (hidInterfaces d) !! i = Some (hidInterfaces d !!! i))
        as Hl by (apply lookup_take_Some; split; [apply list_lookup_lookup_total_lt|]; lia).
      rewrite (drop_S _ _ _ Hl), list_find_cons_eq, key_test_spec.
      case_bool_decide as Hkey.
      { rewrite decide_True by done. simpl. f_equal. lia. }
      rewrite decide_False by done. rewrite IH by lia. destruct (list_find _ _) as [[j x]|]; simpl; [|done].
      f_equal. lia.
    + by rewrite drop_ge by (rewrite length_take; lia).
Qed.

Lemma FindInterface_ref iface alt proto d :
  wf d ->
  FindInterface iface alt proto d =
  fst <$> list_find (fun hi => iface_key hi = (iface, alt, proto))
                    (take (bNumIface d) (hidInterfaces d)).
Proof.
  intros Hwf. unfold FindInterface.
  rewrite FindInterface_loop_ref by (done || apply Hwf).
  rewrite drop_0. by destruct (list_find _ _).
Qed.

Lemma FindInterface_None iface alt proto d :
  wf d -> FindInterface iface alt proto d = None ->
  (iface, alt, proto) ∉ live_keys d.
Proof.
  intros Hwf. rewrite FindInterface_ref by done.
  destruct (list_find _ _) eqn:Hf; [done|]. intros _ Hin.
  apply list_elem_of_fmap in Hin as (hi & Hk & Hin).
  apply list_elem_of_lookup in Hin as [j Hj].
  apply list_find_None in Hf. eapply Forall_lookup_1 in Hf; [|exact Hj]. auto.
Qed.

Lemma FindInterface_Some iface alt proto d pi :
  wf d -> FindInterface iface alt proto d = Some pi ->
  (pi < bNumIface d)%nat /\ iface_key (hidInterfaces d !!! pi) = (iface, alt, proto).
Proof.
  intros Hwf. rewrite FindInterface_ref by done.
  destruct (list_find _ _) as [[j hi]|] eqn:Hf; simpl; [intros [= <-]|done].
  apply list_find_Some in Hf as (Hj & Hk & _).
  rewrite lookup_take_Some in Hj. destruct Hj as [Hj Hlt].
  split; [done|]. by rewrite (list_lookup_total_correct _ _ _ Hj).
Qed.

(** ** Lemmas: the invariant *)

Lemma new_interface_wf iface alt proto d :
  wf d -> (bNumIface d < maxHidInterfaces)%nat -> wf (new_interface iface alt proto d).
Proof.
  intros Hwf Hlt. pose proof (wf_iface_at _ _ Hwf Hlt) as [Hl Hall].
  destruct Hwf. constructor; simpl; try done; try lia.
  - by rewrite length_insert.
  - by apply Forall_insert.
Qed.

Lemma set_epIndex_wf pi role v d :
  wf d -> (pi < maxHidInterfaces)%nat -> (v < totalEndpoints)%nat ->
  wf (set_epIndex pi role v d).
Proof.
  intros Hwf Hpi Hv. pose proof (wf_iface_at _ _ Hwf Hpi) as [Hl Hall].
  destruct Hwf. constructor; simpl; try done.
  - by rewrite length_insert.
  - apply Forall_insert; [done|].
    split; simpl; [by rewrite length_insert|]. by apply Forall_insert.
Qed.

Lemma bind_endpoint_wf pi role pep d :
  wf d -> (pi < maxHidInterfaces)%nat -> wf (bind_endpoint pi role pep d).
Proof.
  intros Hwf Hpi. unfold bind_endpoint. case_bool_decide as Hfull; [done|].
  assert (Hwf1 : wf (set_epInfo (<[bNumEP d := new_epinfo pep]> (epInfo d)) d)).
  { destruct Hwf. constructor; simpl; try done.
    - by rewrite length_insert.
    - rewrite list_lookup_total_insert_ne by lia. done. }
  apply (set_epIndex_wf pi role (bNumEP d)) in Hwf1; [|done|lia].
  apply wf_set_bNumEP; [|simpl; lia].
  destruct (_ <? _); [wf_scalar|done].
Qed.

Lemma lookup_or_add_wf iface alt proto d pi d' :
  wf d -> lookup_or_add iface alt proto d = Some (pi, d') ->
  wf d' /\ (pi < bNumIface d')%nat.
Proof.
  intros Hwf. unfold lookup_or_add.
  destruct (FindInterface _ _ _ _) as [j|] eqn:Hf.
  - intros [= <- <-]. split; [done|]. by destruct (FindInterface_Some _ _ _ _ _ Hwf Hf).
  - case_bool_decide; [done|]. intros [= <- <-].
    split; [apply new_interface_wf; [done|lia]|simpl; lia].
Qed.

Lemma EndpointXtract_wf sel conf iface alt proto pep d :
  wf d -> wf (EndpointXtract sel conf iface alt proto pep d).
Proof.
  intros Hwf. assert (Hwf0 : wf (set_bConfNum conf d)) by wf_scalar.
  unfold EndpointXtract.
  destruct (lookup_or_add _ _ _ _) as [[pi d1]|] eqn:Hl; [|done].
  destruct (lookup_or_add_wf _ _ _ _ _ _ Hwf0 Hl) as [Hwf1 Hpi].
  case_bool_decide; [done|]. apply bind_endpoint_wf; [done|].
  pose proof (wf_bNumIface _ Hwf1). lia.
Qed.

(** ** Lemmas: every endpoint index below the endpoint count *)

(** Every [epIndex] entry of every interface entry, live or not, is below
    [n]: it designates a slot already filled. *)
Definition idx_below_at (n : nat) (l : list HIDInterface) : Prop :=
  Forall (fun hi => Forall (fun k => k < n)%nat (epIndex hi)) l.

Definition idx_below (d : HIDComposite) : Prop := idx_below_at (bNumEP d) (hidInterfaces d).

Lemma idx_below_at_mono n m l : (n <= m)%nat -> idx_below_at n l -> idx_below_at m l.
Proof.
  intros Hnm Hl. eapply list.Forall_impl; [exact Hl|]. intros hi Hh.
  eapply list.Forall_impl; [exact Hh|]. simpl. lia.
Qed.

Lemma idx_below_at_entry n l i epi :
  (i < length l)%nat -> idx_below_at n l ->
  Forall (fun k => k < n)%nat epi -> idx_below_at n (<[i := mkHIDInterface
      (bmInterface (l !!! i)) (bmAltSet (l !!! i)) (bmProtocol (l !!! i)) epi]> l).
Proof. intros _ Hl He. by apply Forall_insert. Qed.

Lemma idx_below_at_lookup n l i :
  (i < length l)%nat -> idx_below_at n l -> Forall (fun k => k < n)%nat (epIndex (l !!! i)).
Proof.
  intros Hi Hl. apply (Forall_lookup_1 _ _ i _ Hl). by apply list_lookup_lookup_total_lt.
Qed.

Lemma new_interface_below iface alt proto d :
  (bNumIface d < length (hidInterfaces d))%nat -> idx_below d ->
  idx_below (new_interface iface alt proto d).
Proof.
  intros Hi Hb. unfold idx_below, new_interface. simpl.
  apply Forall_insert; [done|]. by apply idx_below_at_lookup.
Qed.

Lemma bind_endpoint_below pi role pep d :
  (pi < length (hidInterfaces d))%nat -> idx_below d -> idx_below (bind_endpoint pi role pep d).
Proof.
  intros Hpi Hb. unfold bind_endpoint. case_bool_decide; [done|].
  unfold idx_below. destruct (_ <? _); simpl; unfold set_epIndex; simpl;
    (apply idx_below_at_entry; [done|apply (idx_below_at_mono (bNumEP d)); [lia|done]|];
     apply Forall_insert; [|lia];
     eapply list.Forall_impl; [by apply idx_below_at_lookup|]; simpl; lia).
Qed.

Lemma EndpointXtract_below sel conf iface alt proto pep d :
  wf d -> idx_below d -> idx_below (EndpointXtract sel conf iface alt proto pep d).
Proof.
  intros Hwf Hb. assert (Hwf0 : wf (set_bConfNum conf d)) by wf_scalar.
  unfold EndpointXtract.
  destruct (lookup_or_add _ _ _ _) as [[pi d1]|] eqn:Hl; [|done].
  destruct (lookup_or_add_wf _ _ _ _ _ _ Hwf0 Hl) as [Hwf1 Hpi].
  assert (Hb1 : idx_below d1).
  { revert Hl. unfold lookup_or_add. destruct (FindInterface _ _ _ _).
    - by intros [= <- <-].
    - case_bool_decide; [done|]. intros [= <- <-].
      apply new_interface_below; [rewrite (wf_ifaces_len _ Hwf0); lia|done]. }
  case_bool_decide; [done|]. apply bind_endpoint_below; [|done].
  rewrite (wf_ifaces_len _ Hwf1). pose proof (wf_bNumIface _ Hwf1). lia.
Qed.

(** ** Lemmas: the keys of the live entries *)

Lemma live_keys_alt d :
  live_keys d = take (bNumIface d) (iface_key <$> hidInterfaces d).
Proof. unfold live_keys. by rewrite fmap_take. Qed.

Lemma map_key_insert_same (l : list HIDInterface) pi x :
  iface_key x = iface_key (l !!! pi) ->
  iface_key <$> <[pi := x]> l = iface_key <$> l.
Proof.
  intros Hk. apply list_eq. intros j. rewrite !list_lookup_fmap.
  destruct (decide (pi = j)) as [<-|Hne].
  - destruct (decide (pi < length l)%nat).
    + rewrite list_lookup_insert_eq by done. simpl. rewrite Hk.
      by rewrite (list_lookup_lookup_total_lt l pi).
    + by rewrite list_insert_ge by lia.
  - by rewrite list_lookup_insert_ne.
Qed.

Lemma set_epIndex_keys pi role v d :
  live_keys (set_epIndex pi role v d) = live_keys d.
Proof.
  rewrite !live_keys_alt. unfold set_epIndex. simpl.
  by rewrite map_key_insert_same.
Qed.

Lemma bind_endpoint_keys pi role pep d :
  live_keys (bind_endpoint pi role pep d) = live_keys d.
Proof.
  unfold bind_endpoint. case_bool_decide; [done|].
  rewrite !live_keys_alt. destruct (_ <? _); simpl;
    rewrite map_key_insert_same; done.
Qed.

Lemma new_interface_keys iface alt proto d :
  wf d -> (bNumIface d < maxHidInterfaces)%nat ->
  live_keys (new_interface iface alt proto d) = live_keys d ++ [(iface, alt, proto)].
Proof.
  intros Hwf Hlt. rewrite !live_keys_alt. unfold new_interface. simpl.
  rewrite list_fmap_insert, (take_S_r _ _ (iface, alt, proto)).
  - f_equal. by rewrite take_insert_ge by lia.
  - apply list_lookup_insert_eq. rewrite length_fmap, (wf_ifaces_len _ Hwf). done.
Qed.

Lemma EndpointXtract_keys sel conf iface alt proto pep d :
  wf d -> NoDup (live_keys d) ->
  NoDup (live_keys (EndpointXtract sel conf iface alt proto pep d)).
Proof.
  intros Hwf Hnd. assert (Hwf0 : wf (set_bConfNum conf d)) by wf_scalar.
  unfold EndpointXtract, lookup_or_add.
  destruct (FindInterface _ _ _ _) as [pi|] eqn:Hf.
  - case_bool_decide; [done|]. by rewrite bind_endpoint_keys.
  - case_bool_decide; [done|].
    assert (NoDup (live_keys (new_interface iface alt proto (set_bConfNum conf d)))).
    { rewrite new_interface_keys by (done || lia).
      apply list.NoDup_app. split; [done|]. split; [|apply NoDup_singleton].
      intros x Hx Hin%list_elem_of_singleton. subst x. by eapply FindInterface_None. }
    case_bool_decide; [done|]. by rewrite bind_endpoint_keys.
Qed.

(** A call adds at most its own key to the live keys. *)
Lemma EndpointXtract_keys_grow sel conf iface alt proto pep d :
  wf d ->
  live_keys (EndpointXtract sel conf iface alt proto pep d) = live_keys d \/
  live_keys (EndpointXtract sel conf iface alt proto pep d) = live_keys d ++ [(iface, alt, proto)].
Proof.
  intros Hwf. assert (Hwf0 : wf (set_bConfNum conf d)) by wf_scalar.
  unfold EndpointXtract, lookup_or_add.
  destruct (FindInterface _ _ _ _) as [pi|] eqn:Hf.
  - left. case_bool_decide; [done|]. by rewrite bind_endpoint_keys.
  - case_bool_decide; [by left|]. right.
    case_bool_decide; [|rewrite bind_endpoint_keys]; by rewrite new_interface_keys by (done || lia).
Qed.

(** The extractor only ever appends to the live entries. *)
Lemma XtractAll_keys_prefix sel calls d :
  wf d -> live_keys d `prefix_of` live_keys (XtractAll sel calls d).
Proof.
  unfold XtractAll. revert d. induction calls as [|c calls IH]; intros d Hwf; simpl; [done|].
  etrans; [|apply IH, EndpointXtract_wf, Hwf].
  destruct (EndpointXtract_keys_grow sel (xc_conf c) (xc_iface c) (xc_alt c) (xc_proto c)
              (xc_ep c) d Hwf) as [->| ->]; [done|]. by apply prefix_app_r.
Qed.

(** Every key live after a sequence of calls was live before or is the
    key of one of the calls. *)
Lemma XtractAll_keys_from sel calls d k :
  wf d -> k ∈ live_keys (XtractAll sel calls d) ->
  k ∈ live_keys d \/ exists c, c ∈ calls /\ k = (xc_iface c, xc_alt c, xc_proto c).
Proof.
  unfold XtractAll. revert d. induction calls as [|c calls IH]; intros d Hwf Hk; simpl in *.
  - by left.
  - destruct (IH _ (EndpointXtract_wf sel _ _ _ _ _ d Hwf) Hk) as [Hin|(c' & Hc' & ->)].
    + destruct (EndpointXtract_keys_grow sel (xc_conf c) (xc_iface c) (xc_alt c)
                  (xc_proto c) (xc_ep c) d Hwf) as [Heq|Heq]; rewrite Heq in Hin; [by left|].
      apply elem_of_app in Hin as [Hin|Hin%list_elem_of_singleton]; [by left|].
      right. exists c. split; [constructor|done].
    + right. exists c'. split; [by constructor|done].
Qed.

(** ** Lemmas: what [EndpointXtract] does to the endpoint table *)

Lemma ep_role_bound pep : (ep_role pep <= epInterruptOutIndex)%nat.
Proof.
  unfold ep_role, epInterruptOutIndex, epInterruptInIndex.
  destruct (_ =? _); [destruct (_ =? _)|]; lia.
Qed.

Lemma lookup_or_add_fields iface alt proto d pi d1 :
  lookup_or_add iface alt proto d = Some (pi, d1) ->
  bNumEP d1 = bNumEP d /\ epInfo d1 = epInfo d /\ pollInterval d1 = pollInterval d.
Proof.
  unfold lookup_or_add. destruct (FindInterface _ _ _ _).
  - by intros [= <- <-].
  - case_bool_decide; [done|]. by intros [= <- <-].
Qed.

Lemma pollInterval_max p b :
  (if p <? b then b else p) = Z.max p b.
Proof. destruct (Z.ltb_spec p b); lia. Qed.

(** ** Properties of the extractor *)

(** C25: [FindInterface] returns the first live entry (index below
    [bNumIface]) whose key is (interface, alternate setting, protocol),
    and NULL when no live entry has that key. *)
Theorem FindInterface_first_match iface alt proto d i :
  wf d ->
  FindInterface iface alt proto d = Some i <->
  (i < bNumIface d)%nat /\
  iface_key (hidInterfaces d !!! i) = (iface, alt, proto) /\
  (forall j, (j < i)%nat -> iface_key (hidInterfaces d !!! j) <> (iface, alt, proto)).
Proof.
  intros Hwf. pose proof (wf_ifaces_len _ Hwf). pose proof (wf_bNumIface _ Hwf).
  rewrite FindInterface_ref by done. split.
  - destruct (list_find _ _) as [[j hi]|] eqn:Hf; simpl; [intros [= <-]|done].
    apply list_find_Some in Hf as (Hj & Hk & Hfirst).
    apply lookup_take_Some in Hj as [Hj Hlt].
    rewrite (list_lookup_total_correct _ _ _ Hj). split; [done|]. split; [done|].
    intros j' Hj'. apply (Hfirst j'); [|done].
    rewrite lookup_take_lt by lia. apply list_lookup_lookup_total_lt. lia.
  - intros (Hlt & Hk & Hfirst).
    assert (list_find (fun hi => iface_key hi = (iface, alt, proto))
              (take (bNumIface d) (hidInterfaces d)) = Some (i, hidInterfaces d !!! i))
      as ->; [|done].
    apply list_find_Some. split; [|split; [done|]].
    + rewrite lookup_take_lt by lia. apply list_lookup_lookup_total_lt. lia.
    + intros j y Hj Hji. apply lookup_take_Some in Hj as [Hj _].
      rewrite <-(list_lookup_total_correct _ _ _ Hj). by apply Hfirst.
Qed.

(** C23: an interrupt endpoint of a selected interface, while the endpoint
    table has room, gets the next [epInfo] slot (address masked to 4 bits,
    packet size truncated to 8 bits, toggles cleared, no-wait NAK policy),
    the interface's role entry points to that slot, [bNumEP] grows by one
    and the poll interval becomes the largest [bInterval] seen. *)
Theorem EndpointXtract_binds (sel : Z -> Z -> bool) conf iface alt proto pep d pi d1 :
  wf d ->
  lookup_or_add iface alt proto (set_bConfNum conf d) = Some (pi, d1) ->
  (if sel iface proto then ep_role pep else 0%nat) <> 0%nat ->
  (bNumEP d < totalEndpoints)%nat ->
  let d' := EndpointXtract sel conf iface alt proto pep d in
  bNumEP d' = S (bNumEP d) /\
  epInfo d' !!! bNumEP d = new_epinfo pep /\
  epIndex (hidInterfaces d' !!! pi) !!! (if sel iface proto then ep_role pep else 0%nat)
    = bNumEP d /\
  pollInterval d' = Z.max (pollInterval d) (bInterval pep).
Proof.
  intros Hwf Hl Hidx Hroom.
  assert (Hwf0 : wf (set_bConfNum conf d)) by wf_scalar.
  destruct (lookup_or_add_wf _ _ _ _ _ _ Hwf0 Hl) as [Hwf1 Hpi].
  destruct (lookup_or_add_fields _ _ _ _ _ _ Hl) as (Hn & He & Hp). simpl in Hn, He, Hp.
  pose proof (wf_bNumIface _ Hwf1). pose proof (wf_ifaces_len _ Hwf1).
  assert (Hpi2 : (pi < maxHidInterfaces)%nat) by lia.
  pose proof (wf_iface_at d1 pi Hwf1 Hpi2) as [Hil _].
  pose proof (wf_epInfo_len _ Hwf1). pose proof (ep_role_bound pep).
  unfold EndpointXtract. rewrite Hl. cbv zeta.
  rewrite bool_decide_false by done. unfold bind_endpoint.
  rewrite Hn, bool_decide_false by lia. simpl. rewrite He, Hp.
  rewrite He in H1.
  assert (Hidx3 : ((if sel iface proto then ep_role pep else 0%nat) <
                   length (epIndex (hidInterfaces d1 !!! pi)))%nat).
  { rewrite Hil. destruct (sel iface proto); unfold epInterruptOutIndex, maxEpPerInterface in *; lia. }
  destruct (pollInterval d <? bInterval pep) eqn:Hlt; simpl; rewrite ?Hp;
    (split; [done|]); (split; [apply list_lookup_total_insert_eq; lia|]);
    rewrite list_lookup_total_insert_eq by lia; simpl;
    (rewrite list_lookup_total_insert_eq by done);
    (split; [done|]); rewrite <-pollInterval_max, Hlt; done.
Qed.

(** C24: an endpoint that is not bound (the interface table is full, the
    endpoint is not an interrupt endpoint, the subclass rejects the
    interface, or the endpoint table is full) leaves the endpoint table,
    [bNumEP] and the poll interval as they were: overflow degrades to a
    dropped endpoint, never to a write out of bounds. *)
Theorem EndpointXtract_drops (sel : Z -> Z -> bool) conf iface alt proto pep d :
  (lookup_or_add iface alt proto (set_bConfNum conf d) = None \/
   (if sel iface proto then ep_role pep else 0%nat) = 0%nat \/
   (totalEndpoints <= bNumEP d)%nat) ->
  let d' := EndpointXtract sel conf iface alt proto pep d in
  epInfo d' = epInfo d /\ bNumEP d' = bNumEP d /\ pollInterval d' = pollInterval d.
Proof.
  intros Hc. unfold EndpointXtract.
  destruct (lookup_or_add _ _ _ _) as [[pi d1]|] eqn:Hl; [|done].
  destruct (lookup_or_add_fields _ _ _ _ _ _ Hl) as (Hn & He & Hp). simpl in Hn, He, Hp.
  destruct Hc as [Hc|[Hc|Hc]]; [done| |].
  - cbv zeta. rewrite Hc, bool_decide_true by done. done.
  - cbv zeta. case_bool_decide; [done|].
    unfold bind_endpoint. rewrite bool_decide_true by lia. done.
Qed.

Lemma XtractAll_wf_keys sel calls d :
  wf d -> NoDup (live_keys d) ->
  wf (XtractAll sel calls d) /\ NoDup (live_keys (XtractAll sel calls d)).
Proof.
  unfold XtractAll. revert d. induction calls as [|c calls IH]; intros d Hwf Hnd; simpl.
  - done.
  - apply IH; [by apply EndpointXtract_wf|by apply EndpointXtract_keys].
Qed.

Lemma XtractAll_below sel calls d :
  wf d -> idx_below d -> idx_below (XtractAll sel calls d).
Proof.
  unfold XtractAll. revert d. induction calls as [|c calls IH]; intros d Hwf Hb; simpl.
  - done.
  - apply IH; [by apply EndpointXtract_wf|by apply EndpointXtract_below].
Qed.

(** C3: over any sequence of descriptor-walk callbacks, the tables stay
    well formed (interface and endpoint counts within their capacities,
    every endpoint index below [totalEndpoints], slot 0 the control
    endpoint) and no two live interface entries share a key; and when
    every endpoint index of every interface entry designates a filled
    slot (is below [bNumEP]) before the walk, this stays so after it.
    That premise holds of a constructed object; [Release] breaks it by
    resetting [bNumEP] to 1 while the entries keep their indices. *)
Theorem XtractAll_invariant sel calls d :
  wf d -> NoDup (live_keys d) ->
  wf (XtractAll sel calls d) /\ NoDup (live_keys (XtractAll sel calls d)) /\
  (idx_below d -> idx_below (XtractAll sel calls d)).
Proof.
  intros Hwf Hnd. destruct (XtractAll_wf_keys sel calls d Hwf Hnd) as [Hwf' Hnd'].
  split_and!; [done|done|]. by apply XtractAll_below.
Qed.

(** ** Witnesses *)

(** An interrupt-IN endpoint 0x81, 8-byte packets, polled every 10 ms;
    a bulk endpoint 0x02. *)
Definition sample_ep_in : USB_ENDPOINT_DESCRIPTOR := mkEpDescr 129 3 8 10.
Definition sample_ep_bulk : USB_ENDPOINT_DESCRIPTOR := mkEpDescr 2 2 64 0.

Definition sample_object : HIDComposite :=
  EndpointXtract SelectInterface_default 1 0 0 1 sample_ep_in HIDComposite_new.

Lemma FindInterface_first_match_witness :
  wf sample_object /\
  (FindInterface 0 0 1 sample_object = Some 0%nat <->
   (0 < bNumIface sample_object)%nat /\
   iface_key (hidInterfaces sample_object !!! 0%nat) = (0, 0, 1) /\
   (forall j, (j < 0)%nat -> iface_key (hidInterfaces sample_object !!! j) <> (0, 0, 1))).
Proof.
  split; [apply EndpointXtract_wf, HIDComposite_new_wf|].
  apply (FindInterface_first_match 0 0 1 sample_object 0).
  apply EndpointXtract_wf, HIDComposite_new_wf.
Defined.

Lemma EndpointXtract_binds_witness :
  lookup_or_add 0 0 1 (set_bConfNum 1 HIDComposite_new) =
    Some (0%nat, new_interface 0 0 1 (set_bConfNum 1 HIDComposite_new)) /\
  (let d' := sample_object in
   bNumEP d' = S (bNumEP HIDComposite_new) /\
   epInfo d' !!! bNumEP HIDComposite_new = new_epinfo sample_ep_in /\
   epIndex (hidInterfaces d' !!! 0%nat) !!!
     (if SelectInterface_default 0 1 then ep_role sample_ep_in else 0%nat)
     = bNumEP HIDComposite_new /\
   pollInterval d' = Z.max (pollInterval HIDComposite_new) (bInterval sample_ep_in)).
Proof.
  split; [vm_compute; reflexivity|].
  apply (EndpointXtract_binds SelectInterface_default 1 0 0 1 sample_ep_in HIDComposite_new
           0 (new_interface 0 0 1 (set_bConfNum 1 HIDComposite_new)));
    [apply HIDComposite_new_wf|vm_compute; reflexivity|vm_compute; discriminate|
     vm_compute; lia].
Defined.

Lemma EndpointXtract_drops_witness :
  (lookup_or_add 0 0 1 (set_bConfNum 1 HIDComposite_new) = None \/
   (if SelectInterface_default 0 1 then ep_role sample_ep_bulk else 0%nat) = 0%nat \/
   (totalEndpoints <= bNumEP HIDComposite_new)%nat) /\
  (let d' := EndpointXtract SelectInterface_default 1 0 0 1 sample_ep_bulk HIDComposite_new in
   epInfo d' = epInfo HIDComposite_new /\ bNumEP d' = bNumEP HIDComposite_new /\
   pollInterval d' = pollInterval HIDComposite_new).
Proof.
  assert (H : (if SelectInterface_default 0 1 then ep_role sample_ep_bulk else 0%nat) = 0%nat)
    by reflexivity.
  split; [right; left; exact H|].
  apply (EndpointXtract_drops SelectInterface_default 1 0 0 1 sample_ep_bulk HIDComposite_new).
  right; left; exact H.
Defined.

Lemma HIDComposite_new_below : idx_below HIDComposite_new.
Proof. vm_compute. repeat constructor. Qed.

Lemma XtractAll_invariant_witness :
  wf HIDComposite_new /\ NoDup (live_keys HIDComposite_new) /\ idx_below HIDComposite_new /\
  (let d' := XtractAll SelectInterface_default
               [mkXtract 1 0 0 1 sample_ep_in; mkXtract 1 1 0 1 sample_ep_in] HIDComposite_new in
   wf d' /\ NoDup (live_keys d') /\ idx_below d').
Proof.
  assert (Hnd : NoDup (live_keys HIDComposite_new)) by (vm_compute; constructor).
  split_and!; [apply HIDComposite_new_wf|exact Hnd|apply HIDComposite_new_below|].
  destruct (XtractAll_invariant SelectInterface_default
              [mkXtract 1 0 0 1 sample_ep_in; mkXtract 1 1 0 1 sample_ep_in] HIDComposite_new
              HIDComposite_new_wf Hnd) as (H1 & H2 & H3).
  split_and!; [exact H1|exact H2|exact (H3 HIDComposite_new_below)].
Defined.

(** ** What the extractor leaves alone *)

(** The fields of the object the extractor never writes. *)
Definition untouched (d : HIDComposite) :=
  (rptParsers d, bAddress d, bPollEnable d, bHasReportId d, qNextPollTime d).

Lemma EndpointXtract_untouched sel conf iface alt proto pep d :
  untouched (EndpointXtract sel conf iface alt proto pep d) = untouched d.
Proof.
  unfold EndpointXtract, lookup_or_add, bind_endpoint.
  repeat (case_match || case_bool_decide); simplify_eq/=; done.
Qed.

Lemma XtractAll_untouched sel calls d :
  untouched (XtractAll sel calls d) = untouched d.
Proof.
  unfold XtractAll. revert d. induction calls as [|c calls IH]; intros d; [done|].
  simpl. by rewrite IH, EndpointXtract_untouched.
Qed.
