(* ===== verification/Walker.v ===== *)
(** * The configuration descriptor walker

    [Init] hands a [ConfigDescParser<USB_CLASS_HID, 0, 0,
    CP_MASK_COMPARE_CLASS>] to [USB::getConfDescr] (hidcomposite.cpp:
    203-207); the parser (confdescparser.h, not in src/, modelled from
    section 6 of the spec and the library's parser) walks the bytes of a
    configuration descriptor and calls [EndpointXtract] once per endpoint
    descriptor of an interface of the HID class.

    - [split_descrs] cuts the byte stream into descriptors by their
      [bLength]; a descriptor cut off by the end of the stream is never
      completed, so it ends the walk.  A [bLength] below 2 is outside
      the model: the library computes [dscrLen - 2] in unsigned
      arithmetic and reads on, which neither the spec nor src/ describes;
      [split_descrs] stops the walk there, and every theorem of this file
      is about well-framed streams, on which the choice does not
      matter.
    - [parse_descr] is one step of [ParseDescriptor] on a whole
      descriptor, over the parser's state [WalkState] ([confValue],
      [isGoodInterface], [ifaceNumber], [ifaceAltSet], [protoValue]);
      [walk] runs it over the stream from the state [s0], which C leaves
      partly uninitialised.
    - [ConfigDescr] is the structured configuration the bytes encode, and
      [encode_config] its encoder; [hid_calls] is the reference: the
      calls the spec says the walk makes.

    Theorems: the walk of an encoded configuration is [hid_calls]
    (decode after encode), and composed with the extractor, the object
    only ever records interfaces of the HID class. *)

From S2P Require Import Prelude UsbHost Tables Extract.

Open Scope Z_scope.

(** ** Descriptor types and the class filter (usb_ch9.h, UsbCore.h) *)

Definition USB_DESCRIPTOR_CONFIGURATION : Z := 2.
Definition USB_DESCRIPTOR_INTERFACE : Z := 4.
Definition USB_DESCRIPTOR_ENDPOINT : Z := 5.
Definition USB_CLASS_HID : Z := 3.

(** ** The parser *)

Record WalkState := mkWalkState {
  confValue : Z;
  isGoodInterface : bool;
  ifaceNumber : Z;
  ifaceAltSet : Z;
  protoValue : Z
}.

(** The descriptors of a stream, by their [bLength] (at most [fuel]).
    A descriptor running past the end of the stream is never complete
    and makes no call.  A [bLength] below 2 (malformed, outside the
    model, see above) stops the walk. *)
Fixpoint split_descrs (fuel : nat) (bs : list Z) : list (list Z) :=
  match fuel with
  | O => []
  | S f =>
      match bs with
      | [] => []
      | len :: _ =>
          if (len <? 2) || (Z.of_nat (length bs) <? len) then []
          else take (Z.to_nat len) bs :: split_descrs f (drop (Z.to_nat len) bs)
      end
  end.

(** The [USB_ENDPOINT_DESCRIPTOR] the parser hands over, read from its
    buffer. *)
Definition decode_ep (dsc : list Z) : USB_ENDPOINT_DESCRIPTOR :=
  mkEpDescr (byte_at dsc 2) (byte_at dsc 3) (word_at dsc 4) (byte_at dsc 6).

(** [ParseDescriptor], states 3 and 4, on one whole descriptor. *)
Definition parse_descr (s : WalkState) (dsc : list Z) : WalkState * list XtractCall :=
  let typ := byte_at dsc 1 in
  if typ =? USB_DESCRIPTOR_CONFIGURATION then
    (mkWalkState (byte_at dsc 5) (isGoodInterface s) (ifaceNumber s) (ifaceAltSet s)
                 (protoValue s), [])
  else if typ =? USB_DESCRIPTOR_INTERFACE then
    if negb (byte_at dsc 5 =? USB_CLASS_HID)
    then (mkWalkState (confValue s) false (ifaceNumber s) (ifaceAltSet s) (protoValue s), [])
    else (mkWalkState (confValue s) true (byte_at dsc 2) (byte_at dsc 3) (byte_at dsc 7), [])
  else if typ =? USB_DESCRIPTOR_ENDPOINT then
    (s, if isGoodInterface s
        then [mkXtract (confValue s) (ifaceNumber s) (ifaceAltSet s) (protoValue s)
                       (decode_ep dsc)]
        else [])
  else (s, []).

(** The parser over a sequence of descriptors: its final state and the
    calls it made, in order. *)
Fixpoint walk_run (s : WalkState) (ds : list (list Z)) : WalkState * list XtractCall :=
  match ds with
  | [] => (s, [])
  | dsc :: ds' =>
      let '(s1, c1) := parse_descr s dsc in
      let '(s2, c2) := walk_run s1 ds' in (s2, c1 ++ c2)
  end.

(** The [EndpointXtract] calls of a walk over the bytes [bs]. *)
Definition walk (s0 : WalkState) (bs : list Z) : list XtractCall :=
  snd (walk_run s0 (split_descrs (length bs) bs)).

(** ** Structured configurations and their encoding *)

Record IfaceDescr := mkIfaceDescr {
  if_number : Z;
  if_alt : Z;
  if_class : Z;
  if_subclass : Z;
  if_protocol : Z;
  if_extra : list (list Z);            (* class-specific descriptors, e.g. HID *)
  if_eps : list USB_ENDPOINT_DESCRIPTOR
}.

Record ConfigDescr := mkConfigDescr {
  cf_value : Z;
  cf_ifaces : list IfaceDescr
}.

Definition encode_ep (ep : USB_ENDPOINT_DESCRIPTOR) : list Z :=
  [7; USB_DESCRIPTOR_ENDPOINT; bEndpointAddress ep; bmAttributes ep;
   wMaxPacketSize ep mod 256; wMaxPacketSize ep / 256; bInterval ep].

Definition iface_descrs (i : IfaceDescr) : list (list Z) :=
  [9; USB_DESCRIPTOR_INTERFACE; if_number i; if_alt i; Z.of_nat (length (if_eps i));
   if_class i; if_subclass i; if_protocol i; 0]
  :: if_extra i ++ map encode_ep (if_eps i).

Definition config_descrs (c : ConfigDescr) : list (list Z) :=
  [9; USB_DESCRIPTOR_CONFIGURATION; 0; 0; Z.of_nat (length (cf_ifaces c)); cf_value c; 0; 128; 50]
  :: concat (map iface_descrs (cf_ifaces c)).

Definition encode_config (c : ConfigDescr) : list Z := concat (config_descrs c).

(** A class-specific descriptor the walker skips: its [bLength] is its
    length, at least 2, and its type is none of the three it reads. *)
Definition extra_ok (dsc : list Z) : Prop :=
  exists len typ rest, dsc = len :: typ :: rest /\ len = Z.of_nat (length dsc) /\
    typ <> USB_DESCRIPTOR_CONFIGURATION /\ typ <> USB_DESCRIPTOR_INTERFACE /\
    typ <> USB_DESCRIPTOR_ENDPOINT.

Definition config_ok (c : ConfigDescr) : Prop :=
  Forall (fun i => Forall extra_ok (if_extra i)) (cf_ifaces c).

(** The reference: one call per endpoint of an HID-class interface, in
    order, with the configuration value and the interface's key. *)
Definition hid_calls (c : ConfigDescr) : list XtractCall :=
  concat (map (fun i => if if_class i =? USB_CLASS_HID
                        then map (mkXtract (cf_value c) (if_number i) (if_alt i) (if_protocol i))
                                 (if_eps i)
                        else [])
              (cf_ifaces c)).

(** ** Lemmas: cutting the stream *)

(** A descriptor whose [bLength] is its length, at least 2. *)
Definition framed (dsc : list Z) : Prop :=
  exists rest, dsc = Z.of_nat (length dsc) :: rest /\ (2 <= length dsc)%nat.

Lemma split_descrs_app fuel ds tl :
  Forall framed ds -> (length ds <= fuel)%nat ->
  split_descrs fuel (concat ds ++ tl) = ds ++ split_descrs (fuel - length ds) tl.
Proof.
  revert fuel. induction ds as [|d ds IH]; intros fuel Hf Hl; simpl.
  - by rewrite Nat.sub_0_r.
  - destruct fuel as [|fuel]; [simpl in Hl; lia|].
    apply list.Forall_cons in Hf as [(rest & Hd & H2) Hf].
    destruct d as [|x r]; [simpl in H2; lia|]. injection Hd as Hx _. simpl in Hx, H2.
    rewrite <-app_assoc. cbn [app split_descrs].
    change (x :: r ++ concat ds ++ tl) with ((x :: r) ++ concat ds ++ tl).
    replace ((x <? 2) || (Z.of_nat (length ((x :: r) ++ concat ds ++ tl)) <? x)) with false
      by (rewrite length_app; simpl; symmetry; apply orb_false_iff; split; apply Z.ltb_ge; lia).
    replace (Z.to_nat x) with (length (x :: r)) by (simpl; lia).
    rewrite take_app_length, drop_app_length.
    f_equal. apply IH; [done|simpl in Hl; lia].
Qed.

Lemma split_descrs_concat fuel ds :
  Forall framed ds -> (length ds <= fuel)%nat -> split_descrs fuel (concat ds) = ds.
Proof.
  intros Hf Hl. rewrite <-(app_nil_r (concat ds)), split_descrs_app by done.
  by destruct (fuel - length ds)%nat; simpl; rewrite app_nil_r.
Qed.

Lemma length_concat_framed ds :
  Forall framed ds -> (length ds <= length (concat ds))%nat.
Proof.
  induction 1 as [|d ds (rest & Hd & H2) _ IH]; simpl; [lia|].
  rewrite length_app. lia.
Qed.

Lemma encode_ep_framed ep : framed (encode_ep ep).
Proof. by eexists; split; [reflexivity|simpl; lia]. Qed.

Lemma extra_ok_framed dsc : extra_ok dsc -> framed dsc.
Proof.
  intros (len & typ & rest & -> & Hlen & _).
  exists (typ :: rest). split; [by f_equal|simpl; lia].
Qed.

Lemma config_descrs_framed c : config_ok c -> Forall framed (config_descrs c).
Proof.
  intros Hc. constructor; [eexists; split; [reflexivity|simpl; lia]|].
  apply Forall_concat, Forall_fmap. eapply list.Forall_impl; [exact Hc|].
  intros i Hx. simpl. constructor; [eexists; split; [reflexivity|simpl; lia]|].
  apply Forall_app. split.
  - eapply list.Forall_impl; [exact Hx|]. apply extra_ok_framed.
  - apply Forall_fmap, Forall_forall. intros ep _. apply encode_ep_framed.
Qed.

(** ** Lemmas: the parser on encoded descriptors *)

Lemma walk_run_app s ds1 ds2 :
  walk_run s (ds1 ++ ds2) =
  let '(s1, c1) := walk_run s ds1 in let '(s2, c2) := walk_run s1 ds2 in (s2, c1 ++ c2).
Proof.
  revert s. induction ds1 as [|d ds1 IH]; intros s; simpl.
  - by destruct (walk_run s ds2).
  - destruct (parse_descr s d) as [s1 c1]. rewrite IH.
    destruct (walk_run s1 ds1) as [s2 c2]. destruct (walk_run s2 ds2) as [s3 c3].
    by rewrite app_assoc.
Qed.

Lemma walk_extras s ds : Forall extra_ok ds -> walk_run s ds = (s, []).
Proof.
  induction 1 as [|d ds (len & typ & rest & -> & _ & H2 & H4 & H5) _ IH]; [done|].
  simpl. unfold parse_descr, byte_at. simpl.
  rewrite (proj2 (Z.eqb_neq _ _) H2), (proj2 (Z.eqb_neq _ _) H4), (proj2 (Z.eqb_neq _ _) H5).
  by rewrite IH.
Qed.

Lemma decode_encode_ep ep : decode_ep (encode_ep ep) = ep.
Proof.
  destruct ep as [ad attr w iv]. unfold decode_ep, encode_ep, word_at, byte_at. simpl.
  f_equal. pose proof (Z.div_mod w 256). lia.
Qed.

Lemma parse_encode_ep s ep :
  parse_descr s (encode_ep ep) =
  (s, if isGoodInterface s
      then [mkXtract (confValue s) (ifaceNumber s) (ifaceAltSet s) (protoValue s) ep]
      else []).
Proof.
  unfold parse_descr. change (byte_at (encode_ep ep) 1) with USB_DESCRIPTOR_ENDPOINT.
  simpl. by rewrite decode_encode_ep.
Qed.

Lemma walk_eps s eps :
  walk_run s (map encode_ep eps) =
  (s, if isGoodInterface s
      then map (mkXtract (confValue s) (ifaceNumber s) (ifaceAltSet s) (protoValue s)) eps
      else []).
Proof.
  induction eps as [|ep eps IH]; cbn [map walk_run]; [by destruct (isGoodInterface s)|].
  rewrite parse_encode_ep, IH. by destruct (isGoodInterface s).
Qed.

Lemma walk_iface s i :
  Forall extra_ok (if_extra i) ->
  exists s', walk_run s (iface_descrs i) =
    (s', if if_class i =? USB_CLASS_HID
         then map (mkXtract (confValue s) (if_number i) (if_alt i) (if_protocol i)) (if_eps i)
         else []) /\ confValue s' = confValue s.
Proof.
  intros Hx. unfold iface_descrs. cbn [walk_run].
  unfold parse_descr at 1, byte_at. simpl.
  destruct (if_class i =? USB_CLASS_HID); simpl;
    rewrite walk_run_app, walk_extras, walk_eps by done; simpl; by eexists.
Qed.

Lemma walk_ifaces s ifs :
  Forall (fun i => Forall extra_ok (if_extra i)) ifs ->
  exists s', walk_run s (concat (map iface_descrs ifs)) =
    (s', concat (map (fun i => if if_class i =? USB_CLASS_HID
                               then map (mkXtract (confValue s) (if_number i) (if_alt i)
                                                  (if_protocol i)) (if_eps i)
                               else []) ifs)) /\ confValue s' = confValue s.
Proof.
  revert s. induction ifs as [|i ifs IH]; intros s Hx; cbn [map concat]; [by eexists|].
  apply list.Forall_cons in Hx as [Hi Hx].
  destruct (walk_iface s i Hi) as (s1 & Hw1 & Hc1).
  destruct (IH s1 Hx) as (s2 & Hw2 & Hc2).
  rewrite walk_run_app, Hw1, Hw2, Hc1. exists s2. split; [done|congruence].
Qed.

Lemma walk_encode_calls s0 c : config_ok c -> walk s0 (encode_config c) = hid_calls c.
Proof.
  intros Hc. pose proof (config_descrs_framed c Hc) as Hf.
  unfold walk, encode_config. rewrite split_descrs_concat by (done || by apply length_concat_framed).
  unfold config_descrs. cbn [walk_run]. unfold parse_descr at 1, byte_at. simpl.
  destruct (walk_ifaces (mkWalkState (cf_value c) (isGoodInterface s0) (ifaceNumber s0)
                           (ifaceAltSet s0) (protoValue s0)) (cf_ifaces c) Hc) as (s' & -> & _).
  done.
Qed.

Lemma hid_calls_elem c x :
  x ∈ hid_calls c ->
  exists i ep, i ∈ cf_ifaces c /\ if_class i = USB_CLASS_HID /\ ep ∈ if_eps i /\
    x = mkXtract (cf_value c) (if_number i) (if_alt i) (if_protocol i) ep.
Proof.
  unfold hid_calls. rewrite !list_elem_of_In, in_concat. intros (l & Hl & Hx).
  apply in_map_iff in Hl as (i & <- & Hi).
  destruct (Z.eqb_spec (if_class i) USB_CLASS_HID) as [Hc|]; [|done].
  apply in_map_iff in Hx as (ep & <- & Hep). exists i, ep. by rewrite !list_elem_of_In.
Qed.

(** ** The walker's theorems *)

(** C4: decoding after encoding: the walk of the bytes of a configuration
    descriptor, whatever state the parser starts in, makes exactly the
    [EndpointXtract] calls of the reference [hid_calls]: one per endpoint
    descriptor of each HID-class interface, in order, with the
    configuration value and the interface's number, alternate setting and
    protocol, and the endpoint descriptor read back field for field;
    class-specific descriptors and the endpoints of other classes are
    skipped. *)
Theorem walk_encode s0 c : config_ok c -> walk s0 (encode_config c) = hid_calls c.
Proof. apply walk_encode_calls. Qed.

(** C5: the walker composed with the extractor: on an object with no live
    interface, every interface [Init]'s walk of a configuration leaves
    recorded is an HID-class interface of that configuration with at
    least one endpoint; interfaces of other classes never enter the
    table. *)
Theorem walk_records_hid_only sel s0 c d k :
  config_ok c -> wf d -> live_keys d = [] ->
  k ∈ live_keys (XtractAll sel (walk s0 (encode_config c)) d) ->
  exists i, i ∈ cf_ifaces c /\ if_class i = USB_CLASS_HID /\ if_eps i <> [] /\
    k = (if_number i, if_alt i, if_protocol i).
Proof.
  intros Hc Hwf Hnil Hk. rewrite walk_encode_calls in Hk by done.
  destruct (XtractAll_keys_from sel _ d k Hwf Hk) as [Hin|(x & Hx & ->)].
  - rewrite Hnil in Hin. by apply list.not_elem_of_nil in Hin.
  - destruct (hid_calls_elem c x Hx) as (i & ep & Hi & Hcl & Hep & ->).
    exists i. split_and!; [done|done| |done].
    intros Heps. rewrite Heps in Hep. by apply list.not_elem_of_nil in Hep.
Qed.

(** ** Witnesses *)

(** A composite device's configuration 1: a boot keyboard (interface 0,
    HID, protocol 1, with its HID class descriptor and an interrupt-IN
    endpoint), a mass-storage interface 1 (class 8, two bulk endpoints)
    and a boot mouse (interface 2, HID, protocol 2). *)
Definition sample_config : ConfigDescr :=
  mkConfigDescr 1
    [mkIfaceDescr 0 0 USB_CLASS_HID 1 1 [[9; 33; 17; 1; 0; 1; 34; 63; 0]] [sample_ep_in];
     mkIfaceDescr 1 0 8 6 80 [] [sample_ep_bulk; mkEpDescr 130 2 64 0];
     mkIfaceDescr 2 0 USB_CLASS_HID 1 2 [[9; 33; 17; 1; 0; 1; 34; 52; 0]] [mkEpDescr 131 3 4 10]].

Definition sample_walk_state : WalkState := mkWalkState 0 false 0 0 0.

Lemma sample_config_ok : config_ok sample_config.
Proof.
  repeat constructor; do 3 eexists; (split; [reflexivity|]); vm_compute;
    repeat split; discriminate.
Qed.

Lemma walk_encode_witness :
  config_ok sample_config /\
  walk sample_walk_state (encode_config sample_config) =
    [mkXtract 1 0 0 1 sample_ep_in; mkXtract 1 2 0 2 (mkEpDescr 131 3 4 10)].
Proof.
  split; [apply sample_config_ok|].
  rewrite (walk_encode sample_walk_state sample_config sample_config_ok).
  vm_compute. reflexivity.
Defined.

Lemma walk_records_hid_only_witness :
  config_ok sample_config /\ wf HIDComposite_new /\ live_keys HIDComposite_new = [] /\
  (0, 0, 1) ∈ live_keys (XtractAll SelectInterface_default
                          (walk sample_walk_state (encode_config sample_config))
                          HIDComposite_new) /\
  exists i, i ∈ cf_ifaces sample_config /\ if_class i = USB_CLASS_HID /\ if_eps i <> [] /\
    (0, 0, 1) = (if_number i, if_alt i, if_protocol i).
Proof.
  assert (Hnil : live_keys HIDComposite_new = []) by (vm_compute; reflexivity).
  assert (Hk : (0, 0, 1) ∈ live_keys (XtractAll SelectInterface_default
                          (walk sample_walk_state (encode_config sample_config))
                          HIDComposite_new)) by (vm_compute; left).
  split_and!; [apply sample_config_ok|apply HIDComposite_new_wf|exact Hnil|exact Hk|].
  exact (walk_records_hid_only SelectInterface_default sample_walk_state sample_config
           HIDComposite_new _ sample_config_ok HIDComposite_new_wf Hnil Hk).
Defined.
