(* ===== verification/Driver.v ===== *)
(** * The driver's public operations: [Release], [Init], [Poll], [SndRpt]

    The world the driver lives in is the address pool, the bus, the
    driver object and the trace of the calls the driver issued
    ([World]); a C method is a computation of [M], the state monad of
    [Prelude.v] over that world.  The collaborators are the classes
    [AddressPool] and [UsbTransport] of [UsbHost.v]: the definitions of
    this file hold for every pool and every bus, and their theorems assume
    only the laws [AddressPoolLaws].

    - [Release] (hidcomposite.cpp:358-366).
    - [Init] (lines 94-287), with its configuration loop [conf_loop]
      (lines 201-214) and its idle loop [idle_loop] (lines 232-242).  The
      [goto] chain falls through to [Release(); return rcode;]: [Fail].
      The stack buffer [buf] of [Init] is not initialised in C; its
      indeterminate contents are the argument [buf0].
    - [Poll] (lines 373-428) and its loop [poll_loop] (lines 384-424),
      which clears the stack buffer with [ZeroMemory] (lines 368-371)
      before each transfer; the buffer's contents on entry are the
      argument [buf0] of [Poll].
    - [SndRpt] (lines 431-433). *)

From S2P Require Import Prelude UsbHost Tables Registry Extract.

Open Scope Z_scope.

Record World (P B : Type) := mkWorld {
  w_pool : P;
  w_bus : B;
  w_drv : HIDComposite;
  w_trace : list Event
}.
Arguments mkWorld {P B}.
Arguments w_pool {P B}.
Arguments w_bus {P B}.
Arguments w_drv {P B}.
Arguments w_trace {P B}.

Section Driver.

Context {P B : Type} `{AddressPool P} `{UsbTransport B}.

(** The subclass hook of [EndpointXtract]. *)
Variable SelectInterface : Z -> Z -> bool.

Definition M (A : Type) : Type := ST (World P B) A.

(** ** Primitive steps *)

Definition drv_get : M HIDComposite := fun w => (w_drv w, w).

Definition drv_modify (f : HIDComposite -> HIDComposite) : M unit :=
  fun w => (tt, mkWorld (w_pool w) (w_bus w) (f (w_drv w)) (w_trace w)).

Definition pool_get (a : Z) : M (option UsbDevice) :=
  fun w => (GetUsbDevicePtr (w_pool w) a, w).

Definition pool_set (a : Z) (dev : UsbDevice) : M unit :=
  fun w => (tt, mkWorld (SetUsbDevice a dev (w_pool w)) (w_bus w) (w_drv w) (w_trace w)).

Definition pool_alloc (parent : Z) (hub : bool) (port : Z) : M Z :=
  fun w => let '(a, p) := AllocAddress parent hub port (w_pool w) in
           (a, mkWorld p (w_bus w) (w_drv w) (w_trace w)).

Definition pool_free (a : Z) : M unit :=
  fun w => (tt, mkWorld (FreeAddress a (w_pool w)) (w_bus w) (w_drv w) (w_trace w)).

(** A call to the transport, recorded in the trace. *)
Definition bus_call {A} (ev : Event) (f : B -> A * B) : M A :=
  fun w => let '(a, b) := f (w_bus w) in
           (a, mkWorld (w_pool w) b (w_drv w) (w_trace w ++ [ev])).

(** A call to a hook of the subclass or of a parser, recorded. *)
Definition emit (ev : Event) : M unit :=
  fun w => (tt, mkWorld (w_pool w) (w_bus w) (w_drv w) (w_trace w ++ [ev])).

(** [p->field = v] through the pointer of the pool entry [a]. *)
Definition dev_update (a : Z) (f : UsbDevice -> UsbDevice) : M unit :=
  p <- pool_get a ;;
  match p with Some p => pool_set a (f p) | None => st_ret tt end.

(** [USB::setEpInfoEntry(addr, epcount, epInfo)] (Usb.cpp): points the
    pool entry of [addr] at this driver's endpoint table. *)
Definition setEpInfoEntry (addr : Z) (epcount : nat) : M Z :=
  p <- pool_get addr ;;
  match p with
  | None => st_ret USB_ERROR_ADDRESS_NOT_FOUND_IN_POOL
  | Some p => pool_set addr (mkUsbDevice (Some OwnEpInfo) addr epcount (lowspeed p)) ;;
              st_ret 0
  end.

(** ** [Release()] *)
Definition Release : M Z :=
  d <- drv_get ;;
  pool_free (bAddress d) ;;
  drv_modify (fun d => set_bPollEnable false (set_qNextPollTime 0
                         (set_bAddress 0 (set_bNumEP 1 d)))) ;;
  st_ret 0.

(** The labels [FailGetDevDescr] ... [Fail] without [DEBUG_USB_HOST]. *)
Definition Fail (rcode : Z) : M Z := Release ;; st_ret rcode.

(** ** [Init(parent, port, lowspeed)] *)

(** The configuration loop: [getConfDescr] runs the descriptor walker,
    whose [EndpointXtract] calls are applied in order; the loop stops at
    a transport error or once more than one endpoint is known. *)
Fixpoint conf_loop (k : nat) (i addr : Z) : M Z :=
  match k with
  | O => st_ret 0
  | S k' =>
      r <- bus_call (EvGetConfDescr addr 0 i) (getConfDescr addr 0 i) ;;
      let '(rcode, calls) := r in
      drv_modify (XtractAll SelectInterface calls) ;;
      if nz rcode then st_ret rcode else
      d <- drv_get ;;
      if bool_decide (1 < bNumEP d)%nat then st_ret 0
      else conf_loop k' (i + 1) addr
  end.

(** The idle loop: [Some rcode] is the [goto FailSetIdle]. *)
Fixpoint idle_loop (k i : nat) : M (option Z) :=
  match k with
  | O => st_ret None
  | S k' =>
      d <- drv_get ;;
      let hi := hidInterfaces d !!! i in
      if bool_decide (epIndex hi !!! epInterruptInIndex = 0%nat) then idle_loop k' (S i)
      else
        rcode <- bus_call (EvSetIdle (bAddress d) (bmInterface hi) 0 0)
                          (SetIdleReq (bAddress d) (bmInterface hi) 0 0) ;;
        if nz rcode && negb (rcode =? hrSTALL) then st_ret (Some rcode)
        else idle_loop k' (S i)
  end.

(** [(buf[0] > constBufSize) ? constBufSize : buf[0]] *)
Definition descr_len (buf : list Z) : Z :=
  if byte_at buf udd_bLength >? constBufSize then constBufSize
  else byte_at buf udd_bLength.

(** [epInfo[0].maxPktSize = udd->bMaxPacketSize0] *)
Definition set_ep0_maxPktSize (v : Z) (d : HIDComposite) : HIDComposite :=
  let e := epInfo d !!! 0%nat in
  set_epInfo (<[0%nat := mkEpInfo (epAddr e) v (bmSndToggle e) (bmRcvToggle e)
                                  (bmNakPower e)]> (epInfo d)) d.

(** A descriptor read of [n] bytes into [buf]: the transport writes at
    most [n] bytes. *)
Definition read_descr (buf : list Z) (n : Z) (data : list Z) : list Z :=
  store_bytes buf (take (Z.to_nat n) data).

(** Lines 182-287, once the new address [a] is assigned. *)
Definition Init_configure (a : Z) (ls : bool) (len : Z) (buf : list Z) : M Z :=
  dev_update a (set_lowspeed ls) ;;
  r <- (if nz len then bus_call (EvGetDevDescr a 0 len) (getDevDescr a 0 len)
        else st_ret (0, [])) ;;
  let '(rcode, data) := r in
  let buf := read_descr buf len data in
  if nz rcode then Fail rcode else
  drv_modify (set_VID_PID (word_at buf udd_idVendor) (word_at buf udd_idProduct)) ;;
  let num_of_conf := byte_at buf udd_bNumConfigurations in
  rcode <- setEpInfoEntry a 1 ;;
  if nz rcode then Fail rcode else
  rcode <- conf_loop (Z.to_nat num_of_conf) 0 a ;;
  if nz rcode then Fail rcode else
  d <- drv_get ;;
  if bool_decide (bNumEP d < 2)%nat
  then st_ret USB_DEV_CONFIG_ERROR_DEVICE_NOT_SUPPORTED else
  _ <- setEpInfoEntry a (bNumEP d) ;;
  rcode <- bus_call (EvSetConf a 0 (bConfNum d)) (setConf a 0 (bConfNum d)) ;;
  if nz rcode then Fail rcode else
  r <- idle_loop (bNumIface d) 0 ;;
  match r with
  | Some rcode => Fail rcode
  | None => emit EvOnInitSuccessful ;;
            drv_modify (set_bPollEnable true) ;;
            st_ret 0
  end.

Definition Init (parent port : Z) (ls : bool) (buf0 : list Z) : M Z :=
  d <- drv_get ;;
  if nz (bAddress d) then st_ret USB_ERROR_CLASS_INSTANCE_ALREADY_IN_USE else
  p <- pool_get 0 ;;
  match p with
  | None => st_ret USB_ERROR_ADDRESS_NOT_FOUND_IN_POOL
  | Some p =>
  match epinfo p with
  | None => st_ret USB_ERROR_EPINFO_IS_NULL
  | Some oldep_ptr =>
  pool_set 0 (set_lowspeed ls (set_epinfo (Some OwnEpInfo) p)) ;;
  r <- bus_call (EvGetDevDescr 0 0 8) (getDevDescr 0 0 8) ;;
  let '(rcode, data) := r in
  let buf := read_descr buf0 8 data in
  let len := if nz rcode then 0 else descr_len buf in
  dev_update 0 (set_epinfo (Some oldep_ptr)) ;;
  if nz rcode then Fail rcode else
  a <- pool_alloc parent false port ;;
  drv_modify (set_bAddress a) ;;
  if negb (nz a) then st_ret USB_ERROR_OUT_OF_ADDRESS_SPACE_IN_POOL else
  drv_modify (set_ep0_maxPktSize (byte_at buf udd_bMaxPacketSize0)) ;;
  rcode <- bus_call (EvSetAddr 0 0 a) (setAddr 0 0 a) ;;
  if nz rcode then
    dev_update 0 (set_lowspeed false) ;;
    pool_free a ;;
    drv_modify (set_bAddress 0) ;;
    st_ret rcode
  else
  dev_update 0 (set_lowspeed false) ;;
  p <- pool_get a ;;
  match p with
  | None => st_ret USB_ERROR_ADDRESS_NOT_FOUND_IN_POOL
  | Some _ => Init_configure a ls len buf
  end end end.

(** ** [Poll()] *)

(** [(int32_t)((uint32_t)millis() - qNextPollTime) >= 0L] *)
Definition deadline_elapsed (now next : Z) : bool :=
  signed32 (wrap32 (wrap32 now - next)) >=? 0.

(** [ZeroMemory(len, buf)] (lines 368-371): [buf[i] = 0] for [i] from 0
    below [len]; the [uint8_t] counter never wraps since [len] is a
    [uint8_t] too. *)
Fixpoint ZeroMemory_loop (k i : nat) (buf : list Z) : list Z :=
  match k with
  | O => buf
  | S k' => ZeroMemory_loop k' (S i) (<[i := 0]> buf)
  end.

Definition ZeroMemory (len : Z) (buf : list Z) : list Z :=
  ZeroMemory_loop (Z.to_nat len) 0 buf.

(** One iteration of the loop of lines 384-424 on interface [i], with
    the contents of [buf] before it; it returns [buf] after it. *)
Definition poll_iface (i : nat) (buf : list Z) : M (list Z) :=
  d <- drv_get ;;
  let index := epIndex (hidInterfaces d !!! i) !!! epInterruptInIndex in
  if bool_decide (index = 0%nat) then st_ret buf else
  let ep := epInfo d !!! index in
  let buf := ZeroMemory constBuffLen buf in
  r <- bus_call (EvInTransfer (bAddress d) (epAddr ep) (maxPktSize ep))
                (inTransfer (bAddress d) (epAddr ep) (maxPktSize ep)) ;;
  let '(rcode, read, data) := r in
  if nz rcode then st_ret buf else
  let buf := store_bytes buf data in
  if read =? 0 then st_ret buf else
  let read := if read >? constBuffLen then constBuffLen else read in
  emit (EvParseHIDData (epAddr ep) (bHasReportId d) read buf) ;;
  match GetReportParser (if bHasReportId d then byte_at buf 0 else 0) d with
  | Some prs => emit (EvParse prs (bHasReportId d) read buf) ;; st_ret buf
  | None => st_ret buf
  end.

Fixpoint poll_loop (k i : nat) (buf : list Z) : M unit :=
  match k with
  | O => st_ret tt
  | S k' => buf' <- poll_iface i buf ;; poll_loop k' (S i) buf'
  end.

(** The inner [uint8_t rcode] of the loop shadows the outer one: [Poll]
    returns the outer [rcode], which stays 0.  The stack buffer
    [buf[constBuffLen]] of line 382 is not initialised in C; its
    indeterminate contents are the argument [buf0]. *)
Definition Poll (buf0 : list Z) : M Z :=
  d <- drv_get ;;
  if negb (bPollEnable d) then st_ret 0 else
  now <- bus_call EvMillis millis ;;
  if deadline_elapsed now (qNextPollTime d) then
    now2 <- bus_call EvMillis millis ;;
    drv_modify (fun d => set_qNextPollTime (wrap32 (wrap32 now2 + pollInterval d)) d) ;;
    d <- drv_get ;;
    poll_loop (bNumIface d) 0 buf0 ;;
    st_ret 0
  else st_ret 0.

(** ** [SndRpt(nbytes, dataptr)] *)
Definition SndRpt (nbytes : Z) (data : list Z) : M Z :=
  d <- drv_get ;;
  let ep := epAddr (epInfo d !!! epInterruptOutIndex) in
  bus_call (EvOutTransfer (bAddress d) ep nbytes) (outTransfer (bAddress d) ep nbytes data).

End Driver.

(** ** Properties of [Poll] *)

Section PollProps.

Context {P B : Type} `{AddressPool P} `{UsbTransport B}.

(** The read request [Poll] issues for interface [i] of [d], if any. *)
Definition in_request (d : HIDComposite) (i : nat) : option Event :=
  let index := epIndex (hidInterfaces d !!! i) !!! epInterruptInIndex in
  if bool_decide (index = 0%nat) then None
  else Some (EvInTransfer (bAddress d) (epAddr (epInfo d !!! index))
                          (maxPktSize (epInfo d !!! index))).

(** The dispatches to the subclass hook and to a parser. *)
Definition is_dispatch (e : Event) : bool :=
  match e with EvParseHIDData _ _ _ _ | EvParse _ _ _ _ => true | _ => false end.

(** The transport never delivers a non-empty report. *)
Definition no_report_data : Prop :=
  forall a ep n (b : B), let '((rc, read, _), _) := inTransfer a ep n b in
                         rc <> 0 \/ read = 0.

Lemma poll_iface_spec i buf (w : World P B) :
  exists evs b' buf',
    poll_iface i buf w = (buf', mkWorld (w_pool w) b' (w_drv w) (w_trace w ++ evs)) /\
    filter is_in_transfer evs = option_list (in_request (w_drv w) i) /\
    (no_report_data -> filter is_dispatch evs = []).
Proof.
  destruct w as [p b d tr]. unfold poll_iface, in_request, st_bind, drv_get; simpl.
  case_bool_decide as Hidx.
  { exists [], b, buf. rewrite app_nil_r. done. }
  unfold bus_call. simpl.
  destruct (inTransfer _ _ _ b) as [[[rc rd] data] b1] eqn:Hin. simpl.
  destruct (nz rc) eqn:Hrc.
  { eexists [_], b1, _. split; [done|]. split; [done|]. intros _. done. }
  destruct (Z.eqb_spec rd 0) as [->|Hrd].
  { eexists [_], b1, _. split; [done|]. split; [done|]. intros _. done. }
  unfold emit. simpl.
  assert (Hno : no_report_data -> False).
  { intros Hnd. specialize (Hnd (bAddress d) (epAddr (epInfo d !!! (epIndex (hidInterfaces d !!! i) !!! epInterruptInIndex)))
      (maxPktSize (epInfo d !!! (epIndex (hidInterfaces d !!! i) !!! epInterruptInIndex))) b).
    rewrite Hin in Hnd. apply nz_false in Hrc. lia. }
  destruct (GetReportParser _ _) as [prs|]; simpl.
  - eexists [_; _; _], b1, _. rewrite <-!app_assoc. split; [done|]. split; [done|].
    intros Hnd. by destruct (Hno Hnd).
  - eexists [_; _], b1, _. rewrite <-!app_assoc. split; [done|]. split; [done|].
    intros Hnd. by destruct (Hno Hnd).
Qed.

Lemma poll_loop_spec k i buf (w : World P B) :
  exists evs b',
    poll_loop k i buf w = (tt, mkWorld (w_pool w) b' (w_drv w) (w_trace w ++ evs)) /\
    filter is_in_transfer evs = omap (in_request (w_drv w)) (seq i k) /\
    (no_report_data -> filter is_dispatch evs = []).
Proof.
  revert i buf w. induction k as [|k IH]; intros i buf w; simpl.
  - exists [], (w_bus w). destruct w. by rewrite app_nil_r.
  - destruct (poll_iface_spec i buf w) as (evs1 & b1 & buf1 & Hi & Hf1 & Hd1).
    unfold st_bind. rewrite Hi.
    destruct (IH (S i) buf1 (mkWorld (w_pool w) b1 (w_drv w) (w_trace w ++ evs1)))
      as (evs2 & b2 & Hl & Hf2 & Hd2). simpl in *.
    rewrite Hl. exists (evs1 ++ evs2), b2. rewrite app_assoc.
    split; [done|]. rewrite !list.filter_app, Hf1, Hf2. split.
    + by destruct (in_request _ _).
    + intros Hnd. by rewrite Hd1, Hd2.
Qed.

(** [Poll] once the deadline has elapsed. *)
Lemma Poll_fire buf0 (w : World P B) now b1 now2 b2 :
  bPollEnable (w_drv w) = true ->
  millis (w_bus w) = (now, b1) ->
  deadline_elapsed now (qNextPollTime (w_drv w)) = true ->
  millis b1 = (now2, b2) ->
  exists evs b',
    Poll buf0 w = (0, mkWorld (w_pool w) b'
                   (set_qNextPollTime (wrap32 (wrap32 now2 + pollInterval (w_drv w))) (w_drv w))
                   (w_trace w ++ [EvMillis; EvMillis] ++ evs)) /\
    filter is_in_transfer evs = omap (in_request (w_drv w)) (seq 0 (bNumIface (w_drv w))).
Proof.
  destruct w as [p b d tr]. simpl. intros Hen Hm1 Hd Hm2.
  unfold Poll, st_bind, drv_get, bus_call, drv_modify. simpl.
  rewrite Hen. simpl. rewrite Hm1. simpl. rewrite Hd. simpl. rewrite Hm2. simpl.
  match goal with |- context [poll_loop ?k ?i ?bf ?w0] =>
    destruct (poll_loop_spec k i bf w0) as (evs & b' & Hl & Hf & _) end.
  rewrite Hl. simpl. exists evs, b'. split; [by rewrite <-!app_assoc|].
  by rewrite Hf.
Qed.

(** *** The scratch buffer *)

Lemma ZeroMemory_loop_length k i buf : length (ZeroMemory_loop k i buf) = length buf.
Proof.
  revert i buf. induction k as [|k IH]; intros i buf; simpl; [done|].
  by rewrite IH, length_insert.
Qed.

Lemma ZeroMemory_loop_lookup k i buf j :
  ZeroMemory_loop k i buf !! j =
    if bool_decide (i <= j < i + k)%nat then (fun _ => 0) <$> buf !! j else buf !! j.
Proof.
  revert i buf. induction k as [|k IH]; intros i buf; simpl.
  - by case_bool_decide; [lia|].
  - rewrite IH, list_lookup_insert.
    destruct (decide (i = j ∧ i < length buf)%nat) as [[<- Hlt]|Hn].
    + rewrite bool_decide_false, bool_decide_true by lia.
      by destruct (lookup_lt_is_Some_2 buf i Hlt) as [x ->].
    + destruct (decide (j = i)) as [->|Hne].
      * rewrite bool_decide_false, bool_decide_true by lia.
        by rewrite lookup_ge_None_2 by lia.
      * by repeat case_bool_decide; try lia.
Qed.

(** Over the whole buffer, [ZeroMemory] is [memset(buf, 0, len)]. *)
Lemma ZeroMemory_full len buf :
  Z.to_nat len = length buf -> ZeroMemory len buf = replicate (length buf) 0.
Proof.
  intros Hl. apply list_eq. intros j. unfold ZeroMemory.
  rewrite ZeroMemory_loop_lookup, Hl.
  destruct (decide (j < length buf)%nat) as [Hlt|Hge].
  - rewrite bool_decide_true, lookup_replicate_2 by lia.
    by destruct (lookup_lt_is_Some_2 buf j Hlt) as [x ->].
  - rewrite bool_decide_false by lia.
    by rewrite !lookup_ge_None_2 by (rewrite ?length_replicate; lia).
Qed.

(** An iteration leaves a [constBuffLen]-byte buffer that size. *)
Lemma poll_iface_length i buf (w : World P B) :
  length buf = Z.to_nat constBuffLen -> length (fst (poll_iface i buf w)) = Z.to_nat constBuffLen.
Proof.
  intros Hl. destruct w as [p b d tr].
  unfold poll_iface, st_bind, drv_get, bus_call, emit. simpl.
  case_bool_decide; [done|]. rewrite ZeroMemory_full by lia.
  assert (Hz : length (replicate (length buf) 0) = Z.to_nat constBuffLen)
    by (by rewrite length_replicate).
  revert Hz. generalize (replicate (length buf) 0). intros z Hz. simpl.
  destruct (inTransfer _ _ _ b) as [[[rc rd] data] b1]. simpl.
  destruct (nz rc); [done|].
  destruct (rd =? 0); simpl; [by rewrite store_bytes_length|].
  destruct (GetReportParser _ _); simpl; by rewrite store_bytes_length.
Qed.

(** An iteration zeroes the buffer before the transfer: what it does to
    the world does not depend on the buffer's previous contents. *)
Lemma poll_iface_scratch i buf1 buf2 (w : World P B) :
  length buf1 = Z.to_nat constBuffLen -> length buf2 = Z.to_nat constBuffLen ->
  snd (poll_iface i buf1 w) = snd (poll_iface i buf2 w).
Proof.
  intros H1 H2. unfold poll_iface, st_bind, drv_get. simpl.
  case_bool_decide; [done|]. by rewrite !ZeroMemory_full, H1, H2 by lia.
Qed.

Lemma poll_loop_scratch k i buf1 buf2 (w : World P B) :
  length buf1 = Z.to_nat constBuffLen -> length buf2 = Z.to_nat constBuffLen ->
  poll_loop k i buf1 w = poll_loop k i buf2 w.
Proof.
  revert i buf1 buf2 w. induction k as [|k IH]; intros i buf1 buf2 w H1 H2; simpl; [done|].
  unfold st_bind.
  pose proof (poll_iface_scratch i buf1 buf2 w H1 H2) as Hw.
  pose proof (poll_iface_length i buf1 w H1) as L1.
  pose proof (poll_iface_length i buf2 w H2) as L2.
  destruct (poll_iface i buf1 w) as [b1 w1], (poll_iface i buf2 w) as [b2 w2].
  simpl in *. subst w2. by apply IH.
Qed.

End PollProps.

Section PollClaims.

Context {P B : Type} `{AddressPool P} `{UsbTransport B}.

(** C10: [Poll] does nothing while polling is disabled, and when the
    deadline has not elapsed it only reads the clock: no transport read,
    no state change, result 0. *)
Theorem Poll_idle buf0 (w : World P B) now b' :
  (bPollEnable (w_drv w) = false -> Poll buf0 w = (0, w)) /\
  (bPollEnable (w_drv w) = true -> millis (w_bus w) = (now, b') ->
   deadline_elapsed now (qNextPollTime (w_drv w)) = false ->
   Poll buf0 w = (0, mkWorld (w_pool w) b' (w_drv w) (w_trace w ++ [EvMillis]))).
Proof.
  destruct w as [p b d tr]. unfold Poll, st_bind, drv_get. simpl. split.
  - by intros ->.
  - intros -> Hm Hd. unfold bus_call. simpl. by rewrite Hm, Hd.
Qed.

(** C9: once the deadline has elapsed, [Poll] moves the deadline to the
    second clock reading plus the poll interval (modulo 2^32) and issues
    exactly one read per live interface with a bound interrupt-IN
    endpoint, in discovery order, sized to that endpoint's packet size;
    it touches neither the pool nor the tables. *)
Theorem Poll_due_reads buf0 (w : World P B) now b1 now2 b2 :
  bPollEnable (w_drv w) = true ->
  millis (w_bus w) = (now, b1) ->
  deadline_elapsed now (qNextPollTime (w_drv w)) = true ->
  millis b1 = (now2, b2) ->
  exists evs b',
    Poll buf0 w = (0, mkWorld (w_pool w) b'
                   (set_qNextPollTime (wrap32 (wrap32 now2 + pollInterval (w_drv w))) (w_drv w))
                   (w_trace w ++ [EvMillis; EvMillis] ++ evs)) /\
    filter is_in_transfer evs = omap (in_request (w_drv w)) (seq 0 (bNumIface (w_drv w))).
Proof. apply Poll_fire. Qed.

(** C20: a read that fails or returns zero bytes never reaches the
    raw-report hook or a parser: if the transport never delivers a
    non-empty report, [Poll] dispatches nothing. *)
Theorem Poll_zero_length_no_dispatch buf0 (w : World P B) :
  no_report_data ->
  filter is_dispatch (w_trace (snd (Poll buf0 w))) = filter is_dispatch (w_trace w).
Proof.
  intros Hnd. destruct w as [p b d tr].
  unfold Poll, st_bind, drv_get, bus_call, drv_modify. simpl.
  destruct (bPollEnable d); [|done]. simpl.
  destruct (millis b) as [now b1]. simpl.
  destruct (deadline_elapsed now (qNextPollTime d)); simpl;
    [|by rewrite list.filter_app, app_nil_r].
  destruct (millis b1) as [now2 b2]. simpl.
  match goal with |- context [poll_loop ?k ?i ?bf ?w0] =>
    destruct (poll_loop_spec k i bf w0) as (evs & b' & Hl & _ & Hd) end.
  rewrite Hl. simpl. rewrite !list.filter_app, (Hd Hnd). simpl.
  by rewrite !app_nil_r.
Qed.

(** C21: the stack buffer of [Poll] is read uninitialised by nothing: each
    iteration zeroes it with [ZeroMemory] before the transfer writes into
    it, so the reports handed to the raw-report hook and to the parsers,
    and everything else [Poll] does, are the same whatever the buffer's
    contents on entry. *)
Theorem Poll_scratch_irrelevant buf0 buf1 (w : World P B) :
  length buf0 = Z.to_nat constBuffLen -> length buf1 = Z.to_nat constBuffLen ->
  Poll buf0 w = Poll buf1 w.
Proof.
  intros Hl0 Hl1. destruct w as [p b d tr].
  unfold Poll, st_bind, drv_get, bus_call, drv_modify. simpl.
  destruct (bPollEnable d); [|done]. simpl.
  destruct (millis b) as [now b1]. simpl.
  destruct (deadline_elapsed now (qNextPollTime d)); [|done]. simpl.
  destruct (millis b1) as [now2 b2]. simpl.
  by rewrite (poll_loop_scratch _ _ buf0 buf1).
Qed.

End PollClaims.

(** A clock reading [k] ms at or after the deadline, [k] below 2^31,
    counts as elapsed. *)
Lemma deadline_reached next k :
  0 <= next < 2 ^ 32 -> 0 <= k < 2 ^ 31 -> deadline_elapsed (wrap32 (next + k)) next = true.
Proof.
  intros Hn Hk. unfold deadline_elapsed, signed32, wrap32.
  rewrite Z.mod_mod by lia. rewrite Zminus_mod_idemp_l.
  replace (next + k - next) with k by lia. rewrite Z.mod_small by lia.
  destruct (Z.ltb_spec k (2 ^ 31)); [|lia]. apply Z.geb_le. lia.
Qed.

(** C22: the deadline test survives the wrap-around of the 32-bit clock:
    a clock reading up to 2^31 - 1 ms past the deadline counts as elapsed
    even when the counter wrapped in between, and a reading up to 2^31 ms
    before it counts as not elapsed. *)
Theorem deadline_wraparound next k :
  0 <= next < 2 ^ 32 ->
  (0 <= k < 2 ^ 31 -> deadline_elapsed (wrap32 (next + k)) next = true) /\
  (0 < k <= 2 ^ 31 -> deadline_elapsed (wrap32 (next - k)) next = false).
Proof.
  intros Hn. unfold deadline_elapsed, signed32, wrap32.
  split; intros Hk; [by apply deadline_reached|].
  rewrite Z.mod_mod by lia. rewrite Zminus_mod_idemp_l.
  replace (next - k - next) with (- k) by lia.
  replace ((- k) mod 2 ^ 32) with (2 ^ 32 - k)
    by (apply Z.mod_unique with (-1); lia).
  destruct (Z.ltb_spec (2 ^ 32 - k) (2 ^ 31)); [lia|].
  rewrite Z.geb_leb. apply Z.leb_gt. lia.
Qed.

(** A clock reading [k] ms after [t], with [k] below the interval [I],
    is before the deadline [t + I]. *)
Lemma deadline_not_yet t I k :
  0 <= I < 2 ^ 31 -> 0 <= k < I ->
  deadline_elapsed (wrap32 (t + k)) (wrap32 (wrap32 t + I)) = false.
Proof.
  intros HI Hk. unfold deadline_elapsed, signed32, wrap32.
  rewrite Z.mod_mod, Zminus_mod_idemp_l, Zminus_mod_idemp_r by lia.
  rewrite (Z.mod_eq t) by lia.
  replace (t + k - (t - 2 ^ 32 * (t / 2 ^ 32) + I)) with (- (I - k) + (t / 2 ^ 32) * 2 ^ 32)
    by ring.
  rewrite Z.mod_add by lia.
  replace ((- (I - k)) mod 2 ^ 32) with (2 ^ 32 - (I - k))
    by (apply Z.mod_unique with (-1); lia).
  destruct (Z.ltb_spec (2 ^ 32 - (I - k)) (2 ^ 31)); [lia|].
  rewrite Z.geb_leb. apply Z.leb_gt. lia.
Qed.

Section RateLimit.

Context {P B : Type} `{AddressPool P} `{UsbTransport B}.

(** C16: once [Poll] has set the deadline from a clock reading [now2],
    every [Poll] whose clock reads less than [pollInterval] ms later
    issues no read and leaves the object unchanged: each interface is
    read at most once per interval, across the wrap of the 32-bit clock. *)
Theorem Poll_rate_limit buf0 (w : World P B) now2 k b' :
  qNextPollTime (w_drv w) = wrap32 (wrap32 now2 + pollInterval (w_drv w)) ->
  0 <= pollInterval (w_drv w) < 2 ^ 31 -> 0 <= k < pollInterval (w_drv w) ->
  millis (w_bus w) = (wrap32 (now2 + k), b') ->
  w_drv (snd (Poll buf0 w)) = w_drv w /\
  filter is_in_transfer (w_trace (snd (Poll buf0 w))) = filter is_in_transfer (w_trace w).
Proof.
  destruct w as [p b d tr]. simpl. intros Hq HI Hk Hm.
  unfold Poll, st_bind, drv_get, bus_call. simpl.
  destruct (bPollEnable d); simpl; [|done].
  rewrite Hm. simpl. rewrite Hq, deadline_not_yet by done. simpl.
  split; [done|]. rewrite list.filter_app. simpl. by rewrite app_nil_r.
Qed.

End RateLimit.

(** ** The calculus of [Init]: weakest preconditions of the steps *)

Section WpRules.

Context {P B : Type} {HP : AddressPool P} {HL : AddressPoolLaws P} `{UsbTransport B}.
Variable sel : Z -> Z -> bool.

Implicit Types (w : World P B).

Lemma wp_drv_get (Q : HIDComposite -> World P B -> Prop) w :
  Q (w_drv w) w -> wp drv_get Q w.
Proof. done. Qed.

Lemma wp_drv_modify f (Q : unit -> World P B -> Prop) w :
  Q tt (mkWorld (w_pool w) (w_bus w) (f (w_drv w)) (w_trace w)) -> wp (drv_modify f) Q w.
Proof. done. Qed.

Lemma wp_pool_get a (Q : option UsbDevice -> World P B -> Prop) w :
  Q (GetUsbDevicePtr (w_pool w) a) w -> wp (pool_get a) Q w.
Proof. done. Qed.

Lemma wp_pool_set a dev (Q : unit -> World P B -> Prop) w :
  Q tt (mkWorld (SetUsbDevice a dev (w_pool w)) (w_bus w) (w_drv w) (w_trace w)) ->
  wp (pool_set a dev) Q w.
Proof. done. Qed.

Lemma wp_pool_alloc parent hub port (Q : Z -> World P B -> Prop) w :
  (forall a p', AllocAddress parent hub port (w_pool w) = (a, p') ->
                Q a (mkWorld p' (w_bus w) (w_drv w) (w_trace w))) ->
  wp (pool_alloc parent hub port) Q w.
Proof. unfold wp, pool_alloc. destruct (AllocAddress _ _ _ _). auto. Qed.

Lemma wp_pool_free a (Q : unit -> World P B -> Prop) w :
  Q tt (mkWorld (FreeAddress a (w_pool w)) (w_bus w) (w_drv w) (w_trace w)) ->
  wp (pool_free a) Q w.
Proof. done. Qed.

Lemma wp_bus_call {A} ev (f : B -> A * B) (Q : A -> World P B -> Prop) w :
  (forall a b', f (w_bus w) = (a, b') ->
                Q a (mkWorld (w_pool w) b' (w_drv w) (w_trace w ++ [ev]))) ->
  wp (bus_call ev f) Q w.
Proof. unfold wp, bus_call. destruct (f _). auto. Qed.

Lemma wp_emit ev (Q : unit -> World P B -> Prop) w :
  Q tt (mkWorld (w_pool w) (w_bus w) (w_drv w) (w_trace w ++ [ev])) -> wp (emit ev) Q w.
Proof. done. Qed.

(** The pool's allocation state is that of [p] plus the address [a]. *)
Definition in_use_plus (p p' : P) (a : Z) : Prop :=
  forall b, addr_in_use p' b = (b =? a) || addr_in_use p b.

Definition in_use_same (p p' : P) : Prop :=
  forall b, addr_in_use p' b = addr_in_use p b.

(** A pool-entry write keeps the allocation state, and the entries of
    the other addresses. *)
Lemma wp_dev_update a f (Q : unit -> World P B -> Prop) w :
  (forall p', in_use_same (w_pool w) p' ->
     (forall b, a <> b -> GetUsbDevicePtr p' b = GetUsbDevicePtr (w_pool w) b) ->
     Q tt (mkWorld p' (w_bus w) (w_drv w) (w_trace w))) ->
  wp (dev_update a f) Q w.
Proof.
  intros HQ. unfold dev_update, wp, st_bind, pool_get. simpl.
  destruct (GetUsbDevicePtr (w_pool w) a); simpl.
  - apply HQ; [intros b; apply set_in_use|intros b Hb; by apply get_set_other].
  - destruct w. apply HQ; done.
Qed.

Lemma wp_setEpInfoEntry a n (Q : Z -> World P B -> Prop) w :
  (forall r p', in_use_same (w_pool w) p' ->
     Q r (mkWorld p' (w_bus w) (w_drv w) (w_trace w))) ->
  wp (setEpInfoEntry a n) Q w.
Proof.
  intros HQ. unfold setEpInfoEntry, wp, st_bind, pool_get. simpl.
  destruct (GetUsbDevicePtr (w_pool w) a); simpl.
  - apply HQ. intros b; apply set_in_use.
  - destruct w. by apply HQ.
Qed.

Lemma wp_conf_loop k i a (Q : Z -> World P B -> Prop) w :
  (forall r w', w_pool w' = w_pool w -> untouched (w_drv w') = untouched (w_drv w) ->
                Q r w') ->
  wp (conf_loop sel k i a) Q w.
Proof.
  revert i w. induction k as [|k IH]; intros i w HQ; simpl.
  - by apply HQ.
  - unfold wp, st_bind, bus_call. simpl.
    destruct (getConfDescr _ _ _ (w_bus w)) as [[rc calls] b1]. simpl.
    destruct (nz rc); simpl.
    + apply HQ; [done|]. apply XtractAll_untouched.
    + unfold drv_get. simpl. case_bool_decide.
      * apply HQ; [done|]. apply XtractAll_untouched.
      * apply IH. intros r w' Hp Hu. apply HQ; [done|].
        rewrite Hu. apply XtractAll_untouched.
Qed.

Lemma wp_idle_loop k i (Q : option Z -> World P B -> Prop) w :
  (forall r w', w_pool w' = w_pool w -> w_drv w' = w_drv w ->
                (r = None \/ exists rc, r = Some rc /\ rc <> 0) -> Q r w') ->
  wp (idle_loop k i) Q w.
Proof.
  revert i w. induction k as [|k IH]; intros i w HQ; simpl.
  - apply HQ; auto.
  - unfold wp, st_bind, drv_get. simpl. case_bool_decide.
    + by apply IH.
    + unfold bus_call. simpl.
      destruct (SetIdleReq _ _ _ _ _) as [rc b1]. simpl.
      destruct (nz rc && negb (rc =? hrSTALL)) eqn:Hrc; simpl.
      * apply HQ; [done|done|]. right. exists rc. split; [done|].
        apply andb_true_iff in Hrc as [Hrc _]. by apply nz_true.
      * apply IH. intros r w' Hp Hd Hr. by apply HQ.
Qed.

End WpRules.

(** One step of the calculus: a bind, a primitive, or a case split on
    the test or the match the program performs next. *)
Ltac wp_step :=
  lazymatch goal with
  | |- wp (st_bind _ _) _ _ => apply wp_bind
  | |- wp (st_ret _) _ _ => apply wp_ret
  | |- wp drv_get _ _ => apply wp_drv_get
  | |- wp (drv_modify _) _ _ => apply wp_drv_modify
  | |- wp (pool_get _) _ _ => apply wp_pool_get
  | |- wp (pool_set _ _) _ _ => apply wp_pool_set
  | |- wp (pool_alloc _ _ _) _ _ =>
      apply wp_pool_alloc; let a := fresh "a" in let p := fresh "p" in
      let E := fresh "Halloc" in intros a p E
  | |- wp (pool_free _) _ _ => apply wp_pool_free
  | |- wp (bus_call _ _) _ _ =>
      apply wp_bus_call; let a := fresh "r" in let b := fresh "b" in
      let E := fresh "Hbus" in intros a b E
  | |- wp (emit _) _ _ => apply wp_emit
  | |- wp (dev_update _ _) _ _ =>
      apply wp_dev_update; let p := fresh "p" in let E := fresh "Hsame" in
      let G := fresh "Hget" in intros p E G
  | |- wp (setEpInfoEntry _ _) _ _ =>
      apply wp_setEpInfoEntry; let r := fresh "rc" in let p := fresh "p" in
      let E := fresh "Hsame" in intros r p E
  | |- wp Release _ _ => unfold Release
  | |- wp (conf_loop _ _ _ _) _ _ =>
      apply wp_conf_loop; let r := fresh "rc" in let w := fresh "wl" in
      let E := fresh "Hpool" in let U := fresh "Hunt" in intros r w E U;
      let lp := fresh "lp" in let lb := fresh "lb" in let ld := fresh "ld" in
      let lt := fresh "lt" in destruct w as [lp lb ld lt]; simpl in E, U; subst lp
  | |- wp (idle_loop _ _) _ _ =>
      apply wp_idle_loop; let r := fresh "ro" in let w := fresh "wl" in
      let E := fresh "Hpool" in let D := fresh "Hdrv" in let R := fresh "Hro" in
      intros r w E D R;
      let lp := fresh "lp" in let lb := fresh "lb" in let ld := fresh "ld" in
      let lt := fresh "lt" in destruct w as [lp lb ld lt]; simpl in E, D; subst lp ld
  | |- wp (match ?x with _ => _ end) _ _ => destruct x eqn:?
  | |- wp (if ?b then _ else _) _ _ => destruct b eqn:?
  end; cbn beta iota zeta delta [w_drv w_pool w_bus w_trace].

(** ** The outcome of [Init] *)

Section InitProps.

Context {P B : Type} {HP : AddressPool P} {HL : AddressPoolLaws P} `{UsbTransport B}.
Variable sel : Z -> Z -> bool.

Implicit Types (w : World P B).

(** The three ways [Init] ends, relative to the world [w] it started
    in: success, with a new address taken from the pool and polling on;
    the device rejected for lack of endpoints, with the address still
    held; or a rollback, with no address held and the pool as it was. *)
Definition Init_post (w : World P B) (r : Z) (w' : World P B) : Prop :=
  (r = 0 /\ bAddress (w_drv w') <> 0 /\ bPollEnable (w_drv w') = true /\
   (2 <= bNumEP (w_drv w'))%nat /\
   in_use_plus (w_pool w) (w_pool w') (bAddress (w_drv w')))
  \/ (r = USB_DEV_CONFIG_ERROR_DEVICE_NOT_SUPPORTED /\ bAddress (w_drv w') <> 0 /\
      bPollEnable (w_drv w') = false /\
      in_use_plus (w_pool w) (w_pool w') (bAddress (w_drv w')))
  \/ (r <> 0 /\ bAddress (w_drv w') = 0 /\ bPollEnable (w_drv w') = false /\
      in_use_same (w_pool w) (w_pool w')).

Lemma in_use_plus_same p0 p p' a :
  in_use_plus p0 p a -> in_use_same p p' -> in_use_plus p0 p' a.
Proof. intros H1 H2 b. by rewrite H2, H1. Qed.

Lemma in_use_same_trans p0 p p' :
  in_use_same p0 p -> in_use_same p p' -> in_use_same p0 p'.
Proof. intros H1 H2 b. by rewrite H2, H1. Qed.

Lemma in_use_plus_free p0 p a :
  in_use_plus p0 p a -> addr_in_use p0 a = false -> in_use_same p0 (FreeAddress a p).
Proof.
  intros Hp Ha b. rewrite free_in_use, Hp.
  destruct (Z.eqb_spec b a) as [->|]; simpl; [by rewrite Ha|by rewrite andb_true_r].
Qed.

(** Every [goto] after the address is assigned rolls back. *)
Lemma Fail_rollback w0 w a rc :
  bAddress (w_drv w) = a -> in_use_plus (w_pool w0) (w_pool w) a ->
  addr_in_use (w_pool w0) a = false -> rc <> 0 ->
  wp (Fail rc) (Init_post w0) w.
Proof.
  intros Ha Hp Hf Hrc. unfold Fail. wp_step. wp_step. wp_step.
  right; right. simpl. rewrite Ha. split_and!; [done..|].
  by apply in_use_plus_free.
Qed.

Lemma in_use_same_plus p0 p p' a :
  in_use_same p0 p -> in_use_plus p p' a -> in_use_plus p0 p' a.
Proof. intros H1 H2 b. by rewrite H2, H1. Qed.

(** A [goto] before an address is assigned also rolls back. *)
Lemma Fail_rollback0 w0 w rc :
  bAddress (w_drv w) = 0 -> in_use_same (w_pool w0) (w_pool w) -> rc <> 0 ->
  wp (Fail rc) (Init_post w0) w.
Proof.
  intros Ha Hp Hrc. unfold Fail. wp_step. wp_step. wp_step.
  right; right. simpl. rewrite Ha. split_and!; [done..|].
  intros b. rewrite free_in_use, Hp.
  destruct (Z.eqb_spec b 0) as [->|]; simpl; [by rewrite in_use_0|by rewrite andb_true_r].
Qed.

End InitProps.

(** Normalise the facts the calculus leaves: C truth tests, decisions,
    the fields the configuration loop keeps, the idle loop's result. *)
Ltac init_norm :=
  simpl in *;
  repeat match goal with
  | H : negb (nz _) = true |- _ => apply negb_true_iff, nz_false in H
  | H : negb (nz _) = false |- _ => apply negb_false_iff, nz_true in H
  | H : nz _ = true |- _ => apply nz_true in H
  | H : nz _ = false |- _ => apply nz_false in H
  | H : bool_decide _ = true |- _ => apply bool_decide_eq_true in H
  | H : bool_decide _ = false |- _ => apply bool_decide_eq_false in H
  | H : untouched _ = untouched _ |- _ => injection H as ? ? ? ? ?
  | H : Some _ = None \/ _ |- _ => destruct H as [?|(?rc & [= <-] & ?)]; [done|]
  | H : None = None \/ _ |- _ => clear H
  end.

(** [in_use_plus p0 p a] from [H : in_use_plus p0 p' a] and the pool
    writes between [p'] and [p]. *)
Ltac in_use_chain H :=
  repeat (eapply in_use_plus_same; [|eassumption]); exact H.

(** The postcondition of a path that keeps the address [a]. *)
Ltac init_finish a H :=
  simpl; split_and!; try done; try congruence; try lia;
  match goal with |- in_use_plus _ _ ?x => replace x with a by congruence end;
  in_use_chain H.

Section InitOutcome.

Context {P B : Type} {HP : AddressPool P} {HL : AddressPoolLaws P} `{UsbTransport B}.
Variable sel : Z -> Z -> bool.

Lemma Init_configure_outcome (w0 w : World P B) a ls len buf :
  bAddress (w_drv w) = a -> a <> 0 -> bPollEnable (w_drv w) = false ->
  in_use_plus (w_pool w0) (w_pool w) a -> addr_in_use (w_pool w0) a = false ->
  wp (Init_configure sel a ls len buf) (Init_post w0) w.
Proof.
  destruct w as [p b d tr]; simpl. intros Ha Ha0 Hpe Hplus Hfree.
  unfold Init_configure. repeat wp_step. all: init_norm.
  all: try (eapply (Fail_rollback _ _ a); [simpl; congruence| |done|done];
            in_use_chain Hplus).
  all: first [solve [right; left; init_finish a Hplus] | solve [left; init_finish a Hplus]].
Qed.

Lemma Init_post_wp parent port ls buf0 (w : World P B) :
  bAddress (w_drv w) = 0 -> bPollEnable (w_drv w) = false ->
  wp (Init sel parent port ls buf0) (Init_post w) w.
Proof.
  destruct w as [p0 b0 d0 tr0]; simpl. intros Ha Hpe.
  unfold Init. repeat wp_step. all: init_norm; try congruence.
  (* the early returns before the probe *)
  all: try solve [right; right; split_and!; try done; intros ?; done].
  all: assert (Hs : in_use_same p0 p) by (intros b'; by rewrite Hsame, set_in_use).
  (* the probe failed *)
  all: try solve [apply Fail_rollback0; done].
  (* the pool had no free address *)
  all: try solve [subst a; pose proof (alloc_fail _ _ _ _ _ Halloc); subst p1;
                  right; right; split_and!; done].
  all: destruct (alloc_fresh _ _ _ _ _ _ Halloc ltac:(done)) as [Hfa Hpl].
  all: assert (Hfa0 : addr_in_use p0 a = false) by (by rewrite <-Hs).
  all: assert (Hpl0 : in_use_plus p0 p1 a) by (apply (in_use_same_plus _ p); done).
  (* setAddr failed *)
  all: try solve [right; right; split_and!; try done;
                  apply in_use_plus_free; [|done]; by apply (in_use_plus_same _ p1)].
  (* the new address is in the pool *)
  all: try solve [exfalso;
                  match goal with
                  | G : forall b, 0 <> b -> _, E : GetUsbDevicePtr _ _ = None |- _ =>
                      rewrite G in E by done
                  end;
                  eapply alloc_get; [exact Halloc|done|eassumption]].
  apply Init_configure_outcome; simpl; try done.
  by apply (in_use_plus_same _ p1).
Qed.

(** C1: [Init] on a driver without an address ends in one of three
    ways: success (result 0, a fresh address from the pool assigned,
    polling enabled, at least one endpoint besides the control
    endpoint); [USB_DEV_CONFIG_ERROR_DEVICE_NOT_SUPPORTED], with the
    fresh address still assigned and held in the pool; or a rollback
    (a nonzero result, no address assigned, polling disabled, and the
    pool's allocation state as before the call). *)
Theorem Init_outcome parent port ls buf0 (w : World P B) :
  bAddress (w_drv w) = 0 -> bPollEnable (w_drv w) = false ->
  let '(r, w') := Init sel parent port ls buf0 w in Init_post w r w'.
Proof. intros Ha Hp. exact (Init_post_wp parent port ls buf0 w Ha Hp). Qed.

End InitOutcome.

(** ** [Release] and the invariant of the object *)

Section Invariant.

Context {P B : Type} {HP : AddressPool P} {HL : AddressPoolLaws P} `{UsbTransport B}.
Variable sel : Z -> Z -> bool.

(** The invariant of the driver object: well-formed tables, unique live
    keys. *)
Definition drv_inv (d : HIDComposite) : Prop := wf d /\ NoDup (live_keys d).

Lemma XtractAll_inv calls d : drv_inv d -> drv_inv (XtractAll sel calls d).
Proof. intros [Hwf Hnd]. by apply XtractAll_wf_keys. Qed.

Lemma drv_inv_scalar d d' :
  drv_inv d -> rptParsers d' = rptParsers d -> descrInfo d' = descrInfo d ->
  hidInterfaces d' = hidInterfaces d -> epInfo d' = epInfo d ->
  bNumEP d' = bNumEP d -> bNumIface d' = bNumIface d -> drv_inv d'.
Proof.
  intros [Hwf Hnd] H1 H2 H3 H4 H5 H6. split; [by eapply wf_same_tables|].
  unfold live_keys. by rewrite H3, H6.
Qed.

Lemma wp_conf_loop_inv k i a (Q : Z -> World P B -> Prop) w :
  drv_inv (w_drv w) ->
  (forall r w', drv_inv (w_drv w') -> Q r w') ->
  wp (conf_loop sel k i a) Q w.
Proof.
  revert i w. induction k as [|k IH]; intros i w Hi HQ; simpl.
  - by apply HQ.
  - unfold wp, st_bind, bus_call. simpl.
    destruct (getConfDescr _ _ _ (w_bus w)) as [[rc calls] b1]. simpl.
    pose proof (XtractAll_inv calls _ Hi) as Hi'.
    destruct (nz rc); simpl; [by apply HQ|].
    unfold drv_get. simpl. case_bool_decide; [by apply HQ|]. by apply IH.
Qed.

(** C13: [Release] frees the driver's address in the pool, counts only
    the control endpoint, forgets the address and the deadline and
    disables polling; it leaves the interface table, [bNumIface], the
    endpoint table and the parser bindings as they are, so a later
    [Init] starts from stale interface entries. *)
Theorem Release_spec (w : World P B) :
  let d := w_drv w in
  let '(r, w') := Release w in
  r = 0 /\ in_use_same (FreeAddress (bAddress d) (w_pool w)) (w_pool w') /\
  addr_in_use (w_pool w') (bAddress d) = false /\
  bNumEP (w_drv w') = 1%nat /\ bAddress (w_drv w') = 0 /\
  qNextPollTime (w_drv w') = 0 /\ bPollEnable (w_drv w') = false /\
  hidInterfaces (w_drv w') = hidInterfaces d /\ bNumIface (w_drv w') = bNumIface d /\
  epInfo (w_drv w') = epInfo d /\ rptParsers (w_drv w') = rptParsers d.
Proof.
  simpl. split_and!; try done. simpl.
  by rewrite free_in_use, Z.eqb_refl, andb_false_r.
Qed.

Lemma inv_set_bAddress v d : drv_inv d -> drv_inv (set_bAddress v d).
Proof. intros. by eapply drv_inv_scalar. Qed.
Lemma inv_set_VID_PID v v' d : drv_inv d -> drv_inv (set_VID_PID v v' d).
Proof. intros. by eapply drv_inv_scalar. Qed.
Lemma inv_set_bPollEnable v d : drv_inv d -> drv_inv (set_bPollEnable v d).
Proof. intros. by eapply drv_inv_scalar. Qed.
Lemma inv_set_qNextPollTime v d : drv_inv d -> drv_inv (set_qNextPollTime v d).
Proof. intros. by eapply drv_inv_scalar. Qed.
Lemma inv_set_bNumEP1 d : drv_inv d -> drv_inv (set_bNumEP 1 d).
Proof.
  intros [Hwf Hnd]. split; [|done]. apply wf_set_bNumEP; [done|].
  unfold totalEndpoints; simpl; lia.
Qed.

Lemma inv_set_ep0 v d : drv_inv d -> drv_inv (set_ep0_maxPktSize v d).
Proof.
  intros [Hwf Hnd]. split; [|done]. pose proof (wf_epInfo_len _ Hwf).
  destruct Hwf. constructor; simpl; try done.
  - by rewrite length_insert.
  - rewrite list_lookup_total_insert_eq; [done|]. unfold totalEndpoints in *; simpl in *; lia.
Qed.

(** [Initialize] keeps the invariant: it clears the tables in place and
    forgets every interface entry. *)
Lemma inv_Initialize d : drv_inv d -> drv_inv (Initialize d).
Proof. intros [Hwf _]. split; [by apply Initialize_wf|]. unfold live_keys. simpl. constructor. Qed.

(** Forgetting every interface entry keeps the invariant. *)
Lemma inv_set_bNumIface0 d : drv_inv d -> drv_inv (set_bNumIface 0 d).
Proof.
  intros [Hwf _]. split; [|unfold live_keys; simpl; constructor].
  destruct Hwf. constructor; simpl; try done. lia.
Qed.

(** The invariant, and the live entries [ks] still live, in order, at the
    front of the table. *)
Definition keys_from (ks : list (Z * Z * Z)) (d : HIDComposite) : Prop :=
  drv_inv d /\ ks `prefix_of` live_keys d.

Lemma keys_from_frame ks d d' :
  keys_from ks d -> drv_inv d' ->
  hidInterfaces d' = hidInterfaces d -> bNumIface d' = bNumIface d -> keys_from ks d'.
Proof. intros [_ Hp] Hi H1 H2. split; [done|]. unfold live_keys. by rewrite H1, H2. Qed.

Ltac keys_frame := intros [? ?]; eapply keys_from_frame; [split; eassumption| |done|done];
  auto using inv_set_bAddress, inv_set_VID_PID, inv_set_bPollEnable, inv_set_qNextPollTime,
    inv_set_bNumEP1, inv_set_ep0.

Lemma keys_set_bAddress ks v d : keys_from ks d -> keys_from ks (set_bAddress v d).
Proof. keys_frame. Qed.
Lemma keys_set_VID_PID ks v v' d : keys_from ks d -> keys_from ks (set_VID_PID v v' d).
Proof. keys_frame. Qed.
Lemma keys_set_bPollEnable ks v d : keys_from ks d -> keys_from ks (set_bPollEnable v d).
Proof. keys_frame. Qed.
Lemma keys_set_qNextPollTime ks v d : keys_from ks d -> keys_from ks (set_qNextPollTime v d).
Proof. keys_frame. Qed.
Lemma keys_set_bNumEP1 ks d : keys_from ks d -> keys_from ks (set_bNumEP 1 d).
Proof. keys_frame. Qed.
Lemma keys_set_ep0 ks v d : keys_from ks d -> keys_from ks (set_ep0_maxPktSize v d).
Proof. keys_frame. Qed.

Lemma keys_XtractAll ks calls d : keys_from ks d -> keys_from ks (XtractAll sel calls d).
Proof.
  intros [Hi Hp]. split; [by apply XtractAll_inv|].
  etrans; [exact Hp|]. apply XtractAll_keys_prefix, Hi.
Qed.

Lemma wp_conf_loop_keys ks k i a (Q : Z -> World P B -> Prop) w :
  keys_from ks (w_drv w) ->
  (forall r w', keys_from ks (w_drv w') -> Q r w') ->
  wp (conf_loop sel k i a) Q w.
Proof.
  revert i w. induction k as [|k IH]; intros i w Hi HQ; simpl.
  - by apply HQ.
  - unfold wp, st_bind, bus_call. simpl.
    destruct (getConfDescr _ _ _ (w_bus w)) as [[rc calls] b1]. simpl.
    pose proof (keys_XtractAll ks calls _ Hi) as Hi'.
    destruct (nz rc); simpl; [by apply HQ|].
    unfold drv_get. simpl. case_bool_decide; [by apply HQ|]. by apply IH.
Qed.

End Invariant.

#[export] Hint Resolve inv_set_bAddress inv_set_VID_PID inv_set_bPollEnable
  inv_set_qNextPollTime inv_set_bNumEP1 inv_set_ep0 inv_Initialize inv_set_bNumIface0 : hid.
#[export] Hint Resolve keys_set_bAddress keys_set_VID_PID keys_set_bPollEnable
  keys_set_qNextPollTime keys_set_bNumEP1 keys_set_ep0 : hid.

Section InvariantOps.

Context {P B : Type} {HP : AddressPool P} {HL : AddressPoolLaws P} `{UsbTransport B}.
Variable sel : Z -> Z -> bool.

(** [Release] keeps the invariant of the object. *)
Lemma Release_inv (w : World P B) :
  drv_inv (w_drv w) -> drv_inv (w_drv (snd (Release w))).
Proof. intros Hi. simpl. auto 20 with hid. Qed.

(** [Init] keeps the invariant of the object on every path. *)
Lemma Init_inv parent port ls buf0 (w : World P B) :
  drv_inv (w_drv w) -> drv_inv (w_drv (snd (Init sel parent port ls buf0 w))).
Proof.
  intros Hi. destruct w as [p0 b0 d0 tr0]; simpl in *.
  enough (Hwp : wp (Init sel parent port ls buf0) (fun _ w' => drv_inv (w_drv w'))
                   (mkWorld p0 b0 d0 tr0))
    by (unfold wp in Hwp; by destruct (Init _ _ _ _ _ _)).
  unfold Init, Init_configure.
  repeat (lazymatch goal with
          | |- wp (conf_loop _ _ _ _) _ _ =>
              apply wp_conf_loop_inv; [simpl; auto 20 with hid|intros ?r ?w ?Hinv]
          | |- wp (Fail _) _ _ => unfold Fail
          | _ => wp_step
          end).
  all: simpl; auto 20 with hid.
Qed.

(** [Init] keeps every live interface entry, in place: it only appends. *)
Lemma Init_keys parent port ls buf0 (w : World P B) :
  drv_inv (w_drv w) ->
  live_keys (w_drv w) `prefix_of` live_keys (w_drv (snd (Init sel parent port ls buf0 w))).
Proof.
  intros Hi. destruct w as [p0 b0 d0 tr0]; simpl in *.
  enough (Hwp : wp (Init sel parent port ls buf0) (fun _ w' => keys_from (live_keys d0) (w_drv w'))
                   (mkWorld p0 b0 d0 tr0))
    by (unfold wp in Hwp; destruct (Init _ _ _ _ _ _); apply Hwp).
  assert (H0 : keys_from (live_keys d0) d0) by (split; [done|reflexivity]).
  unfold Init, Init_configure.
  repeat (lazymatch goal with
          | |- wp (conf_loop _ _ _ _) _ _ =>
              apply (wp_conf_loop_keys sel (live_keys d0)); [simpl; auto 20 with hid|intros ?r ?w ?Hinv]
          | |- wp (Fail _) _ _ => unfold Fail
          | _ => wp_step
          end).
  all: simpl; auto 20 with hid.
Qed.

(** [Init] never touches the parser bindings. *)
Lemma Init_rptParsers parent port ls buf0 (w : World P B) :
  rptParsers (w_drv (snd (Init sel parent port ls buf0 w))) = rptParsers (w_drv w).
Proof.
  destruct w as [p0 b0 d0 tr0]; simpl.
  enough (Hwp : wp (Init sel parent port ls buf0)
                   (fun _ w' => rptParsers (w_drv w') = rptParsers d0) (mkWorld p0 b0 d0 tr0))
    by (unfold wp in Hwp; by destruct (Init _ _ _ _ _ _)).
  unfold Init, Init_configure.
  repeat (lazymatch goal with
          | |- wp (Fail _) _ _ => unfold Fail
          | _ => wp_step
          end).
  all: init_norm; simpl; congruence.
Qed.

(** [Init] leaves the deadline as it was, or clears it when it rolls
    back. *)
Lemma Init_qNextPollTime parent port ls buf0 (w : World P B) :
  qNextPollTime (w_drv (snd (Init sel parent port ls buf0 w))) = qNextPollTime (w_drv w) \/
  qNextPollTime (w_drv (snd (Init sel parent port ls buf0 w))) = 0.
Proof.
  destruct w as [p0 b0 d0 tr0]; simpl.
  enough (Hwp : wp (Init sel parent port ls buf0)
                   (fun _ w' => qNextPollTime (w_drv w') = qNextPollTime d0 \/
                                qNextPollTime (w_drv w') = 0) (mkWorld p0 b0 d0 tr0))
    by (unfold wp in Hwp; by destruct (Init _ _ _ _ _ _)).
  unfold Init, Init_configure.
  repeat (lazymatch goal with
          | |- wp (Fail _) _ _ => unfold Fail
          | _ => wp_step
          end).
  all: init_norm; simpl; first [by right | left; congruence].
Qed.

End InvariantOps.

(** ** What [Poll], [SndRpt] and a busy [Init] leave unchanged *)

Lemma length_omap_seq_le {A} (f : nat -> option A) i k :
  (length (omap f (seq i k)) <= k)%nat.
Proof.
  revert i. induction k as [|k IH]; intros i; simpl; [lia|].
  destruct (f i); simpl; specialize (IH (S i)); unfold omap in IH; simpl in IH; lia.
Qed.

(** ** The configuration loop against a search over the configurations *)

Lemma XtractAll_app sel c1 c2 d : XtractAll sel (c1 ++ c2) d = XtractAll sel c2 (XtractAll sel c1 d).
Proof. unfold XtractAll. by rewrite fold_left_app. Qed.

Lemma map_seq_S {A} (g : nat -> A) m : map g (seq 0 (S m)) = g 0%nat :: map (fun n => g (S n)) (seq 0 m).
Proof. simpl. f_equal. rewrite <-fmap_S_seq. unfold fmap. by rewrite map_map. Qed.

Section ConfScan.

Context {P B : Type} `{AddressPool P} `{UsbTransport B}.
Variable sel : Z -> Z -> bool.

(** The device at address [a] on the bus [b0] answers the request for
    configuration [j] with [answer j] (a result code and the calls of the
    walker) and leaves the bus as it is: its descriptors are fixed data. *)
Variables (a : Z) (b0 : B) (answer : Z -> Z * list XtractCall).
Hypothesis Hanswer : forall j, getConfDescr a 0 j b0 = (answer j, b0).

(** The object after the walks of configurations [i] .. [i + m - 1]. *)
Definition conf_upto (i : Z) (m : nat) (d : HIDComposite) : HIDComposite :=
  XtractAll sel (concat (map (fun n => snd (answer (i + Z.of_nat n))) (seq 0 m))) d.

(** The requests for configurations [i] .. [i + m - 1]. *)
Definition conf_reqs (i : Z) (m : nat) : list Event :=
  map (fun n => EvGetConfDescr a 0 (i + Z.of_nat n)) (seq 0 m).

(** The walk of configuration [i + j] ends the search: its request
    failed, or after it more than one endpoint is known. *)
Definition conf_stop (i : Z) (d : HIDComposite) (j : nat) : Prop :=
  nz (fst (answer (i + Z.of_nat j))) = true \/ (1 < bNumEP (conf_upto i (S j) d))%nat.

#[export] Instance conf_stop_dec i d j : Decision (conf_stop i d j).
Proof. unfold conf_stop. apply _. Qed.

Lemma conf_upto_S i m d :
  conf_upto i (S m) d = conf_upto (i + 1) m (XtractAll sel (snd (answer i)) d).
Proof.
  unfold conf_upto. rewrite map_seq_S. simpl. rewrite XtractAll_app, Z.add_0_r.
  do 2 f_equal. apply map_ext. intros n.
  by replace (i + Z.of_nat (S n)) with (i + 1 + Z.of_nat n) by lia.
Qed.

Lemma conf_reqs_S i m : conf_reqs i (S m) = EvGetConfDescr a 0 i :: conf_reqs (i + 1) m.
Proof.
  unfold conf_reqs. rewrite map_seq_S. simpl. rewrite Z.add_0_r.
  f_equal. apply map_ext. intros n.
  by replace (i + Z.of_nat (S n)) with (i + 1 + Z.of_nat n) by lia.
Qed.

Lemma conf_stop_S i d n :
  conf_stop i d (S n) <-> conf_stop (i + 1) (XtractAll sel (snd (answer i)) d) n.
Proof.
  unfold conf_stop. rewrite conf_upto_S.
  by replace (i + Z.of_nat (S n)) with (i + 1 + Z.of_nat n) by lia.
Qed.

(** C15: the configuration loop of [Init] (lines 201-214) is the search for
    the first configuration whose walk fails or leaves more than one
    endpoint known: with [k = num_of_conf], it requests configurations
    [i], [i + 1], ... in turn, applies each walk's [EndpointXtract]
    calls, and stops after the first such configuration [i + j],
    returning its result code (0 when it was the endpoint count), or
    after [k] requests, returning 0; it touches nothing else. *)
Theorem conf_loop_scan k i (w : World P B) :
  w_bus w = b0 ->
  conf_loop sel k i a w =
  match list_find (conf_stop i (w_drv w)) (seq 0 k) with
  | Some (j, _) =>
      (fst (answer (i + Z.of_nat j)),
       mkWorld (w_pool w) b0 (conf_upto i (S j) (w_drv w)) (w_trace w ++ conf_reqs i (S j)))
  | None =>
      (0, mkWorld (w_pool w) b0 (conf_upto i k (w_drv w)) (w_trace w ++ conf_reqs i k))
  end.
Proof.
  revert i w. induction k as [|k IH]; intros i [p b d tr] Hb; simpl in Hb; subst b.
  - simpl. unfold conf_upto, conf_reqs. simpl. by rewrite app_nil_r.
  - cbn [conf_loop seq]. unfold st_bind, bus_call. simpl.
    rewrite Hanswer. destruct (answer i) as [rc calls] eqn:Hai. simpl.
    unfold drv_modify, drv_get. simpl.
    assert (Hu1 : conf_upto i 1 d = XtractAll sel calls d).
    { unfold conf_upto. simpl. rewrite Z.add_0_r, Hai. simpl. by rewrite app_nil_r. }
    assert (Hr1 : conf_reqs i 1 = [EvGetConfDescr a 0 i]).
    { unfold conf_reqs. simpl. by rewrite Z.add_0_r. }
    destruct (nz rc) eqn:Hrc.
    + rewrite decide_True by (left; by rewrite Z.add_0_r, Hai). simpl.
      by rewrite Z.add_0_r, Hai, Hu1, Hr1.
    + case_bool_decide as Hep.
      * rewrite decide_True by (right; by rewrite Hu1). simpl.
        rewrite Z.add_0_r, Hai, Hu1, Hr1. apply nz_false in Hrc. by subst rc.
      * rewrite decide_False by (intros [Hn|Hn]; [rewrite Z.add_0_r, Hai in Hn; simpl in Hn; congruence|
                                                  rewrite Hu1 in Hn; simpl in Hep; lia]).
        rewrite (IH (i + 1) (mkWorld p b0 (XtractAll sel calls d) (tr ++ [EvGetConfDescr a 0 i])))
          by done.
        simpl. rewrite <-fmap_S_seq, list_find_fmap.
        rewrite (list_find_ext (conf_stop i d ∘ S) (conf_stop (i + 1) (XtractAll sel calls d)))
          by (intros n; simpl; by rewrite conf_stop_S, Hai).
        destruct (list_find _ _) as [[j x]|]; simpl.
        -- rewrite (conf_upto_S i (S j) d), (conf_reqs_S i (S j)), Hai, <-app_assoc. simpl.
           by replace (i + Z.of_nat (S j)) with (i + 1 + Z.of_nat j) by lia.
        -- by rewrite (conf_upto_S i k d), (conf_reqs_S i k), Hai, <-app_assoc.
Qed.

End ConfScan.

Section Frames.

Context {P B : Type} `{AddressPool P} `{UsbTransport B}.
Variable sel : Z -> Z -> bool.

Lemma Poll_frame buf0 (w : World P B) :
  w_pool (snd (Poll buf0 w)) = w_pool w /\
  (w_drv (snd (Poll buf0 w)) = w_drv w \/
   exists t, 0 <= t < 2 ^ 32 /\ w_drv (snd (Poll buf0 w)) = set_qNextPollTime t (w_drv w)).
Proof.
  destruct w as [p b d tr].
  unfold Poll, st_bind, drv_get, bus_call, drv_modify. simpl.
  destruct (bPollEnable d); simpl; [|by split; [|left]].
  destruct (millis b) as [now b1]. simpl.
  destruct (deadline_elapsed now (qNextPollTime d)); simpl; [|by split; [|left]].
  destruct (millis b1) as [now2 b2]. simpl.
  match goal with |- context [poll_loop ?k ?i ?bf ?w0] =>
    destruct (poll_loop_spec k i bf w0) as (evs & b' & Hl & _ & _) end.
  rewrite Hl. simpl. split; [done|]. right. eexists. split; [apply wrap32_range|done].
Qed.

(** The reads [Poll] issues all go to the object's address, and it
    issues none while polling is disabled. *)
Lemma Poll_reads buf0 (w : World P B) :
  exists evs : list Event, w_trace (snd (Poll buf0 w)) = w_trace w ++ evs /\
    (bPollEnable (w_drv w) = false -> evs = []) /\
    Forall (fun e => exists ep n, e = EvInTransfer (bAddress (w_drv w)) ep n)
           (filter is_in_transfer evs) /\
    (length (filter is_in_transfer evs) <= bNumIface (w_drv w))%nat.
Proof.
  destruct w as [p b d tr].
  unfold Poll, st_bind, drv_get, bus_call, drv_modify. simpl.
  destruct (bPollEnable d); simpl; [|exists []; rewrite app_nil_r; simpl; split_and!; by try lia].
  destruct (millis b) as [now b1]. simpl.
  destruct (deadline_elapsed now (qNextPollTime d)); simpl;
    [|exists [EvMillis]; simpl; split_and!; by try lia].
  destruct (millis b1) as [now2 b2]. simpl.
  match goal with |- context [poll_loop ?k ?i ?bf ?w0] =>
    destruct (poll_loop_spec k i bf w0) as (evs & b' & Hl & Hf & _) end.
  rewrite Hl. simpl. exists ([EvMillis; EvMillis] ++ evs).
  split; [by rewrite <-!app_assoc|]. split; [done|].
  rewrite list.filter_app, Hf. simpl. split; [|by rewrite length_omap_seq_le].
  apply list.Forall_forall. intros e.
  rewrite list_elem_of_omap. intros (i & _ & Hi). unfold in_request in Hi.
  case_bool_decide; [done|]. injection Hi as <-. by eexists _, _.
Qed.

Lemma SndRpt_frame n data (w : World P B) :
  w_pool (snd (SndRpt n data w)) = w_pool w /\ w_drv (snd (SndRpt n data w)) = w_drv w.
Proof.
  destruct w as [p b d tr]. unfold SndRpt, st_bind, drv_get, bus_call. simpl.
  by destruct (outTransfer _ _ _ _ _).
Qed.

(** [Init] on an object that holds an address returns at once. *)
Lemma Init_busy parent port ls buf0 (w : World P B) :
  bAddress (w_drv w) <> 0 ->
  Init sel parent port ls buf0 w = (USB_ERROR_CLASS_INSTANCE_ALREADY_IN_USE, w).
Proof.
  intros Ha. unfold Init, st_bind, drv_get. simpl.
  apply nz_true in Ha. by rewrite Ha.
Qed.

End Frames.
