(* ===== verification/Lifecycle.v ===== *)
(** * The life cycle of a driver object

    The host and the application drive an [HIDComposite] object through
    its public operations in any order: the enumerator calls [Init] when a
    device appears and [Release] when it goes away, [USB::Task] calls
    [Poll] periodically, the application calls [SndRpt] and
    [SetReportParser].  Between two calls the bus may change arbitrarily
    (the device is replaced, time passes, reports arrive).

    - [Op] and [run_op]: one public call, as a computation of the monad
      of [Driver.v]; [run_ops] an executable sequence of calls.
    - [step] and [reachable]: the step relation of these calls and of the
      bus, and the worlds reachable from a freshly constructed object.
    - [session_inv]: the invariant of every reachable world, proved by
      rule induction: the object's tables are well formed with unique
      live interface keys, an object without an address never polls, and
      the address an object holds is allocated in the pool.
    - What [Release] leaves for the next device: the parser bindings
      ([bindings_survive]) and every live interface entry
      ([Release_Init_keeps_interfaces]). *)

From S2P Require Import Prelude UsbHost Tables Registry Extract Driver.
Import RegistrySpec.

Open Scope Z_scope.

(** ** The public operations *)

Inductive Op :=
| OpInit (parent port : Z) (lowspeed : bool) (buf0 : list Z)
| OpPoll (buf0 : list Z)
| OpRelease
| OpSndRpt (nbytes : Z) (data : list Z)
| OpSetReportParser (id : Z) (prs : option ParserRef).

Section Lifecycle.

Context {P B : Type} `{AddressPool P} `{UsbTransport B}.
Variable sel : Z -> Z -> bool.

(** A call of a method that only touches the object. *)
Definition drv_call {A} (f : HIDComposite -> A * HIDComposite) : ST (World P B) A :=
  fun w => let '(a, d') := f (w_drv w) in
           (a, mkWorld (w_pool w) (w_bus w) d' (w_trace w)).

Definition run_op (o : Op) : ST (World P B) Z :=
  match o with
  | OpInit parent port ls buf0 => Init sel parent port ls buf0
  | OpPoll buf0 => Poll buf0
  | OpRelease => Release
  | OpSndRpt n data => SndRpt n data
  | OpSetReportParser id prs =>
      r <- drv_call (SetReportParser id prs) ;; st_ret (Z.b2z r)
  end.

Fixpoint run_ops (os : list Op) : ST (World P B) (list Z) :=
  match os with
  | [] => st_ret []
  | o :: os' => r <- run_op o ;; rs <- run_ops os' ;; st_ret (r :: rs)
  end.

(** The bus replaced between two calls. *)
Definition set_bus (b : B) (w : World P B) : World P B :=
  mkWorld (w_pool w) b (w_drv w) (w_trace w).

Inductive step : World P B -> World P B -> Prop :=
| step_op o w : step w (snd (run_op o w))
| step_bus b w : step w (set_bus b w).

(** A freshly constructed object, on any pool and bus. *)
Definition initial (w : World P B) : Prop := w_drv w = HIDComposite_new.

Inductive reachable : World P B -> Prop :=
| reach_init w : initial w -> reachable w
| reach_step w w' : reachable w -> step w w' -> reachable w'.

Definition session_inv (w : World P B) : Prop :=
  drv_inv (w_drv w) /\
  (bAddress (w_drv w) = 0 -> bPollEnable (w_drv w) = false) /\
  (bAddress (w_drv w) <> 0 -> addr_in_use (w_pool w) (bAddress (w_drv w)) = true).

End Lifecycle.


(** ** The parser bindings survive [Release] *)

(** The calls that register a parser. *)
Definition is_registration (o : Op) : bool :=
  match o with OpSetReportParser _ _ => true | _ => false end.

Section Bindings.

Context {P B : Type} {HP : AddressPool P} {HL : AddressPoolLaws P} `{UsbTransport B}.
Variable sel : Z -> Z -> bool.

Implicit Types (w : World P B).

Lemma run_ops_cons o os w :
  snd (run_ops sel (o :: os) w) = snd (run_ops sel os (snd (run_op sel o w))).
Proof.
  simpl. unfold st_bind, st_ret. destruct (run_op sel o w) as [r w1]. simpl.
  by destruct (run_ops sel os w1).
Qed.

(** C14: the parser bindings survive every call but [SetReportParser]: any
    sequence of [Init], [Poll], [Release] and [SndRpt] calls, on any
    transport, leaves [rptParsers] as it was, so a parser registered
    before a [Release] still serves the next device (the asymmetry of
    [Release] the spec calls deliberate). *)
Theorem bindings_survive os w :
  Forall (fun o => is_registration o = false) os ->
  rptParsers (w_drv (snd (run_ops sel os w))) = rptParsers (w_drv w).
Proof.
  revert w. induction os as [|o os IH]; intros w Hos; [done|].
  apply list.Forall_cons in Hos as [Ho Hos]. rewrite run_ops_cons, IH by done.
  destruct o as [parent port ls buf0|pbuf| |n data|id prs]; simpl in *; [| | | |done].
  - apply Init_rptParsers.
  - by destruct (Poll_frame pbuf w) as [_ [->|(t & _ & ->)]].
  - done.
  - by rewrite (proj2 (SndRpt_frame n data w)).
Qed.

End Bindings.

(** ** The invariant of the life cycle *)

Section LifecycleInv.

Context {P B : Type} {HP : AddressPool P} {HL : AddressPoolLaws P} `{UsbTransport B}.
Variable sel : Z -> Z -> bool.

Implicit Types (w : World P B).

Lemma inv_set_rptParsers rp d :
  length rp = MAX_REPORT_PARSERS -> drv_inv d -> drv_inv (set_rptParsers rp d).
Proof. intros Hl [[] Hnd]. by split; [constructor|]. Qed.

Lemma session_inv_initial w : initial w -> session_inv w.
Proof.
  unfold initial, session_inv. intros ->. split_and!; [split|done|done].
  - apply HIDComposite_new_wf.
  - constructor.
Qed.

Lemma in_use_plus_self p p' a : in_use_plus p p' a -> addr_in_use p' a = true.
Proof. intros Hp. by rewrite Hp, Z.eqb_refl. Qed.

Lemma session_inv_Init parent port ls buf0 w :
  session_inv w -> session_inv (snd (Init sel parent port ls buf0 w)).
Proof.
  intros (Hi & Hpe & Hu).
  destruct (decide (bAddress (w_drv w) = 0)) as [Ha|Ha];
    [|by rewrite Init_busy].
  pose proof (Init_post_wp sel parent port ls buf0 w Ha (Hpe Ha)) as Hpost.
  pose proof (Init_inv sel parent port ls buf0 w Hi) as Hi'.
  unfold wp in Hpost. destruct (Init sel parent port ls buf0 w) as [r w'].
  simpl in *. split; [done|].
  destruct Hpost as [(_ & Ha' & _ & _ & Hp)|[(_ & Ha' & Hp' & Hp)|(_ & Ha' & Hp' & _)]].
  - split; [done|]. intros _. by eapply in_use_plus_self.
  - split; [done|]. intros _. by eapply in_use_plus_self.
  - by split.
Qed.

Lemma session_inv_op o w : session_inv w -> session_inv (snd (run_op sel o w)).
Proof.
  intros Hs. destruct o as [parent port ls buf0|pbuf| |n data|id prs]; simpl.
  - by apply session_inv_Init.
  - destruct Hs as (Hi & Hpe & Hu). destruct (Poll_frame pbuf w) as [Hpool [Hd|(t & _ & Hd)]];
      unfold session_inv; rewrite Hpool, Hd; [done|].
    split_and!; [by apply inv_set_qNextPollTime|done|done].
  - destruct Hs as (Hi & _). split_and!; [by apply (Release_inv w)|done|done].
  - destruct (SndRpt_frame n data w) as [Hpool Hd]. unfold session_inv.
    by rewrite Hpool, Hd.
  - destruct Hs as (Hi & Hpe & Hu).
    destruct (SetReportParser_frame id prs (w_drv w)) as (rp & Hrp & Hl);
      [apply Hi|].
    unfold st_bind, drv_call. destruct (SetReportParser id prs (w_drv w)) as [r d'].
    simpl in *. subst d'. split_and!; [by apply inv_set_rptParsers|done|done].
Qed.

Lemma reachable_run_ops os w : reachable sel w -> reachable sel (snd (run_ops sel os w)).
Proof.
  revert w. induction os as [|o os IH]; intros w Hr; [done|]. simpl.
  unfold st_bind. destruct (run_op sel o w) as [r w1] eqn:Ho.
  pose proof (IH w1) as IH1. destruct (run_ops sel os w1) as [rs w2].
  apply IH1. eapply reach_step; [exact Hr|].
  replace w1 with (snd (run_op sel o w)) by by rewrite Ho. constructor.
Qed.

Lemma session_inv_reachable w : reachable sel w -> session_inv w.
Proof.
  induction 1 as [w Hw|w w' _ IH Hs]; [by apply session_inv_initial|].
  destruct Hs as [o w|b w]; [by apply session_inv_op|done].
Qed.

(** C2: every world reachable from a freshly constructed object, through
    any sequence of [Init], [Poll], [Release], [SndRpt] and
    [SetReportParser] calls and changes of the bus, satisfies the
    invariant: the tables are well formed with unique live interface
    keys, an object without an address does not poll, and the address
    the object holds is allocated in the pool. *)
Theorem reachable_session_inv w : reachable sel w -> session_inv w.
Proof. apply session_inv_reachable. Qed.

(** C12: in every reachable world, the interrupt-IN reads a [Poll] call
    issues all go to the object's own address, which is nonzero and
    allocated in the pool: the driver never polls a device it does not
    hold. *)
Theorem Poll_reads_held_address buf0 w :
  reachable sel w ->
  exists evs : list Event, w_trace (snd (Poll buf0 w)) = w_trace w ++ evs /\
    Forall (fun e => exists ep n, e = EvInTransfer (bAddress (w_drv w)) ep n /\
                       bAddress (w_drv w) <> 0 /\
                       addr_in_use (w_pool w) (bAddress (w_drv w)) = true)
           (filter is_in_transfer evs).
Proof.
  intros Hr. destruct (session_inv_reachable w Hr) as (_ & Hpe & Hu).
  destruct (Poll_reads buf0 w) as (evs & Ht & Hoff & Hall & _). exists evs. split; [done|].
  destruct (bPollEnable (w_drv w)) eqn:Hen; [|rewrite (Hoff eq_refl); constructor].
  assert (Ha : bAddress (w_drv w) <> 0) by (intros Ha; specialize (Hpe Ha); congruence).
  eapply list.Forall_impl; [exact Hall|]. intros e (ep & n & ->). eauto 6.
Qed.

(** The registered parser slots of every reachable object form a prefix
    of the table. *)
Lemma prefix_filled_op o w :
  session_inv w -> prefix_filled (rptParsers (w_drv w)) ->
  prefix_filled (rptParsers (w_drv (snd (run_op sel o w)))).
Proof.
  intros ((Hwf & _) & _) Hp. destruct o as [parent port ls buf0|pbuf| |n data|id prs]; simpl.
  - by rewrite Init_rptParsers.
  - by destruct (Poll_frame pbuf w) as [_ [->|(t & _ & ->)]].
  - done.
  - by rewrite (proj2 (SndRpt_frame n data w)).
  - unfold st_bind, drv_call.
    destruct (SetReportParser id prs (w_drv w)) as [r d'] eqn:Hs. simpl.
    eapply SetReportParser_sim; [apply Hwf|exact Hp|exact Hs].
Qed.

Lemma prefix_filled_reachable w : reachable sel w -> prefix_filled (rptParsers (w_drv w)).
Proof.
  intros Hr. induction Hr as [w Hw|w w' Hr IH Hs].
  - rewrite Hw. apply Initialize_prefix_filled.
  - destruct Hs as [o w|b w]; [|done].
    by apply prefix_filled_op; [apply session_inv_reachable|].
Qed.

(** C6: the parser registry of every reachable object refines the abstract
    registry of the spec: [GetReportParser] answers what [reg_resolve]
    answers on the registered bindings, and a [SetReportParser] call
    returns what [reg_add] returns and leaves the registered bindings
    [reg_add] produces. *)
Theorem reachable_registry_refines w :
  reachable sel w ->
  (forall id, GetReportParser id (w_drv w) =
              reg_resolve (bHasReportId (w_drv w)) id (abs_reg (rptParsers (w_drv w)))) /\
  (forall id prs, let '(r, d') := SetReportParser id prs (w_drv w) in
     (r, abs_reg (rptParsers d')) = reg_add (id, prs) (abs_reg (rptParsers (w_drv w)))).
Proof.
  intros Hr. pose proof (prefix_filled_reachable w Hr) as Hp.
  destruct (session_inv_reachable w Hr) as ((Hwf & _) & _).
  split.
  - intros id. apply GetReportParser_sim; [apply Hwf|exact Hp].
  - intros id prs. destruct (SetReportParser id prs (w_drv w)) as [r d'] eqn:Hs.
    eapply SetReportParser_sim; [apply Hwf|exact Hp|exact Hs].
Qed.

(** The deadline of every reachable object is a [uint32_t]. *)
Lemma qNext_range_op o w :
  0 <= qNextPollTime (w_drv w) < 2 ^ 32 ->
  0 <= qNextPollTime (w_drv (snd (run_op sel o w))) < 2 ^ 32.
Proof.
  intros Hq. destruct o as [parent port ls buf0|pbuf| |n data|id prs]; simpl.
  - by destruct (Init_qNextPollTime sel parent port ls buf0 w) as [->| ->].
  - by destruct (Poll_frame pbuf w) as [_ [->|(t & Ht & ->)]].
  - done.
  - by rewrite (proj2 (SndRpt_frame n data w)).
  - unfold st_bind, drv_call, SetReportParser.
    by destruct (SetReportParser_loop _ _ _ _ _).
Qed.

Lemma qNext_range_reachable w : reachable sel w -> 0 <= qNextPollTime (w_drv w) < 2 ^ 32.
Proof.
  induction 1 as [w Hw|w w' _ IH Hs]; [rewrite Hw; simpl; lia|].
  destruct Hs as [o w|b w]; [by apply qNext_range_op|done].
Qed.


End LifecycleInv.

(** ** Stale interfaces survive re-enumeration *)

Section Survivors.

Context {P B : Type} {HP : AddressPool P} {HL : AddressPoolLaws P} `{UsbTransport B}.
Variable sel : Z -> Z -> bool.

Implicit Types (w : World P B).

(** C11: [Release] and a new [Init] never drop an interface entry: in every
    reachable world, whatever device the next [Init] meets (and whatever
    it returns), every interface entry live before the [Release] is still
    live after the [Init], at the same position; [Release] only resets
    [bNumEP] to 1, so the stale entries keep endpoint indices at or past
    the new device's endpoint count, and [Init] sends them [SET_IDLE]
    while [Poll] reads through them. *)
Theorem Release_Init_keeps_interfaces w parent port ls buf0 :
  reachable sel w ->
  live_keys (w_drv w) `prefix_of`
    live_keys (w_drv (snd (run_ops sel [OpRelease; OpInit parent port ls buf0] w))).
Proof.
  intros Hr. destruct (session_inv_reachable sel w Hr) as (Hi & _).
  rewrite !run_ops_cons. simpl run_op.
  change (live_keys (w_drv w)) with (live_keys (w_drv (snd (Release w)))).
  unfold run_ops, st_ret. simpl. by apply Init_keys, Release_inv.
Qed.

End Survivors.
