(* ===== verification/Scenarios.v ===== *)
(** * The executable host: witnesses of the general theorems

    The driver model of [Driver.v] run on the host of [MockHost.v] with a
    scripted two-interface keyboard: each theorem of the development that
    has hypotheses is applied here at a concrete world where they hold,
    every hypothesis discharged by evaluation. *)

From stdpp Require Import gmap.
From S2P Require Import Prelude UsbHost MockHost Tables Registry Extract Driver Lifecycle.

Open Scope Z_scope.

(** ** Devices *)

(** A device descriptor: [bLength] 18, [bMaxPacketSize0] 8, VID 0x046D,
    PID 0xC51C, one configuration. *)
Definition kbd_descr : list Z :=
  [18; 1; 0; 2; 0; 0; 0; 8; 109; 4; 28; 197; 0; 1; 1; 2; 0; 1].


Definition ep_in1 : USB_ENDPOINT_DESCRIPTOR := mkEpDescr 129 3 8 10.
Definition ep_in2 : USB_ENDPOINT_DESCRIPTOR := mkEpDescr 130 3 16 4.

(** A keyboard with a second interface (interfaces 0 and 1, one
    interrupt-IN endpoint each). *)
Definition two_iface_calls : list XtractCall :=
  [mkXtract 1 0 0 1 ep_in1; mkXtract 1 1 0 2 ep_in2].

(** A device on the bus, answering every request with success, whose
    first configuration makes the walker issue [calls], and which has the
    interrupt-IN answers [reports] queued. *)
Definition device (descr : list Z) (calls : list XtractCall) (reports : list (Z * list Z))
    : MockBus :=
  mkMockBus descr 0 0 [calls] 0 0 0 reports 1000.

Definition kbd_bus : MockBus := device kbd_descr two_iface_calls [(0, [1; 0; 4])].

(** The object as constructed, on a pool holding only address 0. *)
Definition world0 (b : MockBus) : World MockPool MockBus :=
  mkWorld mock_pool_init b HIDComposite_new [].

Definition run (os : list (Op)) (b : MockBus) : list Z * World MockPool MockBus :=
  run_ops SelectInterface_default os (world0 b).

(** The probe buffer of [Init] before any transfer: its contents are
    indeterminate, here all zeroes. *)
Definition buf_zero : list Z := replicate 18 0.

Definition init_op (buf0 : list Z) : Op := OpInit 0 1 false buf0.

(** The stack buffer of [Poll] before its first [ZeroMemory]: indeterminate
    too, here all ones. *)
Definition poll_junk : list Z := replicate 64 255.

Definition poll_op : Op := OpPoll poll_junk.

(** ** A transport that never delivers data *)

Record SilentBus := mkSilentBus { sb_bus : MockBus }.

#[export] Instance SilentBus_UsbTransport : UsbTransport SilentBus := {
  getDevDescr a ep n b := let '(r, b') := getDevDescr a ep n (sb_bus b) in (r, mkSilentBus b');
  setAddr a ep newa b := let '(r, b') := setAddr a ep newa (sb_bus b) in (r, mkSilentBus b');
  getConfDescr a ep i b := let '(r, b') := getConfDescr a ep i (sb_bus b) in (r, mkSilentBus b');
  setConf a ep c b := let '(r, b') := setConf a ep c (sb_bus b) in (r, mkSilentBus b');
  SetIdleReq a iface rid dur b :=
    let '(r, b') := SetIdleReq a iface rid dur (sb_bus b) in (r, mkSilentBus b');
  inTransfer a ep n b := ((hrNAK, 0, []), b);
  outTransfer a ep n data b := let '(r, b') := outTransfer a ep n data (sb_bus b) in (r, mkSilentBus b');
  millis b := let '(r, b') := millis (sb_bus b) in (r, mkSilentBus b')
}.

Lemma SilentBus_no_report_data : @no_report_data SilentBus _.
Proof. intros a ep n b. simpl. by right. Qed.

(** ** Worlds along a run *)

(** The keyboard enumerated. *)
Definition kbd_ready : World MockPool MockBus := snd (run [init_op buf_zero] kbd_bus).
(** The keyboard enumerated and polled once, at the time of enumeration. *)
Definition kbd_polled : World MockPool MockBus := snd (run [init_op buf_zero; poll_op] kbd_bus).

(** The keyboard enumerated on a transport that never delivers data. *)
Definition silent_ready : World MockPool SilentBus :=
  snd (Init SelectInterface_default 0 1 false buf_zero
            (mkWorld mock_pool_init (mkSilentBus kbd_bus) HIDComposite_new [])).

(** ** Witnesses of the general theorems *)

Lemma Init_outcome_witness :
  bAddress (w_drv (world0 kbd_bus)) = 0 /\ bPollEnable (w_drv (world0 kbd_bus)) = false /\
  let '(r, w') := Init SelectInterface_default 0 1 false buf_zero (world0 kbd_bus) in
  Init_post (world0 kbd_bus) r w'.
Proof.
  split; [reflexivity|]. split; [reflexivity|].
  apply (Init_outcome SelectInterface_default 0 1 false buf_zero (world0 kbd_bus));
    reflexivity.
Defined.

Lemma Poll_idle_witness :
  bPollEnable (w_drv kbd_polled) = true /\ millis (w_bus kbd_polled) = (1000, w_bus kbd_polled) /\
  deadline_elapsed 1000 (qNextPollTime (w_drv kbd_polled)) = false /\
  Poll poll_junk kbd_polled = (0, mkWorld (w_pool kbd_polled) (w_bus kbd_polled) (w_drv kbd_polled)
                                (w_trace kbd_polled ++ [EvMillis])).
Proof.
  split_and!; [vm_compute; reflexivity..|].
  apply (proj2 (Poll_idle poll_junk kbd_polled 1000 (w_bus kbd_polled))); vm_compute; reflexivity.
Defined.

Lemma Poll_due_reads_witness :
  bPollEnable (w_drv kbd_ready) = true /\ millis (w_bus kbd_ready) = (1000, w_bus kbd_ready) /\
  deadline_elapsed 1000 (qNextPollTime (w_drv kbd_ready)) = true /\
  exists evs b',
    Poll poll_junk kbd_ready = (0, mkWorld (w_pool kbd_ready) b'
                   (set_qNextPollTime (wrap32 (wrap32 1000 + pollInterval (w_drv kbd_ready)))
                      (w_drv kbd_ready))
                   (w_trace kbd_ready ++ [EvMillis; EvMillis] ++ evs)) /\
    filter is_in_transfer evs = omap (in_request (w_drv kbd_ready)) (seq 0 (bNumIface (w_drv kbd_ready))).
Proof.
  split_and!; [vm_compute; reflexivity..|].
  apply (Poll_due_reads poll_junk kbd_ready 1000 (w_bus kbd_ready) 1000 (w_bus kbd_ready));
    vm_compute; reflexivity.
Defined.

Lemma Poll_zero_length_no_dispatch_witness :
  @no_report_data SilentBus _ /\
  filter is_dispatch (w_trace (snd (Poll poll_junk silent_ready))) = filter is_dispatch (w_trace silent_ready).
Proof.
  split; [intros ? ? ? ?; simpl; right; reflexivity|].
  apply (Poll_zero_length_no_dispatch poll_junk silent_ready). intros ? ? ? ?; simpl; right; reflexivity.
Defined.

Lemma Poll_scratch_irrelevant_witness :
  length poll_junk = Z.to_nat constBuffLen /\ length (replicate 64 0) = Z.to_nat constBuffLen /\
  Poll poll_junk kbd_ready = Poll (replicate 64 0) kbd_ready.
Proof.
  assert (H1 : length poll_junk = Z.to_nat constBuffLen) by reflexivity.
  assert (H2 : length (replicate 64 0) = Z.to_nat constBuffLen) by reflexivity.
  split_and!; [exact H1|exact H2|].
  apply (Poll_scratch_irrelevant poll_junk (replicate 64 0) kbd_ready H1 H2).
Defined.

Lemma deadline_wraparound_witness :
  0 <= 2 ^ 32 - 5 < 2 ^ 32 /\
  deadline_elapsed (wrap32 (2 ^ 32 - 5 + 10)) (2 ^ 32 - 5) = true.
Proof.
  split; [lia|]. apply (deadline_wraparound (2 ^ 32 - 5) 10); lia.
Defined.

Lemma reachable_session_inv_witness :
  reachable SelectInterface_default kbd_polled /\ session_inv kbd_polled.
Proof.
  assert (Hr : reachable SelectInterface_default kbd_polled)
    by (apply reachable_run_ops, reach_init; reflexivity).
  split; [exact Hr|]. apply (reachable_session_inv SelectInterface_default kbd_polled Hr).
Defined.

Lemma Poll_reads_held_address_witness :
  reachable SelectInterface_default kbd_ready /\
  exists evs : list Event, w_trace (snd (Poll poll_junk kbd_ready)) = w_trace kbd_ready ++ evs /\
    Forall (fun e => exists ep n, e = EvInTransfer (bAddress (w_drv kbd_ready)) ep n /\
                       bAddress (w_drv kbd_ready) <> 0 /\
                       addr_in_use (w_pool kbd_ready) (bAddress (w_drv kbd_ready)) = true)
           (filter is_in_transfer evs).
Proof.
  assert (Hr : reachable SelectInterface_default kbd_ready)
    by (apply reachable_run_ops, reach_init; reflexivity).
  split; [exact Hr|]. apply (Poll_reads_held_address SelectInterface_default poll_junk kbd_ready Hr).
Defined.

Lemma Release_spec_witness :
  AddressPoolLaws MockPool /\
  let d := w_drv kbd_ready in
  let '(r, w') := Release kbd_ready in
  r = 0 /\ in_use_same (FreeAddress (bAddress d) (w_pool kbd_ready)) (w_pool w') /\
  addr_in_use (w_pool w') (bAddress d) = false /\
  bNumEP (w_drv w') = 1%nat /\ bAddress (w_drv w') = 0 /\
  qNextPollTime (w_drv w') = 0 /\ bPollEnable (w_drv w') = false /\
  hidInterfaces (w_drv w') = hidInterfaces d /\ bNumIface (w_drv w') = bNumIface d /\
  epInfo (w_drv w') = epInfo d /\ rptParsers (w_drv w') = rptParsers d.
Proof.
  split; [exact MockPool_laws|]. apply (Release_spec (HL := MockPool_laws) kbd_ready).
Defined.

(** The polled keyboard, 5 ms later. *)
Definition kbd_later : World MockPool MockBus := set_bus (mb_at 1005 (w_bus kbd_polled)) kbd_polled.

Lemma Poll_rate_limit_witness :
  qNextPollTime (w_drv kbd_later) = wrap32 (wrap32 1000 + pollInterval (w_drv kbd_later)) /\
  0 <= pollInterval (w_drv kbd_later) < 2 ^ 31 /\ 0 <= 5 < pollInterval (w_drv kbd_later) /\
  millis (w_bus kbd_later) = (wrap32 (1000 + 5), w_bus kbd_later) /\
  w_drv (snd (Poll poll_junk kbd_later)) = w_drv kbd_later /\
  filter is_in_transfer (w_trace (snd (Poll poll_junk kbd_later))) = filter is_in_transfer (w_trace kbd_later).
Proof.
  assert (HI : pollInterval (w_drv kbd_later) = 10) by (vm_compute; reflexivity).
  assert (Hq : qNextPollTime (w_drv kbd_later) = wrap32 (wrap32 1000 + pollInterval (w_drv kbd_later)))
    by (vm_compute; reflexivity).
  assert (Hm : millis (w_bus kbd_later) = (wrap32 (1000 + 5), w_bus kbd_later))
    by (vm_compute; reflexivity).
  refine (conj Hq (conj _ (conj _ (conj Hm _)))); [lia|lia|].
  apply (Poll_rate_limit poll_junk kbd_later 1000 5 (w_bus kbd_later) Hq); [lia|lia|exact Hm].
Defined.

(** The keyboard with a parser registered for id 0, enumerated and polled. *)
Definition kbd_parsed : World MockPool MockBus :=
  snd (run [OpSetReportParser 0 (Some 5%nat); init_op buf_zero; poll_op] kbd_bus).

Lemma reachable_registry_refines_witness :
  reachable SelectInterface_default kbd_parsed /\
  (forall id, GetReportParser id (w_drv kbd_parsed) =
     RegistrySpec.reg_resolve (bHasReportId (w_drv kbd_parsed)) id (abs_reg (rptParsers (w_drv kbd_parsed)))) /\
  (forall id prs, let '(r, d') := SetReportParser id prs (w_drv kbd_parsed) in
     (r, abs_reg (rptParsers d')) = RegistrySpec.reg_add (id, prs) (abs_reg (rptParsers (w_drv kbd_parsed)))).
Proof.
  assert (Hr : reachable SelectInterface_default kbd_parsed)
    by (apply reachable_run_ops, reach_init; reflexivity).
  split; [exact Hr|]. apply (reachable_registry_refines SelectInterface_default kbd_parsed Hr).
Defined.


Lemma Release_Init_keeps_interfaces_witness :
  reachable SelectInterface_default kbd_ready /\
  live_keys (w_drv kbd_ready) `prefix_of`
    live_keys (w_drv (snd (run_ops SelectInterface_default [OpRelease; init_op buf_zero] kbd_ready))).
Proof.
  assert (Hr : reachable SelectInterface_default kbd_ready)
    by (apply reachable_run_ops, reach_init; reflexivity).
  split; [exact Hr|].
  apply (Release_Init_keeps_interfaces SelectInterface_default kbd_ready 0 1 false buf_zero Hr).
Defined.

Lemma bindings_survive_witness :
  Forall (fun o => is_registration o = false) [OpRelease; init_op buf_zero; poll_op] /\
  rptParsers (w_drv (snd (run_ops SelectInterface_default [OpRelease; init_op buf_zero; poll_op]
                            kbd_parsed))) = rptParsers (w_drv kbd_parsed).
Proof.
  assert (Hf : Forall (fun o => is_registration o = false) [OpRelease; init_op buf_zero; poll_op])
    by (repeat constructor).
  split; [exact Hf|].
  apply (bindings_survive SelectInterface_default [OpRelease; init_op buf_zero; poll_op] kbd_parsed Hf).
Defined.

(** The keyboard's answers to configuration requests: fixed data. *)
Definition kbd_answer (j : Z) : Z * list XtractCall :=
  (mb_rc_conf kbd_bus, nth (Z.to_nat j) (mb_configs kbd_bus) []).

Lemma conf_loop_scan_witness :
  (forall j, getConfDescr 1 0 j kbd_bus = (kbd_answer j, kbd_bus)) /\
  w_bus (world0 kbd_bus) = kbd_bus /\
  conf_loop SelectInterface_default 1 0 1 (world0 kbd_bus) =
  match list_find (conf_stop SelectInterface_default kbd_answer 0 (w_drv (world0 kbd_bus))) (seq 0 1) with
  | Some (j, _) =>
      (fst (kbd_answer (0 + Z.of_nat j)),
       mkWorld (w_pool (world0 kbd_bus)) kbd_bus
         (conf_upto SelectInterface_default kbd_answer 0 (S j) (w_drv (world0 kbd_bus)))
         (w_trace (world0 kbd_bus) ++ conf_reqs 1 0 (S j)))
  | None =>
      (0, mkWorld (w_pool (world0 kbd_bus)) kbd_bus
            (conf_upto SelectInterface_default kbd_answer 0 1 (w_drv (world0 kbd_bus)))
            (w_trace (world0 kbd_bus) ++ conf_reqs 1 0 1))
  end.
Proof.
  assert (Ha : forall j, getConfDescr 1 0 j kbd_bus = (kbd_answer j, kbd_bus)) by reflexivity.
  split_and!; [exact Ha|reflexivity|].
  exact (conf_loop_scan SelectInterface_default 1 kbd_bus kbd_answer Ha 1 0 (world0 kbd_bus) eq_refl).
Defined.
